(** * Transcript-to-analytics pipeline of the Gong cloud functions

    Shallow embedding of [functions/transcript/index.js]
    ([processTranscriptEntries], [extractConversationText],
    [analyzeTranscriptContent] and their helpers [getSpeakerName],
    [formatTimestamp], [analyzeSentence]) together with the copy of
    [extractConversationText] in [functions/ai-analysis/index.js].
    Further parts embed the analysis helpers of
    [functions/daily-summary/index.js], [getSecrets] and the handler
    [transcriptHandler] of the transcript function, and the handlers
    [aiAnalysisHandler] and [batchAnalysis] of the ai-analysis function.

    Modelling conventions.
    - A JavaScript number is an exact rational ([Qc]); rounding of
      binary64 arithmetic is not modelled.
    - A JavaScript string is a [string] of 8-bit characters; case
      folding and white space are the ASCII ones.
    - A [Map] keyed by strings is a [gmap string _]; a plain object used
      as a dictionary is a [gmap string _] of its own properties plus the
      property names it inherits from [Object.prototype].
    - An exception is the [Throw] outcome of the [result] type. *)

From Stdlib Require Import Ascii String QArith Qcanon Qround DecimalString.
From stdpp Require Import base numbers strings list gmap fin_maps.
From Stdlib Require DecimalPos DecimalZ.
From stdpp Require Import sorting.

(** ** JavaScript strings *)

Module JsString.

(** [String.prototype.split] with a one-character separator. *)
Fixpoint split (sep : ascii) (s : string) : list string :=
  match s with
  | EmptyString => [EmptyString]
  | String c rest =>
      if Ascii.eqb c sep then EmptyString :: split sep rest
      else match split sep rest with
           | tok :: toks => String c tok :: toks
           | [] => [String c EmptyString]
           end
  end.

Definition lower_ascii (c : ascii) : ascii :=
  let n := nat_of_ascii c in
  if (65 <=? n)%nat && (n <=? 90)%nat then ascii_of_nat (n + 32) else c.

(** [String.prototype.toLowerCase]. *)
Fixpoint toLowerCase (s : string) : string :=
  match s with
  | EmptyString => EmptyString
  | String c rest => String (lower_ascii c) (toLowerCase rest)
  end.

Fixpoint startsWith (s w : string) : bool :=
  match w, s with
  | EmptyString, _ => true
  | String _ _, EmptyString => false
  | String a w', String b s' => Ascii.eqb a b && startsWith s' w'
  end.

(** [String.prototype.includes]: [w] occurs in [s] as a substring. *)
Fixpoint includes (s w : string) : bool :=
  startsWith s w ||
  match s with
  | EmptyString => false
  | String _ s' => includes s' w
  end.

(** White space removed by [trim]: TAB, LF, VT, FF, CR and SPACE. *)
Definition is_space (c : ascii) : bool :=
  let n := nat_of_ascii c in
  ((9 <=? n)%nat && (n <=? 13)%nat) || (n =? 32)%nat.

Fixpoint trimStart (s : string) : string :=
  match s with
  | EmptyString => EmptyString
  | String c rest => if is_space c then trimStart rest else s
  end.

Fixpoint trimEnd (s : string) : string :=
  match s with
  | EmptyString => EmptyString
  | String c rest =>
      match trimEnd rest with
      | EmptyString => if is_space c then EmptyString else String c EmptyString
      | rest' => String c rest'
      end
  end.

(** [String.prototype.trim]. *)
Definition trim (s : string) : string := trimEnd (trimStart s).

Fixpoint replicate (n : nat) (c : ascii) : string :=
  match n with
  | O => EmptyString
  | S n' => String c (replicate n' c)
  end.

(** [String.prototype.padStart] with a one-character filler. *)
Definition padStart (width : nat) (c : ascii) (s : string) : string :=
  replicate (width - String.length s) c +:+ s.

(** [Array.prototype.join] on an array of strings. *)
Fixpoint join (sep : string) (l : list string) : string :=
  match l with
  | [] => EmptyString
  | [x] => x
  | x :: rest => x +:+ sep +:+ join sep rest
  end.

(** Decimal rendering of an integer, as by [Number.prototype.toString]
    and template literals. *)
Definition of_Z (z : Z) : string := NilZero.string_of_int (Z.to_int z).
Definition of_nat (n : nat) : string := of_Z (Z.of_nat n).

(** A string is truthy unless it is empty. *)
Definition truthy (s : string) : bool :=
  match s with EmptyString => false | String _ _ => true end.

End JsString.

(** ** JavaScript numbers, values and exceptions *)

Definition num (z : Z) : Qc := Qc_of_Z z.

Module JsNumber.

(** A number is truthy unless it is zero. *)
Definition truthy (q : Qc) : bool := negb (Qeq_bool q 0).

Definition floor (q : Qc) : Z := Qfloor q.

(** Integer part, rounding towards zero. *)
Definition trunc (q : Qc) : Z :=
  if Qle_bool 0 q then Qfloor q else Qceiling q.

(** The comparison [a > b]. *)
Definition gt (a b : Qc) : bool := negb (Qle_bool a b).

(** The [%] operator: the remainder has the sign of the dividend. *)
Definition rem (a b : Qc) : Qc := (a - b * num (trunc (a / b)))%Qc.

End JsNumber.

(** The values a JSON field can hold. [VUndefined] is an absent field;
    [VObject] is any object or array: truthy, and without the string
    methods the pipeline calls. *)
Inductive jsval : Type :=
  | VUndefined
  | VNull
  | VBool (b : bool)
  | VNum (q : Qc)
  | VStr (s : string)
  | VObject.

Definition truthy (v : jsval) : bool :=
  match v with
  | VUndefined | VNull => false
  | VBool b => b
  | VNum q => JsNumber.truthy q
  | VStr s => JsString.truthy s
  | VObject => true
  end.

Inductive js_error : Type := TypeError.

Inductive result (A : Type) : Type :=
  | Ok (a : A)
  | Throw (e : js_error).
Arguments Ok {A} a.
Arguments Throw {A} e.

Global Instance result_bind : MBind result := λ A B k r,
  match r with
  | Ok a => k a
  | Throw e => Throw e
  end.

(** [for (const x of xs) body] over a state [S] that the body may abort. *)
Fixpoint for_of {A S} (xs : list A) (body : S → A → result S) (s : S)
  : result S :=
  match xs with
  | [] => Ok s
  | x :: rest => s' ← body s x; for_of rest body s'
  end.

(** Calling a string method on a value: a [TypeError] unless it is a string. *)
Definition as_string (v : jsval) : result string :=
  match v with
  | VStr s => Ok s
  | _ => Throw TypeError
  end.

(** A plain object literal [{}] used as a dictionary. Reading a property
    that is not its own falls back on [Object.prototype]. *)
Module JsObject.

Definition prototype_keys : list string :=
  [ "constructor"; "__proto__"; "hasOwnProperty"; "isPrototypeOf";
    "propertyIsEnumerable"; "toLocaleString"; "toString"; "valueOf";
    "__defineGetter__"; "__defineSetter__"; "__lookupGetter__";
    "__lookupSetter__" ].

Definition inherited (k : string) : bool :=
  bool_decide (k ∈ prototype_keys).

End JsObject.

(** ** Data model *)

(** One sentence of a vendor entry: [{ text?, start?, end? }], times in
    milliseconds. *)
Module RawSentence.
Record t : Type := mk {
  text : jsval;
  start : option Qc;
  end_ : option Qc
}.
End RawSentence.

(** One vendor transcript entry. [sentences] is [None] when the field is
    absent or not an array. The legacy fields [sentence], [text],
    [startTime] and [endTime] are read by the fallback path only. *)
Module RawEntry.
Record t : Type := mk {
  speakerId : string;
  topic : option string;
  sentences : option (list RawSentence.t);
  sentence : option string;
  text : option string;
  startTime : option Qc;
  endTime : option Qc
}.
End RawEntry.

(** The argument of the three pipeline functions: an array of entries, or
    any other value. *)
Inductive transcript : Type :=
  | TArray (entries : list RawEntry.t)
  | TOther (v : jsval).

Inductive Sentiment : Type := Positive | Neutral | Negative.

Module Utterance.
Record t : Type := mk {
  speakerId : string;
  speakerName : string;
  sentence : jsval;
  startTime : Qc;
  endTime : Qc;
  timestamp : string;
  topic : option string;
  duration : Qc;
  wordCount : nat;
  sentiment : Sentiment
}.
End Utterance.

(** [talkTimePercentage] is [None] until the closing pass of the analyzer
    adds the property. *)
Module SpeakerStat.
Record t : Type := mk {
  totalTime : Qc;
  wordCount : nat;
  sentenceCount : nat;
  avgWordsPerSentence : Qc;
  talkTimePercentage : option Qc
}.
End SpeakerStat.

Module TopicRecord.
Record t : Type := mk {
  topic : string;
  startTime : Qc;
  duration : Qc;
  mentions : nat
}.
End TopicRecord.

Module SentimentDistribution.
Record t : Type := mk {
  positive : nat;
  neutral : nat;
  negative : nat
}.
End SentimentDistribution.

Module InteractionMetrics.
Record t : Type := mk {
  questionCount : nat;
  exclamationCount : nat;
  speakerSwitches : nat
}.
End InteractionMetrics.

Module Analysis.
Record t : Type := mk {
  speakerStats : gmap string SpeakerStat.t;
  totalDuration : Qc;
  totalWords : nat;
  sentimentDistribution : SentimentDistribution.t;
  topicFlow : list TopicRecord.t;
  interactionMetrics : InteractionMetrics.t
}.
End Analysis.

(** What [analyzeTranscriptContent] returns: the object [{}] without any
    property, or a populated analysis. *)
Inductive analytics : Type :=
  | EmptyObject
  | Analytics (a : Analysis.t).

(** ** Helpers *)

(** [getSpeakerName(speakerId, speakerMap)]: the [Map] is threaded through. *)
Definition getSpeakerName (speakerId : string) (speakerMap : gmap string string)
  : string * gmap string string :=
  match speakerMap !! speakerId with
  | None =>
      let speakerNumber := (size speakerMap + 1)%nat in
      let name := "Speaker " +:+ JsString.of_nat speakerNumber in
      (name, <[speakerId := name]> speakerMap)
  | Some name => (name, speakerMap)
  end.

Definition formatTimestamp (seconds : Qc) : string :=
  if negb (JsNumber.truthy seconds) && negb (Qeq_bool seconds 0) then "00:00"
  else
    let mins := JsNumber.floor (seconds / num 60) in
    let secs := JsNumber.floor (JsNumber.rem seconds (num 60)) in
    JsString.padStart 2 "0" (JsString.of_Z mins) +:+ ":" +:+
    JsString.padStart 2 "0" (JsString.of_Z secs).

Definition positiveWords : list string :=
  [ "great"; "excellent"; "good"; "love"; "perfect"; "amazing"; "fantastic";
    "wonderful" ].

Definition negativeWords : list string :=
  [ "bad"; "terrible"; "awful"; "hate"; "worst"; "horrible"; "concern";
    "problem"; "issue" ].

Definition analyzeSentence (text : jsval) : result Sentiment :=
  if negb (truthy text) then Ok Neutral
  else
    s ← as_string text;
    let lowerText := JsString.toLowerCase s in
    let positiveCount :=
      length (List.filter (λ word, JsString.includes lowerText word) positiveWords) in
    let negativeCount :=
      length (List.filter (λ word, JsString.includes lowerText word) negativeWords) in
    if (negativeCount <? positiveCount)%nat then Ok Positive
    else if (positiveCount <? negativeCount)%nat then Ok Negative
    else Ok Neutral.

(** [sentence.start ? sentence.start / 1000 : 0] *)
Definition seconds_or_zero (ms : option Qc) : Qc :=
  match ms with
  | Some q => if JsNumber.truthy q then (q / num 1000)%Qc else 0%Qc
  | None => 0%Qc
  end.

(** [sentence.end && sentence.start ? (sentence.end - sentence.start) / 1000 : 0] *)
Definition sentence_duration (s : RawSentence.t) : Qc :=
  match RawSentence.end_ s, RawSentence.start s with
  | Some e, Some b =>
      if JsNumber.truthy e && JsNumber.truthy b
      then ((e - b) / num 1000)%Qc else 0%Qc
  | _, _ => 0%Qc
  end.

(** [x || d] on an optional number. *)
Definition num_or (x : option Qc) (d : Qc) : Qc :=
  match x with
  | Some q => if JsNumber.truthy q then q else d
  | None => d
  end.

(** [entry.topic || null] *)
Definition topic_or_null (x : option string) : option string :=
  match x with
  | Some s => if JsString.truthy s then Some s else None
  | None => None
  end.

(** [x || d] on an optional string. *)
Definition str_or (x : option string) (d : string) : string :=
  match x with
  | Some s => if JsString.truthy s then s else d
  | None => d
  end.

(** [v || d] on a value. *)
Definition val_or (v : jsval) (d : jsval) : jsval :=
  if truthy v then v else d.

(** [text.split(' ').length] *)
Definition split_length (text : jsval) : result nat :=
  s ← as_string text; Ok (length (JsString.split " " s)).

(** [text.includes(c)] *)
Definition text_includes (text : jsval) (c : string) : result bool :=
  s ← as_string text; Ok (JsString.includes s c).

(** [text?.trim()]: [None] is [undefined]. *)
Definition optional_trim (text : jsval) : result (option string) :=
  match text with
  | VUndefined | VNull => Ok None
  | _ => s ← as_string text; Ok (Some (JsString.trim s))
  end.

(** ** Entry Normalizer *)

Abbreviation normalizer_state := (list Utterance.t * gmap string string)%type.

(** Body of the inner loop of [processTranscriptEntries]: one utterance is
    pushed per sentence. *)
Definition normalize_sentence (entry : RawEntry.t)
    (st : normalizer_state) (sentence : RawSentence.t) : result normalizer_state :=
  let '(processedEntries, speakerMap) := st in
  let '(speakerName, speakerMap) :=
    getSpeakerName (RawEntry.speakerId entry) speakerMap in
  let text := RawSentence.text sentence in
  wordCount ← (if truthy text then split_length text else Ok 0%nat);
  sentiment ← analyzeSentence text;
  Ok (processedEntries ++
        [ {| Utterance.speakerId := RawEntry.speakerId entry;
             Utterance.speakerName := speakerName;
             Utterance.sentence := val_or text (VStr "No text available");
             Utterance.startTime := seconds_or_zero (RawSentence.start sentence);
             Utterance.endTime := seconds_or_zero (RawSentence.end_ sentence);
             Utterance.timestamp :=
               formatTimestamp (seconds_or_zero (RawSentence.start sentence));
             Utterance.topic := topic_or_null (RawEntry.topic entry);
             Utterance.duration := sentence_duration sentence;
             Utterance.wordCount := wordCount;
             Utterance.sentiment := sentiment |} ],
      speakerMap).

(** The utterance pushed for an entry without a sentences array. *)
Definition fallback_utterance (entry : RawEntry.t) (speakerName : string)
  : Utterance.t :=
  {| Utterance.speakerId := RawEntry.speakerId entry;
     Utterance.speakerName := speakerName;
     Utterance.sentence :=
       VStr (str_or (RawEntry.sentence entry)
               (str_or (RawEntry.text entry) "No content available"));
     Utterance.startTime := num_or (RawEntry.startTime entry) 0%Qc;
     Utterance.endTime := num_or (RawEntry.endTime entry) 0%Qc;
     Utterance.timestamp := formatTimestamp (num_or (RawEntry.startTime entry) 0%Qc);
     Utterance.topic := topic_or_null (RawEntry.topic entry);
     Utterance.duration := 0%Qc;
     Utterance.wordCount := 0%nat;
     Utterance.sentiment := Neutral |}.

(** Body of the outer loop of [processTranscriptEntries]. *)
Definition normalize_entry (st : normalizer_state) (entry : RawEntry.t)
  : result normalizer_state :=
  match RawEntry.sentences entry with
  | Some sentences => for_of sentences (normalize_sentence entry) st
  | None =>
      let '(processedEntries, speakerMap) := st in
      let '(speakerName, speakerMap) :=
        getSpeakerName (RawEntry.speakerId entry) speakerMap in
      Ok (processedEntries ++ [fallback_utterance entry speakerName], speakerMap)
  end.

Definition processTranscriptEntries (transcriptArray : transcript)
  : result (list Utterance.t) :=
  match transcriptArray with
  | TOther _ => Ok []
  | TArray entries =>
      st ← for_of entries normalize_entry ([], ∅);
      Ok (fst st)
  end.

(** ** Conversation Text Extractor *)

Abbreviation extractor_state := (list string * gmap string string)%type.

(** Body of the inner loop of [extractConversationText]. *)
Definition extract_sentence (speakerName : string)
    (conversation : list string) (sentence : RawSentence.t) : result (list string) :=
  trimmed ← optional_trim (RawSentence.text sentence);
  match trimmed with
  | Some t =>
      if JsString.truthy t
      then Ok (conversation ++ [speakerName +:+ ": " +:+ t])
      else Ok conversation
  | None => Ok conversation
  end.

(** Body of the outer loop of [extractConversationText] in the transcript
    function. *)
Definition extract_entry (st : extractor_state) (entry : RawEntry.t)
  : result extractor_state :=
  let '(conversation, speakerMap) := st in
  match RawEntry.sentences entry with
  | Some sentences =>
      let speakerId := RawEntry.speakerId entry in
      let speakerName := "Speaker" +:+ JsString.of_nat (size speakerMap + 1) in
      let '(speakerName, speakerMap) :=
        match speakerMap !! speakerId with
        | None => (speakerName, <[speakerId := speakerName]> speakerMap)
        | Some name => (name, speakerMap)
        end in
      conversation ← for_of sentences (extract_sentence speakerName) conversation;
      Ok (conversation, speakerMap)
  | None => Ok st
  end.

Definition extractConversationText (transcriptArray : transcript)
  : result string :=
  match transcriptArray with
  | TOther _ => Ok ""
  | TArray entries =>
      st ← for_of entries extract_entry ([], ∅);
      Ok (JsString.join (String "010" EmptyString) (fst st))
  end.

(** The copy of the extractor in the ai-analysis function. *)
Module AiAnalysis.

Definition extract_entry (st : extractor_state) (entry : RawEntry.t)
  : result extractor_state :=
  let '(conversation, speakerMap) := st in
  match RawEntry.sentences entry with
  | Some sentences =>
      let speakerId := RawEntry.speakerId entry in
      let speakerName := "Speaker_" +:+ speakerId in
      let '(speakerName, speakerMap) :=
        match speakerMap !! speakerId with
        | None =>
            let speakerNumber := (size speakerMap + 1)%nat in
            let speakerName := "Speaker" +:+ JsString.of_nat speakerNumber in
            (speakerName, <[speakerId := speakerName]> speakerMap)
        | Some name => (name, speakerMap)
        end in
      conversation ← for_of sentences (extract_sentence speakerName) conversation;
      Ok (conversation, speakerMap)
  | None => Ok st
  end.

Definition extractConversationText (transcriptArray : transcript)
  : result string :=
  match transcriptArray with
  | TOther _ => Ok ""
  | TArray entries =>
      st ← for_of entries extract_entry ([], ∅);
      Ok (JsString.join (String "010" EmptyString) (fst st))
  end.

End AiAnalysis.

(** ** Content Analyzer *)

Definition new_analysis : Analysis.t :=
  {| Analysis.speakerStats := ∅;
     Analysis.totalDuration := 0%Qc;
     Analysis.totalWords := 0%nat;
     Analysis.sentimentDistribution :=
       {| SentimentDistribution.positive := 0;
          SentimentDistribution.neutral := 0;
          SentimentDistribution.negative := 0 |};
     Analysis.topicFlow := [];
     Analysis.interactionMetrics :=
       {| InteractionMetrics.questionCount := 0;
          InteractionMetrics.exclamationCount := 0;
          InteractionMetrics.speakerSwitches := 0 |} |}.

Definition new_stat : SpeakerStat.t :=
  {| SpeakerStat.totalTime := 0%Qc;
     SpeakerStat.wordCount := 0%nat;
     SpeakerStat.sentenceCount := 0%nat;
     SpeakerStat.avgWordsPerSentence := 0%Qc;
     SpeakerStat.talkTimePercentage := None |}.

(** [!analysis.speakerStats[speakerId]]: an own entry is an object, an
    inherited property is a function or [Object.prototype]; both are truthy. *)
Definition stat_missing (speakerId : string) (stats : gmap string SpeakerStat.t)
  : bool :=
  match stats !! speakerId with
  | Some _ => false
  | None => negb (JsObject.inherited speakerId)
  end.

(** The three updates [analysis.speakerStats[speakerId].f += ...] of one
    sentence. On an own entry the entry changes. On an inherited name the
    properties are written on the built-in object found there and the
    dictionary keeps its own properties. On [undefined] the write throws. *)
Definition update_stat (duration : Qc) (words : nat) (speakerId : string)
    (stats : gmap string SpeakerStat.t) : result (gmap string SpeakerStat.t) :=
  match stats !! speakerId with
  | Some st =>
      Ok (<[speakerId :=
              {| SpeakerStat.totalTime := (SpeakerStat.totalTime st + duration)%Qc;
                 SpeakerStat.wordCount := SpeakerStat.wordCount st + words;
                 SpeakerStat.sentenceCount := SpeakerStat.sentenceCount st + 1;
                 SpeakerStat.avgWordsPerSentence := SpeakerStat.avgWordsPerSentence st;
                 SpeakerStat.talkTimePercentage := SpeakerStat.talkTimePercentage st |}]>
            stats)
  | None =>
      if JsObject.inherited speakerId then Ok stats else Throw TypeError
  end.

(** [analysis.sentimentDistribution[sentiment]++] *)
Definition count_sentiment (sentiment : Sentiment) (d : SentimentDistribution.t)
  : SentimentDistribution.t :=
  match sentiment with
  | Positive =>
      {| SentimentDistribution.positive := SentimentDistribution.positive d + 1;
         SentimentDistribution.neutral := SentimentDistribution.neutral d;
         SentimentDistribution.negative := SentimentDistribution.negative d |}
  | Neutral =>
      {| SentimentDistribution.positive := SentimentDistribution.positive d;
         SentimentDistribution.neutral := SentimentDistribution.neutral d + 1;
         SentimentDistribution.negative := SentimentDistribution.negative d |}
  | Negative =>
      {| SentimentDistribution.positive := SentimentDistribution.positive d;
         SentimentDistribution.neutral := SentimentDistribution.neutral d;
         SentimentDistribution.negative := SentimentDistribution.negative d + 1 |}
  end.

(** The topic tracking of one sentence, for a truthy [entry.topic]:
    [find] returns the first record with that topic, which is then
    updated in place; without one a record is pushed. *)
Definition track_topic (topic : string) (sentence : RawSentence.t)
    (duration : Qc) (topicFlow : list TopicRecord.t) : list TopicRecord.t :=
  match list_find (λ t, TopicRecord.topic t = topic) topicFlow with
  | Some (i, existingTopic) =>
      <[i := {| TopicRecord.topic := TopicRecord.topic existingTopic;
                TopicRecord.startTime := TopicRecord.startTime existingTopic;
                TopicRecord.duration :=
                  (TopicRecord.duration existingTopic + duration)%Qc;
                TopicRecord.mentions := TopicRecord.mentions existingTopic + 1 |}]>
        topicFlow
  | None =>
      topicFlow ++
        [ {| TopicRecord.topic := topic;
             TopicRecord.startTime := seconds_or_zero (RawSentence.start sentence);
             TopicRecord.duration := duration;
             TopicRecord.mentions := 1 |} ]
  end.

(** Body of the inner loop of [analyzeTranscriptContent]. *)
Definition analyze_sentence (entry : RawEntry.t)
    (analysis : Analysis.t) (sentence : RawSentence.t) : result Analysis.t :=
  let speakerId := RawEntry.speakerId entry in
  let text := val_or (RawSentence.text sentence) (VStr "") in
  let duration := sentence_duration sentence in
  words ← split_length text;
  speakerStats ← update_stat duration words speakerId (Analysis.speakerStats analysis);
  sentiment ← analyzeSentence text;
  question ← text_includes text "?";
  exclamation ← text_includes text "!";
  let metrics := Analysis.interactionMetrics analysis in
  Ok {| Analysis.speakerStats := speakerStats;
        Analysis.totalDuration := (Analysis.totalDuration analysis + duration)%Qc;
        Analysis.totalWords := Analysis.totalWords analysis + words;
        Analysis.sentimentDistribution :=
          count_sentiment sentiment (Analysis.sentimentDistribution analysis);
        Analysis.topicFlow :=
          match RawEntry.topic entry with
          | Some topic =>
              if JsString.truthy topic
              then track_topic topic sentence duration (Analysis.topicFlow analysis)
              else Analysis.topicFlow analysis
          | None => Analysis.topicFlow analysis
          end;
        Analysis.interactionMetrics :=
          {| InteractionMetrics.questionCount :=
               InteractionMetrics.questionCount metrics + (if (question : bool) then 1 else 0);
             InteractionMetrics.exclamationCount :=
               InteractionMetrics.exclamationCount metrics
               + (if (exclamation : bool) then 1 else 0);
             InteractionMetrics.speakerSwitches :=
               InteractionMetrics.speakerSwitches metrics |} |}.

(** The analyzer's loop state: the analysis and [lastSpeaker], [None]
    being its initial [null]. *)
Abbreviation analyzer_state := (Analysis.t * option string)%type.

(** [lastSpeaker && lastSpeaker !== speakerId] *)
Definition is_switch (lastSpeaker : option string) (speakerId : string) : bool :=
  match lastSpeaker with
  | Some last => JsString.truthy last && negb (String.eqb last speakerId)
  | None => false
  end.

(** Body of the outer loop of [analyzeTranscriptContent]. *)
Definition analyze_entry (st : analyzer_state) (entry : RawEntry.t)
  : result analyzer_state :=
  let '(analysis, lastSpeaker) := st in
  match RawEntry.sentences entry with
  | Some sentences =>
      let speakerId := RawEntry.speakerId entry in
      let metrics := Analysis.interactionMetrics analysis in
      let metrics :=
        {| InteractionMetrics.questionCount := InteractionMetrics.questionCount metrics;
           InteractionMetrics.exclamationCount :=
             InteractionMetrics.exclamationCount metrics;
           InteractionMetrics.speakerSwitches :=
             InteractionMetrics.speakerSwitches metrics
             + (if is_switch lastSpeaker speakerId then 1 else 0) |} in
      let lastSpeaker := Some speakerId in
      let speakerStats :=
        if stat_missing speakerId (Analysis.speakerStats analysis)
        then <[speakerId := new_stat]> (Analysis.speakerStats analysis)
        else Analysis.speakerStats analysis in
      let analysis :=
        {| Analysis.speakerStats := speakerStats;
           Analysis.totalDuration := Analysis.totalDuration analysis;
           Analysis.totalWords := Analysis.totalWords analysis;
           Analysis.sentimentDistribution := Analysis.sentimentDistribution analysis;
           Analysis.topicFlow := Analysis.topicFlow analysis;
           Analysis.interactionMetrics := metrics |} in
      analysis ← for_of sentences (analyze_sentence entry) analysis;
      Ok (analysis, lastSpeaker)
  | None => Ok st
  end.

(** The closing pass over [Object.keys(analysis.speakerStats)]. *)
Definition finish_stat (totalDuration : Qc) (stats : SpeakerStat.t)
  : SpeakerStat.t :=
  {| SpeakerStat.totalTime := SpeakerStat.totalTime stats;
     SpeakerStat.wordCount := SpeakerStat.wordCount stats;
     SpeakerStat.sentenceCount := SpeakerStat.sentenceCount stats;
     SpeakerStat.avgWordsPerSentence :=
       if (0 <? SpeakerStat.sentenceCount stats)%nat
       then (num (Z.of_nat (SpeakerStat.wordCount stats))
             / num (Z.of_nat (SpeakerStat.sentenceCount stats)))%Qc
       else 0%Qc;
     SpeakerStat.talkTimePercentage :=
       Some (if JsNumber.gt totalDuration 0
             then (SpeakerStat.totalTime stats / totalDuration * num 100)%Qc
             else 0%Qc) |}.

Definition analyzeTranscriptContent (transcriptArray : transcript)
  : result analytics :=
  match transcriptArray with
  | TOther _ => Ok EmptyObject
  | TArray entries =>
      st ← for_of entries analyze_entry (new_analysis, None);
      let analysis := fst st in
      Ok (Analytics
            {| Analysis.speakerStats :=
                 finish_stat (Analysis.totalDuration analysis)
                   <$> Analysis.speakerStats analysis;
               Analysis.totalDuration := Analysis.totalDuration analysis;
               Analysis.totalWords := Analysis.totalWords analysis;
               Analysis.sentimentDistribution := Analysis.sentimentDistribution analysis;
               Analysis.topicFlow := Analysis.topicFlow analysis;
               Analysis.interactionMetrics := Analysis.interactionMetrics analysis |})
  end.

(** ** Daily summary

    Shallow embedding of the analysis helpers of
    [functions/daily-summary/index.js]. [Math.random] is an oracle: the
    sequence [random] of the numbers it returns, read from a position that
    is threaded through. A dictionary object is the list of its own
    properties in insertion order, which is the order of [Object.entries]
    for the keys used here, the topic and competitor labels.
    [Array.prototype.sort] is stable. *)

(** A [Set]: its elements in insertion order. *)
Module JsSet.

Definition add {A} `{EqDecision A} (x : A) (s : list A) : list A :=
  if decide (x ∈ s) then s else s ++ [x].

(** [new Set(array)] *)
Definition of_array {A} `{EqDecision A} (l : list A) : list A :=
  foldl (λ s x, add x s) [] l.

End JsSet.

Module JsArray.

(** [Array.prototype.slice(0, n)] *)
Definition slice_to {A} (n : nat) (l : list A) : list A := take n l.

(** Insertion of an entry into a list sorted by decreasing count, after
    the entries with a greater or equal count. *)
Fixpoint insert_by_count {A} (x : A * nat) (sorted : list (A * nat))
  : list (A * nat) :=
  match sorted with
  | [] => [x]
  | y :: rest =>
      if (y.2 <? x.2)%nat then x :: y :: rest
      else y :: insert_by_count x rest
  end.

(** [entries.sort(([, a], [, b]) => b - a)]: by decreasing count, entries
    with equal counts keeping their order. *)
Definition sort_by_count {A} (entries : list (A * nat)) : list (A * nat) :=
  foldl (λ sorted x, insert_by_count x sorted) [] entries.

End JsArray.

Module DailySummary.

(** The topic labels that [extractTopicsFromTitle] produces. *)
Inductive Topic : Type :=
  | ProductDemo
  | PricingDiscussion
  | DiscoveryCall
  | FollowUp
  | Onboarding
  | GeneralDiscussion.

Definition topic_label (topic : Topic) : string :=
  match topic with
  | ProductDemo => "product demo"
  | PricingDiscussion => "pricing discussion"
  | DiscoveryCall => "discovery call"
  | FollowUp => "follow-up"
  | Onboarding => "onboarding"
  | GeneralDiscussion => "general discussion"
  end.

Global Instance Topic_eq_dec : EqDecision Topic.
Proof. solve_decision. Defined.

(** A participant of a call: [{ emailAddress?, name? }]. *)
Module Participant.
Record t : Type := mk {
  emailAddress : option string;
  name : option string
}.
End Participant.

(** A call record of the vendor: [{ id, title, duration?, participants? }].
    [participants] is [None] when the field is absent. *)
Module Call.
Record t : Type := mk {
  id : string;
  title : jsval;
  duration : option Qc;
  participants : option (list Participant.t)
}.
End Call.

(** What [analyzeCallBasic] returns for a call. *)
Module Insight.
Record t : Type := mk {
  callId : string;
  title : jsval;
  duration : option Qc;
  participants : nat;
  sentiment : Sentiment;
  topics : list Topic;
  hasActionItems : bool;
  competitorMentioned : bool
}.
End Insight.

(** [p.emailAddress || p.name]: [None] is [undefined]. *)
Definition participant_key (p : Participant.t) : option string :=
  match Participant.emailAddress p with
  | Some email => if JsString.truthy email then Some email else Participant.name p
  | None => Participant.name p
  end.

Definition extractUniqueParticipants (calls : list Call.t) : list (option string) :=
  foldl (λ participants call,
           match Call.participants call with
           | Some ps => foldl (λ participants p, JsSet.add (participant_key p) participants)
                          participants ps
           | None => participants
           end)
        [] calls.

(** [counts[key] = (counts[key] || 0) + 1] *)
Definition count_key {A} `{EqDecision A} (counts : list (A * nat)) (key : A)
  : list (A * nat) :=
  match list_find (λ kv, kv.1 = key) counts with
  | Some (i, kv) => <[i := (key, (kv.2 + 1)%nat)]> counts
  | None => counts ++ [(key, 1%nat)]
  end.

Definition extractTopics (insights : list (option Insight.t))
  : list (Topic * nat) :=
  let topics :=
    foldl (λ topics insight,
             match insight with
             | Some i => topics ++ Insight.topics i
             | None => topics
             end)
          [] insights in
  let topicCounts := foldl count_key [] topics in
  JsArray.slice_to 10 (JsArray.sort_by_count topicCounts).

(** The five keyword tests of [extractTopicsFromTitle], in source order. *)
Definition extractTopicsFromTitle (title : jsval) : result (list Topic) :=
  t ← as_string title;
  let lower := JsString.toLowerCase t in
  let topics := [] in
  let topics := if JsString.includes lower "demo" then topics ++ [ProductDemo] else topics in
  let topics :=
    if JsString.includes lower "pricing" then topics ++ [PricingDiscussion] else topics in
  let topics :=
    if JsString.includes lower "discovery" then topics ++ [DiscoveryCall] else topics in
  let topics := if JsString.includes lower "follow" then topics ++ [FollowUp] else topics in
  let topics := if JsString.includes lower "onboard" then topics ++ [Onboarding] else topics in
  Ok (if (0 <? length topics)%nat then topics else [GeneralDiscussion]).

(** [sentimentScores[insight.sentiment] || 0] *)
Definition sentimentScores (sentiment : Sentiment) : Qc :=
  match sentiment with
  | Positive => 1%Qc
  | Neutral => 0%Qc
  | Negative => (-1)%Qc
  end.

(** The decimal literal [0.3]. The quotient of two integers below [2^50]
    exceeds the binary64 number nearest to 0.3 exactly when it exceeds
    3/10. *)
Definition threshold : Qc := (num 3 / num 10)%Qc.

(** An insight of [analyzeCallBasic] has a sentiment label, which is
    truthy: the valid insights are those that are not [null]. *)
Definition calculateAverageSentiment (insights : list (option Insight.t))
  : Sentiment :=
  let validInsights := omap id insights in
  if (length validInsights =? 0)%nat then Neutral
  else
    let sum :=
      foldl (λ sum insight, (sum + sentimentScores (Insight.sentiment insight))%Qc)
            0%Qc validInsights in
    let average := (sum / num (Z.of_nat (length validInsights)))%Qc in
    if JsNumber.gt average threshold then Positive
    else if JsNumber.gt (- threshold) average then Negative
    else Neutral.

Definition possibleActions : list string :=
  [ "Send follow-up email"; "Schedule technical demo";
    "Provide pricing proposal"; "Share case studies" ].

Definition extractActionItems (insights : list (option Insight.t)) : list string :=
  let actionItems :=
    foldl (λ actionItems insight,
             match insight with
             | Some i =>
                 if Insight.hasActionItems i
                 then actionItems ++ JsArray.slice_to 2 possibleActions
                 else actionItems
             | None => actionItems
             end)
          [] insights in
  JsSet.of_array actionItems.

(** The binary64 numbers that the literals [0.7], [0.4], [0.6] and [0.8]
    denote. *)
Definition literal_0_7 : Qc := Q2Qc (3152519739159347 # 4503599627370496).
Definition literal_0_4 : Qc := Q2Qc (3602879701896397 # 9007199254740992).
Definition literal_0_6 : Qc := Q2Qc (5404319552844595 # 9007199254740992).
Definition literal_0_8 : Qc := Q2Qc (3602879701896397 # 4503599627370496).

(** [analyzeCallBasic]: [next] is the position of the next random number.
    A title that is not a string makes [extractTopicsFromTitle] throw
    after the sentiment has been drawn; the [catch] returns [null]. *)
Definition analyzeCallBasic (random : nat → Qc) (call : Call.t) (next : nat)
  : option Insight.t * nat :=
  let participants :=
    match Call.participants call with
    | Some ps => length ps
    | None => 0%nat
    end in
  let '(sentiment, next) :=
    if JsNumber.gt (random next) literal_0_7 then (Positive, S next)
    else if JsNumber.gt (random (S next)) literal_0_4 then (Neutral, S (S next))
    else (Negative, S (S next)) in
  match extractTopicsFromTitle (Call.title call) with
  | Ok topics =>
      let hasActionItems := JsNumber.gt (random next) literal_0_6 in
      let competitorMentioned := JsNumber.gt (random (S next)) literal_0_8 in
      (Some {| Insight.callId := Call.id call;
               Insight.title := Call.title call;
               Insight.duration := Call.duration call;
               Insight.participants := participants;
               Insight.sentiment := sentiment;
               Insight.topics := topics;
               Insight.hasActionItems := hasActionItems;
               Insight.competitorMentioned := competitorMentioned |},
       S (S next))
  | Throw _ => (None, next)
  end.

Definition possibleCompetitors : list string :=
  [ "Salesforce"; "HubSpot"; "Zoom"; "Teams" ].

(** [possibleCompetitors[Math.floor(Math.random() * 4)]], as the property
    name it becomes in [competitorCounts]. *)
Definition pick_competitor (r : Qc) : string :=
  let index := JsNumber.floor (r * num 4) in
  if (index <? 0)%Z then "undefined"
  else default "undefined" (possibleCompetitors !! Z.to_nat index).

Definition extractCompetitorMentions (random : nat → Qc)
    (insights : list (option Insight.t)) (next : nat)
  : list (string * nat) * nat :=
  let '(competitors, next) :=
    foldl (λ '(competitors, next) insight,
             match insight with
             | Some i =>
                 if Insight.competitorMentioned i
                 then (competitors ++ [pick_competitor (random next)], S next)
                 else (competitors, next)
             | None => (competitors, next)
             end)
          ([], next) insights in
  let competitorCounts := foldl count_key [] competitors in
  (JsArray.sort_by_count competitorCounts, next).

(** The summary of a day with calls. *)
Module Summary.
Record t : Type := mk {
  date : string;
  callCount : nat;
  totalDuration : Qc;
  participants : list (option string);
  topicsDiscussed : list (Topic * nat);
  sentiment : Sentiment;
  actionItems : list string;
  competitorMentions : list (string * nat);
  insights : list Insight.t
}.
End Summary.

(** What [generateDailySummary] returns: the summary of a day without
    calls, [{ date, callCount: 0, summary, insights: [] }], or a full one. *)
Inductive daily_summary : Type :=
  | NoCalls (date : string)
  | Calls (summary : Summary.t).

(** [dateRange.start.split('T')[0]] *)
Definition date_of (start : string) : string :=
  default "" (head (JsString.split "T" start)).

(** [calls.slice(0, 10).map(call => analyzeCallBasic(gongConfig, call))]:
    the calls are analysed in order. *)
Definition analyze_calls (random : nat → Qc) (calls : list Call.t) (next : nat)
  : list (option Insight.t) * nat :=
  foldl (λ '(insights, next) call,
           let '(insight, next) := analyzeCallBasic random call next in
           (insights ++ [insight], next))
        ([], next) (JsArray.slice_to 10 calls).

(** [generateDailySummary], after the request for the calls of the day:
    [records] is [callsResponse.data.records], [None] when it is absent. *)
Definition generateDailySummary (random : nat → Qc)
    (records : option (list Call.t)) (start : string) (next : nat)
  : daily_summary * nat :=
  let calls := default [] records in
  if (length calls =? 0)%nat then (NoCalls (date_of start), next)
  else
    let '(insights, next) := analyze_calls random calls next in
    let '(competitorMentions, next) :=
      extractCompetitorMentions random insights next in
    (Calls
       {| Summary.date := date_of start;
          Summary.callCount := length calls;
          Summary.totalDuration :=
            foldl (λ sum call, (sum + num_or (Call.duration call) 0)%Qc) 0%Qc calls;
          Summary.participants := extractUniqueParticipants calls;
          Summary.topicsDiscussed := extractTopics insights;
          Summary.sentiment := calculateAverageSentiment insights;
          Summary.actionItems := extractActionItems insights;
          Summary.competitorMentions := competitorMentions;
          Summary.insights := omap id insights |},
     next).

End DailySummary.
(** ** Secrets and requests

    Shallow embedding of [getSecrets] and of the HTTP handler
    [transcriptHandler] of [functions/transcript/index.js]. The Secret
    Manager and the vendor API are oracles, [Date.now()] is an input, and
    a handler returns its response together with the module state it
    leaves and the calls it made to the outside. The time stamps of the
    response bodies are left out. *)

(** What a [catch] receives: an exception of the code itself, an [Error]
    of a client library, or an HTTP error of axios, which has a
    [response] with a status and possibly a message. *)
Inductive failure : Type :=
  | Thrown (e : js_error)
  | Rejected (message : string)
  | HttpError (status : nat) (message : option string).

Inductive attempt (A : Type) : Type :=
  | Done (a : A)
  | Failed (f : failure).
Arguments Done {A} a.
Arguments Failed {A} f.

Global Instance attempt_bind : MBind attempt := λ A B k r,
  match r with
  | Done a => k a
  | Failed f => Failed f
  end.

(** A result of the pipeline inside a [try]. *)
Definition attempted {A} (r : result A) : attempt A :=
  match r with
  | Ok a => Done a
  | Throw e => Failed (Thrown e)
  end.

(** [array.map(f)] with a callback that may throw. *)
Fixpoint map_result {A B} (f : A → result B) (l : list A) : result (list B) :=
  match l with
  | [] => Ok []
  | x :: rest => y ← f x; ys ← map_result f rest; Ok (y :: ys)
  end.

Module Secrets.
Record t : Type := mk {
  accessKey : string;
  secretKey : string;
  baseUrl : string
}.
End Secrets.

(** The module variables [secretsCache] and [lastSecretRefresh];
    [secretsCache] is [None] while it is the empty object. *)
Module SecretCache.
Record t : Type := mk {
  secretsCache : option Secrets.t;
  lastSecretRefresh : Z
}.
Definition initial : t := {| secretsCache := None; lastSecretRefresh := 0 |}.
End SecretCache.

(** A call to the outside: the latest version of a secret is read, or a
    transcript request is posted to the vendor. *)
Inductive effect : Type :=
  | ReadSecret (name : string)
  | PostTranscripts (secrets : Secrets.t) (callIds : list jsval).

Definition CACHE_DURATION : Z := 60 * 60 * 1000.

(** [getSecrets] at the time [now]; [store] is the Secret Manager. *)
Definition getSecrets (store : string → attempt string) (now : Z)
    (cache : SecretCache.t) : attempt Secrets.t * SecretCache.t * list effect :=
  let refresh :=
    match store "gong-access-key" with
    | Failed f => (Failed f, cache, [ReadSecret "gong-access-key"])
    | Done accessKey =>
        match store "gong-secret-key" with
        | Failed f =>
            (Failed f, cache,
             [ReadSecret "gong-access-key"; ReadSecret "gong-secret-key"])
        | Done secretKey =>
            match store "gong-api-base-url" with
            | Failed f =>
                (Failed f, cache,
                 [ReadSecret "gong-access-key"; ReadSecret "gong-secret-key";
                  ReadSecret "gong-api-base-url"])
            | Done baseUrl =>
                let secrets :=
                  {| Secrets.accessKey := accessKey;
                     Secrets.secretKey := secretKey;
                     Secrets.baseUrl := baseUrl |} in
                (Done secrets,
                 {| SecretCache.secretsCache := Some secrets;
                    SecretCache.lastSecretRefresh := now |},
                 [ReadSecret "gong-access-key"; ReadSecret "gong-secret-key";
                  ReadSecret "gong-api-base-url"])
            end
        end
    end in
  if (now - SecretCache.lastSecretRefresh cache <? CACHE_DURATION)%Z
  then match SecretCache.secretsCache cache with
       | Some secrets => (Done secrets, cache, [])
       | None => refresh
       end
  else refresh.

(** [req.body.callIds]: an array, or any other value. *)
Inductive call_ids : Type :=
  | IdsArray (ids : list jsval)
  | IdsOther (v : jsval).

Module TranscriptBody.
Record t : Type := mk {
  callIds : call_ids;
  callId : jsval
}.
End TranscriptBody.

(** A request: [body] is [None] when [req.body] is [undefined]. *)
Module Request.
Record t (B : Type) : Type := mk {
  method : string;
  body : option B
}.
Arguments mk {B} method body.
Arguments method {B} t.
Arguments body {B} t.
End Request.

(** One element of [data.callTranscripts]. *)
Module CallTranscript.
Record t : Type := mk {
  callId : jsval;
  transcript : transcript
}.
End CallTranscript.

Module EnhancedTranscript.
Record t : Type := mk {
  callId : jsval;
  transcript : list Utterance.t;
  analytics : analytics;
  conversationText : string
}.
End EnhancedTranscript.

Module TranscriptHandler.

Inductive response_body : Type :=
  | NoBody
  | MethodNotAllowed
  | CallIdsRequired
  | Enhanced (callTranscripts : list EnhancedTranscript.t)
             (totalTranscripts : nat) (requestedCallIds : list jsval)
  | ErrorReport (error : string) (details : failure).

Record response : Type := mk_response {
  status : nat;
  body : response_body
}.

(** The normalisation of the request body to an array of call ids. *)
Definition targetCallIds (body : TranscriptBody.t) : list jsval :=
  match TranscriptBody.callIds body with
  | IdsArray ids => ids
  | IdsOther v =>
      if truthy (TranscriptBody.callId body) then [TranscriptBody.callId body]
      else match v with
           | VStr s => if JsString.truthy s then [VStr s] else []
           | _ => []
           end
  end.

(** [transcript.transcript] is truthy. *)
Definition transcript_truthy (t : transcript) : bool :=
  match t with
  | TArray _ => true
  | TOther v => truthy v
  end.

(** The callback of [data.callTranscripts.map]. *)
Definition enhance (t : CallTranscript.t) : result EnhancedTranscript.t :=
  processed ←
    (if transcript_truthy (CallTranscript.transcript t)
     then processTranscriptEntries (CallTranscript.transcript t)
     else Ok []);
  analytics ← analyzeTranscriptContent (CallTranscript.transcript t);
  conversationText ← extractConversationText (CallTranscript.transcript t);
  Ok {| EnhancedTranscript.callId := CallTranscript.callId t;
        EnhancedTranscript.transcript := processed;
        EnhancedTranscript.analytics := analytics;
        EnhancedTranscript.conversationText := conversationText |}.

(** The [catch] of the handler. *)
Definition error_response (f : failure) : response :=
  match f with
  | HttpError status message =>
      {| status := status;
         body := ErrorReport (str_or message "Gong transcript request failed") f |}
  | _ => {| status := 500; body := ErrorReport "Internal server error" f |}
  end.

(** [transcriptHandler]: [gong] is the vendor's answer to the transcript
    request, [data.callTranscripts] or an error. *)
Definition transcriptHandler (store : string → attempt string)
    (gong : Secrets.t → list jsval → attempt (option (list CallTranscript.t)))
    (now : Z) (req : Request.t TranscriptBody.t) (cache : SecretCache.t)
  : response * SecretCache.t * list effect :=
  if String.eqb (Request.method req) "OPTIONS"
  then ({| status := 200; body := NoBody |}, cache, [])
  else if negb (String.eqb (Request.method req) "POST")
  then ({| status := 405; body := MethodNotAllowed |}, cache, [])
  else
    let '(secrets, cache, reads) := getSecrets store now cache in
    match secrets with
    | Failed f => (error_response f, cache, reads)
    | Done secrets =>
        match Request.body req with
        | None => (error_response (Thrown TypeError), cache, reads)
        | Some body =>
            let ids := targetCallIds body in
            if (length ids =? 0)%nat
            then ({| status := 400; body := CallIdsRequired |}, cache, reads)
            else
              let effects := reads ++ [PostTranscripts secrets ids] in
              match gong secrets ids with
              | Failed f => (error_response f, cache, effects)
              | Done callTranscripts =>
                  match map_result enhance (default [] callTranscripts) with
                  | Throw e => (error_response (Thrown e), cache, effects)
                  | Ok enhanced =>
                      ({| status := 200;
                          body := Enhanced enhanced
                                    (length (default [] callTranscripts)) ids |},
                       cache, effects)
                  end
              end
        end
    end.

End TranscriptHandler.
(** ** AI analysis handlers

    Shallow embedding of [aiAnalysisHandler] and [batchAnalysis] of
    [functions/ai-analysis/index.js]. The outcome of [getSecrets], the
    vendor and the three analysis functions, which call OpenAI, are
    oracles; [storeAnalysis] catches its own errors and [sleep] only
    waits, so neither shows in a response. A handler returns its response
    together with the analyses it asked for, in order. The batch size of a
    request is an integer. *)

(** [Array.prototype.slice(start, end)] with integer arguments: a negative
    argument counts from the end of the array. *)
Definition array_slice {A} (start end_ : Z) (l : list A) : list A :=
  let len := Z.of_nat (length l) in
  let from := if (start <? 0)%Z then Z.max (len + start) 0 else Z.min start len in
  let to := if (end_ <? 0)%Z then Z.max (len + end_) 0 else Z.min end_ len in
  take (Z.to_nat (to - from)) (drop (Z.to_nat from) l).

Module AiHandlers.

Module Body.
Record t : Type := mk {
  callIds : call_ids;
  callId : jsval;
  analysisType : option string
}.
End Body.

Module BatchBody.
Record t : Type := mk {
  callIds : call_ids;
  batchSize : option Z
}.
End BatchBody.

(** A request for an analysis: the function called and its arguments. *)
Inductive ai_call : Type :=
  | CallSummary (conversationText : string) (callId : jsval)
  | SentimentAnalysis (conversationText : string)
  | FullAnalysis (conversationText : string).

(** One element of [results]; [R] is the type of an analysis. *)
Inductive entry (R : Type) : Type :=
  | Analysed (callId : jsval) (analysis : R) (analysisType : string)
  | Insufficient (callId : jsval)
  | AnalysisFailed (callId : jsval) (error : string) (details : failure).
Arguments Analysed {R} callId analysis analysisType.
Arguments Insufficient {R} callId.
Arguments AnalysisFailed {R} callId error details.

(** [r.error] is truthy. *)
Definition has_error {R} (r : entry R) : bool :=
  match r with
  | Analysed _ _ _ => false
  | Insufficient _ | AnalysisFailed _ _ _ => true
  end.

Inductive response_body (R : Type) : Type :=
  | NoBody
  | MethodNotAllowed
  | CallIdsRequired
  | CallIdsArrayRequired
  | NoTranscripts
  | Results (results : list (entry R)) (totalRequested successful failed : nat)
            (analysisType : string)
  | BatchResults (results : list (entry R))
                 (totalCalls totalBatches successful failed : nat)
  | ErrorReport (details : failure).
Arguments NoBody {R}.
Arguments MethodNotAllowed {R}.
Arguments CallIdsRequired {R}.
Arguments CallIdsArrayRequired {R}.
Arguments NoTranscripts {R}.
Arguments Results {R} results totalRequested successful failed analysisType.
Arguments BatchResults {R} results totalCalls totalBatches successful failed.
Arguments ErrorReport {R} details.

Record response (R : Type) : Type := mk_response {
  status : nat;
  body : response_body R
}.
Arguments mk_response {R} status body.
Arguments status {R} r.
Arguments body {R} r.

Section Handlers.

Context {R : Type}.

(** The analysis functions: [generateCallSummary], [analyzeSentiment] and
    [analyzeWithOpenAI]. *)
Variable ai : ai_call → attempt R.

(** [getGongTranscripts]: [response.data.callTranscripts], or an error. *)
Variable gong : list jsval → attempt (option (list CallTranscript.t)).

Definition targetCallIds (body : Body.t) : list jsval :=
  match Body.callIds body with
  | IdsArray ids => ids
  | IdsOther _ => if truthy (Body.callId body) then [Body.callId body] else []
  end.




(** The loop that cuts [callIds] into batches, [i] being its counter.
    [fuel] bounds the number of tests of the loop condition; [None] means
    that the bound was reached. *)
Fixpoint make_batches {A} (fuel : nat) (callIds : list A) (batchSize : Z)
    (i : Z) (batches : list (list A)) : option (list (list A)) :=
  match fuel with
  | O => None
  | S fuel =>
      if (i <? Z.of_nat (length callIds))%Z
      then make_batches fuel callIds batchSize (i + batchSize)
             (batches ++ [array_slice i (i + batchSize) callIds])
      else Some batches
  end.

(** The callback of [transcripts.map] in [processBatch]. *)
Definition summarise_transcript (transcript : CallTranscript.t)
  : result (entry R) * list ai_call :=
  match AiAnalysis.extractConversationText (CallTranscript.transcript transcript) with
  | Throw e => (Throw e, [])
  | Ok conversationText =>
      if (String.length conversationText <? 100)%nat
      then (Ok (Insufficient (CallTranscript.callId transcript)), [])
      else
        let call := CallSummary conversationText (CallTranscript.callId transcript) in
        match ai call with
        | Done analysis =>
            (Ok (Analysed (CallTranscript.callId transcript) analysis "batch_summary"),
             [call])
        | Failed f =>
            (Ok (AnalysisFailed (CallTranscript.callId transcript) "Analysis failed" f),
             [call])
        end
  end.

(** [processBatch]: every callback runs, and [Promise.all] rejects when
    one of them has thrown. *)
Definition processBatch (callIds : list jsval)
  : attempt (list (entry R)) * list ai_call :=
  match gong callIds with
  | Failed f => (Failed f, [])
  | Done callTranscripts =>
      let outcomes := summarise_transcript <$> default [] callTranscripts in
      (attempted (map_result id (fst <$> outcomes)), mjoin (snd <$> outcomes))
  end.

(** Body of the loop over the batches in [batchAnalysis]. *)
Definition run_batch (st : list (entry R) * list ai_call) (batch : list jsval)
  : list (entry R) * list ai_call :=
  let '(allResults, calls) := st in
  let '(batchResults, batchCalls) := processBatch batch in
  (allResults ++
     match batchResults with
     | Done results => results
     | Failed f =>
         (λ callId, AnalysisFailed callId "Batch processing failed" f) <$> batch
     end,
   calls ++ batchCalls).

(** [batchAnalysis]; [None] means that the batching loop has not come to
    an end within [fuel] tests of its condition. *)
Definition batchAnalysis (fuel : nat) (secrets : attempt unit)
    (req : Request.t BatchBody.t) : option (response R * list ai_call) :=
  if String.eqb (Request.method req) "OPTIONS"
  then Some (mk_response 200 NoBody, [])
  else
    match Request.body req with
    | None => Some (mk_response 500 (ErrorReport (Thrown TypeError)), [])
    | Some body =>
        match BatchBody.callIds body with
        | IdsOther _ => Some (mk_response 400 CallIdsArrayRequired, [])
        | IdsArray callIds =>
            match secrets with
            | Failed f => Some (mk_response 500 (ErrorReport f), [])
            | Done _ =>
                batches ←
                  make_batches fuel callIds (default 5%Z (BatchBody.batchSize body))
                    0 [];
                let '(allResults, calls) := foldl run_batch ([], []) batches in
                Some (mk_response 200
                        (BatchResults allResults (length callIds) (length batches)
                           (length (List.filter (λ r, negb (has_error r)) allResults))
                           (length (List.filter has_error allResults))),
                      calls)
            end
        end
    end.

End Handlers.

End AiHandlers.

(** ** Specification vocabulary *)

(** [w] occurs in [s] as a substring. *)
Definition occurs (w s : string) : Prop :=
  ∃ pre post, s = pre +:+ w +:+ post.

(** [counts P l n]: exactly [n] elements of [l] satisfy [P]. *)
Inductive counts {A : Type} (P : A → Prop) : list A → nat → Prop :=
  | counts_nil : counts P [] 0
  | counts_hit x l n : P x → counts P l n → counts P (x :: l) (S n)
  | counts_miss x l n : ¬ P x → counts P l n → counts P (x :: l) n.

(** The step of a speaker resolver whose labels are [prefix] followed by
    a number: what [getSpeakerName] does with ["Speaker "], and what the
    extractor does inline with ["Speaker"]. *)
Definition assign_label (prefix : string) (speakerId : string)
    (speakerMap : gmap string string) : string * gmap string string :=
  match speakerMap !! speakerId with
  | None =>
      let name := prefix +:+ JsString.of_nat (size speakerMap + 1) in
      (name, <[speakerId := name]> speakerMap)
  | Some name => (name, speakerMap)
  end.

(** A sequence of lookups against one resolver instance: the labels it
    returns, in order, and the map it ends with. *)
Fixpoint resolve_all (speakerIds : list string) (speakerMap : gmap string string)
  : list string * gmap string string :=
  match speakerIds with
  | [] => ([], speakerMap)
  | speakerId :: rest =>
      let '(name, speakerMap) := getSpeakerName speakerId speakerMap in
      let '(names, speakerMap) := resolve_all rest speakerMap in
      (name :: names, speakerMap)
  end.

(** The number of distinct strings in a list. *)
Definition distinct_count (l : list string) : nat :=
  size (list_to_set (C := gset string) l).

(** The rank of [id] by first appearance in [ids], counted from 1: the
    number of distinct ids up to and including its first occurrence. *)
Definition first_seen_number (ids : list string) (id : string) : nat :=
  match list_find (λ x, x = id) ids with
  | Some (i, _) => distinct_count (take (S i) ids)
  | None => 0
  end.

(** [speakerMap] holds exactly the ids of [ids], each under the label of
    its first-seen rank. *)
Definition labelled (prefix : string) (ids : list string)
    (speakerMap : gmap string string) : Prop :=
  ∀ id, speakerMap !! id =
        if decide (id ∈ ids)
        then Some (prefix +:+ JsString.of_nat (first_seen_number ids id))
        else None.

(** A sentence text the pipeline digests: absent, [null] or a string. *)
Definition text_ok (v : jsval) : bool :=
  match v with
  | VUndefined | VNull | VStr _ => true
  | VBool _ | VNum _ | VObject => false
  end.

(** The sentences the loops of the pipeline visit for an entry. *)
Definition sentences_of (entry : RawEntry.t) : list RawSentence.t :=
  default [] (RawEntry.sentences entry).

Definition entry_ok (entry : RawEntry.t) : bool :=
  forallb (λ sentence, text_ok (RawSentence.text sentence)) (sentences_of entry).

(** Every sentence text of the transcript is absent, [null] or a string. *)
Definition transcript_ok (transcriptArray : transcript) : bool :=
  match transcriptArray with
  | TArray entries => forallb entry_ok entries
  | TOther _ => true
  end.

(** The number of tokens of a non-empty text split on single spaces, and
    0 for an absent or empty text. *)
Definition expected_wordCount (text : jsval) : nat :=
  match text with
  | VStr (String c s) => length (JsString.split " " (String c s))
  | _ => 0
  end.

(** The classifier's verdict on a text. *)
Definition expected_sentiment (text : jsval) : Sentiment :=
  match analyzeSentence text with
  | Ok sentiment => sentiment
  | Throw _ => Neutral
  end.

(** The utterance of one sentence, spoken under [speakerName]. *)
Definition sentence_utterance (entry : RawEntry.t) (speakerName : string)
    (sentence : RawSentence.t) : Utterance.t :=
  {| Utterance.speakerId := RawEntry.speakerId entry;
     Utterance.speakerName := speakerName;
     Utterance.sentence :=
       match RawSentence.text sentence with
       | VStr (String c s) => VStr (String c s)
       | _ => VStr "No text available"
       end;
     Utterance.startTime := seconds_or_zero (RawSentence.start sentence);
     Utterance.endTime := seconds_or_zero (RawSentence.end_ sentence);
     Utterance.timestamp :=
       formatTimestamp (seconds_or_zero (RawSentence.start sentence));
     Utterance.topic := topic_or_null (RawEntry.topic entry);
     Utterance.duration := sentence_duration sentence;
     Utterance.wordCount := expected_wordCount (RawSentence.text sentence);
     Utterance.sentiment := expected_sentiment (RawSentence.text sentence) |}.

(** The utterances of one entry: one per sentence, in array order, when it
    has a sentences array, and the fallback utterance otherwise. *)
Definition entry_utterances (speakerName : string) (entry : RawEntry.t)
  : list Utterance.t :=
  match RawEntry.sentences entry with
  | Some sentences => sentence_utterance entry speakerName <$> sentences
  | None => [fallback_utterance entry speakerName]
  end.

(** The speaker ids of the utterances of a transcript, in output order. *)
Definition emitted_speakers (entries : list RawEntry.t) : list string :=
  entries ≫= λ entry,
    replicate (length (entry_utterances "" entry)) (RawEntry.speakerId entry).

(** The label of a speaker: "Speaker N", N its first-seen rank among the
    speakers of the utterances. *)
Definition speaker_label (entries : list RawEntry.t) (speakerId : string) : string :=
  "Speaker " +:+ JsString.of_nat (first_seen_number (emitted_speakers entries) speakerId).

(** The normalized transcript. *)
Definition normalized (entries : list RawEntry.t) : list Utterance.t :=
  entries ≫= λ entry,
    entry_utterances (speaker_label entries (RawEntry.speakerId entry)) entry.



(** A sentence with a text and both times, in milliseconds. *)
Definition timed_sentence (text : string) (start end_ : Z) : RawSentence.t :=
  {| RawSentence.text := VStr text;
     RawSentence.start := Some (num start);
     RawSentence.end_ := Some (num end_) |}.

(** A sentence without times. *)
Definition bare_sentence (text : jsval) : RawSentence.t :=
  {| RawSentence.text := text; RawSentence.start := None; RawSentence.end_ := None |}.

(** An entry [{ speakerId, topic?, sentences }]. *)
Definition spoken_entry (speakerId : string) (topic : option string)
    (sentences : list RawSentence.t) : RawEntry.t :=
  {| RawEntry.speakerId := speakerId;
     RawEntry.topic := topic;
     RawEntry.sentences := Some sentences;
     RawEntry.sentence := None;
     RawEntry.text := None;
     RawEntry.startTime := None;
     RawEntry.endTime := None |}.

(** An entry of the legacy shape [{ speakerId, sentence, text }]. *)
Definition legacy_entry (speakerId : string) (sentence text : option string)
  : RawEntry.t :=
  {| RawEntry.speakerId := speakerId;
     RawEntry.topic := None;
     RawEntry.sentences := None;
     RawEntry.sentence := sentence;
     RawEntry.text := text;
     RawEntry.startTime := None;
     RawEntry.endTime := None |}.

(** The speakers the extractor registers: one per entry with a sentences
    array, in input order. *)
Definition extractor_speakers (entries : list RawEntry.t) : list string :=
  RawEntry.speakerId <$> filter (λ entry, is_Some (RawEntry.sentences entry)) entries.

(** The extractor's label of a speaker: "SpeakerN", N its first-seen rank
    among the speakers of entries with a sentences array. *)
Definition extractor_label (entries : list RawEntry.t) (speakerId : string) : string :=
  "Speaker" +:+ JsString.of_nat (first_seen_number (extractor_speakers entries) speakerId).

(** The line of a sentence: none when its trimmed text is empty or absent. *)
Definition sentence_line (speakerName : string) (sentence : RawSentence.t)
  : list string :=
  match RawSentence.text sentence with
  | VStr text =>
      if JsString.truthy (JsString.trim text)
      then [speakerName +:+ ": " +:+ JsString.trim text]
      else []
  | _ => []
  end.

(** The lines of the conversation text, in scan order. *)
Definition conversation_lines (entries : list RawEntry.t) : list string :=
  entries ≫= λ entry,
    sentences_of entry
      ≫= sentence_line (extractor_label entries (RawEntry.speakerId entry)).

(** The string that [sentence.text || ''] denotes for an absent, [null]
    or string text. *)
Definition text_string (text : jsval) : string :=
  match text with
  | VStr s => s
  | _ => ""
  end.

(** [analysis.speakerStats[speakerId]] is an object: an own entry or an
    inherited property. *)
Definition stat_present (speakerId : string) (stats : gmap string SpeakerStat.t)
  : Prop :=
  is_Some (stats !! speakerId) ∨ JsObject.inherited speakerId = true.

(** The sentences scanned under a truthy topic, each with its topic, in
    scan order. *)
Definition topic_rows (entries : list RawEntry.t) : list (string * RawSentence.t) :=
  entries ≫= λ entry,
    match RawEntry.topic entry with
    | Some topic =>
        if JsString.truthy topic
        then (λ sentence, (topic, sentence)) <$> sentences_of entry
        else []
    | None => []
    end.

(** The distinct elements of a list, ordered by first occurrence. *)
Fixpoint first_occurrences (l : list string) : list string :=
  match l with
  | [] => []
  | x :: l => x :: filter (λ y, y ≠ x) (first_occurrences l)
  end.

(** The sentences scanned under [topic], in scan order. *)
Definition sentences_under (topic : string) (rows : list (string * RawSentence.t))
  : list RawSentence.t :=
  (filter (λ row, row.1 = topic) rows).*2.

Definition total_duration (sentences : list RawSentence.t) : Qc :=
  foldr (λ sentence acc, (sentence_duration sentence + acc)%Qc) 0%Qc sentences.

(** The record of a topic: the start of its first sentence, the summed
    durations and the number of its sentences. *)
Definition topic_record (rows : list (string * RawSentence.t)) (topic : string)
  : TopicRecord.t :=
  {| TopicRecord.topic := topic;
     TopicRecord.startTime :=
       match sentences_under topic rows with
       | first :: _ => seconds_or_zero (RawSentence.start first)
       | [] => 0%Qc
       end;
     TopicRecord.duration := total_duration (sentences_under topic rows);
     TopicRecord.mentions := length (sentences_under topic rows) |}.

(** One record per distinct topic, ordered by first occurrence. *)
Definition topic_flow (rows : list (string * RawSentence.t)) : list TopicRecord.t :=
  topic_record rows <$> first_occurrences rows.*1.

(** The topic tracking of one scanned sentence. *)
Definition track_row (topicFlow : list TopicRecord.t) (row : string * RawSentence.t)
  : list TopicRecord.t :=
  track_topic row.1 row.2 (sentence_duration row.2) topicFlow.

(** The topic tracking of one sentence of [entry]. *)
Definition topic_step (entry : RawEntry.t) (topicFlow : list TopicRecord.t)
    (sentence : RawSentence.t) : list TopicRecord.t :=
  match RawEntry.topic entry with
  | Some topic =>
      if JsString.truthy topic
      then track_topic topic sentence (sentence_duration sentence) topicFlow
      else topicFlow
  | None => topicFlow
  end.

(** Two one-sentence entries on pricing, of 5 and 7 seconds, around an
    entry on another topic. *)
Definition pricing_call : list RawEntry.t :=
  [ spoken_entry "A" (Some "pricing") [timed_sentence "What does it cost" 1000 6000];
    spoken_entry "B" (Some "onboarding") [timed_sentence "Setup takes a day" 6000 9000];
    spoken_entry "A" (Some "pricing") [timed_sentence "Is there a discount" 9000 16000] ].

(** The speaker switches as the specification counts them: the entries
    with a sentences array whose speaker differs from the speaker of the
    preceding entry with a sentences array, [previous] being that speaker. *)
Fixpoint switches_after (previous : option string) (entries : list RawEntry.t)
  : nat :=
  match entries with
  | [] => 0
  | entry :: rest =>
      match RawEntry.sentences entry with
      | Some _ =>
          match previous with
          | Some last =>
              if decide (last = RawEntry.speakerId entry) then 0 else 1
          | None => 0
          end
          + switches_after (Some (RawEntry.speakerId entry)) rest
      | None => switches_after previous rest
      end
  end.

Definition specified_switches (entries : list RawEntry.t) : nat :=
  switches_after None entries.

(** The sum of [totalTime] over the speakers of [speakerStats]. *)
Definition total_talk_time (speakerStats : gmap string SpeakerStat.t) : Qc :=
  map_fold (λ _ stats acc, (SpeakerStat.totalTime stats + acc)%Qc) 0%Qc speakerStats.

(** The switch counter and [lastSpeaker] after one more entry. *)
Definition switch_step (st : nat * option string) (entry : RawEntry.t)
  : nat * option string :=
  match RawEntry.sentences entry with
  | Some _ =>
      (st.1 + (if is_switch st.2 (RawEntry.speakerId entry) then 1 else 0),
       Some (RawEntry.speakerId entry))
  | None => st
  end.

(** Two speakers, the first under the empty string as its id. *)
Definition anonymous_call : list RawEntry.t :=
  [ spoken_entry "" None [bare_sentence (VStr "Hello")];
    spoken_entry "A" None [bare_sentence (VStr "Hi there")] ].

(** The sentences the analyzer scans, in scan order. *)
Definition scanned_sentences (entries : list RawEntry.t) : list RawSentence.t :=
  entries ≫= sentences_of.

(** The string the analyzer works on for a sentence: [sentence.text || '']. *)
Definition analyzed_text (sentence : RawSentence.t) : string :=
  text_string (val_or (RawSentence.text sentence) (VStr "")).

(** The totals of the analyzer that do not depend on the speaker. *)
Record tally : Type := mk_tally {
  tally_duration : Qc;
  tally_words : nat;
  tally_sentiments : SentimentDistribution.t;
  tally_questions : nat;
  tally_exclamations : nat
}.

Definition tally_of (analysis : Analysis.t) : tally :=
  {| tally_duration := Analysis.totalDuration analysis;
     tally_words := Analysis.totalWords analysis;
     tally_sentiments := Analysis.sentimentDistribution analysis;
     tally_questions :=
       InteractionMetrics.questionCount (Analysis.interactionMetrics analysis);
     tally_exclamations :=
       InteractionMetrics.exclamationCount (Analysis.interactionMetrics analysis) |}.

(** What one scanned sentence adds to the totals. *)
Definition tally_step (t : tally) (sentence : RawSentence.t) : tally :=
  {| tally_duration := (tally_duration t + sentence_duration sentence)%Qc;
     tally_words := tally_words t + length (JsString.split " " (analyzed_text sentence));
     tally_sentiments :=
       count_sentiment (expected_sentiment (VStr (analyzed_text sentence)))
         (tally_sentiments t);
     tally_questions :=
       tally_questions t
       + (if JsString.includes (analyzed_text sentence) "?" then 1 else 0);
     tally_exclamations :=
       tally_exclamations t
       + (if JsString.includes (analyzed_text sentence) "!" then 1 else 0) |}.

Global Instance Sentiment_eq_dec : EqDecision Sentiment.
Proof. solve_decision. Defined.

(** The number of utterances with a given sentiment. *)
Definition utterances_with (sentiment : Sentiment) (utterances : list Utterance.t)
  : nat :=
  length (filter (λ u, Utterance.sentiment u = sentiment) utterances).

(** The sum of the durations of a list of utterances. *)
Definition utterance_time (utterances : list Utterance.t) : Qc :=
  foldr (λ u acc, (Utterance.duration u + acc)%Qc) 0%Qc utterances.

(** The sum of the word counts of a list of utterances. *)
Definition utterance_words (utterances : list Utterance.t) : nat :=
  foldr (λ u acc, Utterance.wordCount u + acc) 0 utterances.

(** The entries without a sentences array: each yields a fallback
    utterance. *)
Definition fallback_entries (entries : list RawEntry.t) : list RawEntry.t :=
  filter (λ entry, RawEntry.sentences entry = None) entries.

(** The scanned sentences whose text is falsy: absent, [null] or empty. *)
Definition silent_sentences (entries : list RawEntry.t) : list RawSentence.t :=
  filter (λ sentence, truthy (RawSentence.text sentence) = false)
    (scanned_sentences entries).

(** The scanned sentences whose text contains [mark]. *)
Definition sentences_with (mark : string) (entries : list RawEntry.t)
  : list RawSentence.t :=
  filter (λ sentence, JsString.includes (analyzed_text sentence) mark = true)
    (scanned_sentences entries).

(** The counter of a sentiment in a distribution. *)
Definition bucket (sentiment : Sentiment) (d : SentimentDistribution.t) : nat :=
  match sentiment with
  | Positive => SentimentDistribution.positive d
  | Neutral => SentimentDistribution.neutral d
  | Negative => SentimentDistribution.negative d
  end.

(** A call with a sentence without text, a question and a praise, followed
    by an entry of the legacy shape. *)
Definition patchy_call : list RawEntry.t :=
  [ spoken_entry "A" None
      [ bare_sentence VUndefined;
        timed_sentence "Is that a good plan?" 1000 4000 ];
    spoken_entry "B" None [timed_sentence "Great, thanks!" 4000 6000];
    legacy_entry "A" (Some "Bye") None ].

(** The sentences spoken under [speakerId]: those of its entries, in scan
    order. *)
Definition spoken_by (speakerId : string) (entries : list RawEntry.t)
  : list RawSentence.t :=
  filter (λ entry, RawEntry.speakerId entry = speakerId) entries ≫= sentences_of.

(** The words the analyzer counts in a list of sentences. *)
Definition spoken_words (sentences : list RawSentence.t) : nat :=
  foldr (λ s acc, length (JsString.split " " (analyzed_text s)) + acc) 0 sentences.

(** The statistics of a speaker after one more sentence. *)
Definition bump_stat (stats : SpeakerStat.t) (sentence : RawSentence.t)
  : SpeakerStat.t :=
  {| SpeakerStat.totalTime :=
       (SpeakerStat.totalTime stats + sentence_duration sentence)%Qc;
     SpeakerStat.wordCount :=
       SpeakerStat.wordCount stats
       + length (JsString.split " " (analyzed_text sentence));
     SpeakerStat.sentenceCount := SpeakerStat.sentenceCount stats + 1;
     SpeakerStat.avgWordsPerSentence := SpeakerStat.avgWordsPerSentence stats;
     SpeakerStat.talkTimePercentage := SpeakerStat.talkTimePercentage stats |}.

(** The entry of [speakerId] in [speakerStats] after one more transcript
    entry, [None] standing for no own entry. *)
Definition stat_entry_step (speakerId : string) (stats : option SpeakerStat.t)
    (entry : RawEntry.t) : option SpeakerStat.t :=
  match RawEntry.sentences entry with
  | Some sentences =>
      if decide (speakerId = RawEntry.speakerId entry)
      then foldl (λ o sentence, (λ st, bump_stat st sentence) <$> o)
             (match stats with
              | Some st => Some st
              | None => if JsObject.inherited speakerId then None else Some new_stat
              end)
             sentences
      else stats
  | None => stats
  end.

(** *** Vocabulary of the daily summary *)

(** The distinct elements of a list, ordered by first occurrence. *)
Fixpoint distinct {A} `{EqDecision A} (l : list A) : list A :=
  match l with
  | [] => []
  | x :: l => x :: filter (λ y, y ≠ x) (distinct l)
  end.

(** The number of occurrences of [x] in [l]. *)
Definition occurrences {A} `{EqDecision A} (x : A) (l : list A) : nat :=
  length (filter (λ y, y = x) l).

Section DailySummaryVocabulary.
Import DailySummary.

(** The names under which the participants of the calls are listed, call
    by call. *)
Definition participant_keys (calls : list Call.t) : list (option string) :=
  calls ≫= λ call, participant_key <$> default [] (Call.participants call).

(** The keyword that a title must contain for a topic; the last topic has
    none. *)
Definition keyword (topic : Topic) : option string :=
  match topic with
  | ProductDemo => Some "demo"
  | PricingDiscussion => Some "pricing"
  | DiscoveryCall => Some "discovery"
  | FollowUp => Some "follow"
  | Onboarding => Some "onboard"
  | GeneralDiscussion => None
  end.

(** The position of a topic in the order of the keyword tests. *)
Definition topic_rank (topic : Topic) : nat :=
  match topic with
  | ProductDemo => 0
  | PricingDiscussion => 1
  | DiscoveryCall => 2
  | FollowUp => 3
  | Onboarding => 4
  | GeneralDiscussion => 5
  end.

(** The topics of the insights that are not [null], insight by insight. *)
Definition discussed (insights : list (option Insight.t)) : list Topic :=
  omap id insights ≫= Insight.topics.

(** The number of insights with a sentiment. *)
Definition with_sentiment (sentiment : Sentiment) (insights : list (option Insight.t))
  : nat :=
  length (filter (λ i, Insight.sentiment i = sentiment) (omap id insights)).

(** An insight that is not [null] and has action items. *)
Definition needs_action (insight : option Insight.t) : bool :=
  match insight with
  | Some i => Insight.hasActionItems i
  | None => false
  end.

(** An insight that is not [null] and mentions a competitor. *)
Definition mentions_competitor (insight : option Insight.t) : bool :=
  match insight with
  | Some i => Insight.competitorMentioned i
  | None => false
  end.

End DailySummaryVocabulary.

(** The distinct elements of a list in order of first occurrence, each
    with the number of its occurrences. *)
Definition tally_list {A} `{EqDecision A} (l : list A) : list (A * nat) :=
  (λ x, (x, occurrences x l)) <$> distinct l.

(** A list of counted entries in which no entry has a greater count than
    an entry before it. *)
Definition descending {A} (entries : list (A * nat)) : Prop :=
  StronglySorted (λ a b, b.2 ≤ a.2) entries.

(** The entries with the count [n], in their order. *)
Definition counted {A} (n : nat) (entries : list (A * nat)) : list (A * nat) :=
  filter (λ kv, kv.2 = n) entries.

(** The [k] numbers that [Math.random] returns from position [next] on. *)
Definition drawn (random : nat → Qc) (next k : nat) : list Qc :=
  (λ j, random (next + j)) <$> seq 0 k.

(** A call whose title is a string. *)
Definition titled (call : DailySummary.Call.t) : Prop :=
  ∃ title, DailySummary.Call.title call = VStr title.

Global Instance titled_dec call : Decision (titled call).
Proof.
  unfold titled. destruct (DailySummary.Call.title call) as [| | | |title|];
    first [by left; eexists | by right; intros [? ?]].
Defined.

(** The insight of a call carries its data and the topics of its title. *)
Definition insight_of (call : DailySummary.Call.t) (insight : DailySummary.Insight.t)
  : Prop :=
  DailySummary.Insight.callId insight = DailySummary.Call.id call
  ∧ DailySummary.Insight.title insight = DailySummary.Call.title call
  ∧ DailySummary.Insight.duration insight = DailySummary.Call.duration call
  ∧ DailySummary.Insight.participants insight
    = length (default [] (DailySummary.Call.participants call))
  ∧ DailySummary.extractTopicsFromTitle (DailySummary.Call.title call)
    = Ok (DailySummary.Insight.topics insight).

(** Three calls: a demo with two participants, a call without a title and
    a pricing follow-up. *)
Definition sample_calls : list DailySummary.Call.t :=
  [ {| DailySummary.Call.id := "c1";
       DailySummary.Call.title := VStr "Product Demo";
       DailySummary.Call.duration := Some (num 1800);
       DailySummary.Call.participants :=
         Some [ {| DailySummary.Participant.emailAddress := Some "ann@example.com";
                   DailySummary.Participant.name := Some "Ann" |};
                {| DailySummary.Participant.emailAddress := None;
                   DailySummary.Participant.name := Some "Bob" |} ] |};
    {| DailySummary.Call.id := "c2";
       DailySummary.Call.title := VUndefined;
       DailySummary.Call.duration := None;
       DailySummary.Call.participants := None |};
    {| DailySummary.Call.id := "c3";
       DailySummary.Call.title := VStr "Pricing follow-up";
       DailySummary.Call.duration := Some (num 600);
       DailySummary.Call.participants := Some [] |} ].

(** A [Math.random] that returns 0.9, 0.1, 0.9, 0.1 and so on. *)
Definition sample_random (n : nat) : Qc :=
  if Nat.even n then (num 9 / num 10)%Qc else (num 1 / num 10)%Qc.

(** *** Vocabulary of the handlers *)

(** A Secret Manager that holds the three vendor secrets. *)
Definition sample_store (name : string) : attempt string :=
  if String.eqb name "gong-access-key" then Done "key"
  else if String.eqb name "gong-secret-key" then Done "secret"
  else if String.eqb name "gong-api-base-url" then Done "https://api.gong.io/v2"
  else Failed (Rejected "NOT_FOUND").

(** A Secret Manager that is out of reach. *)
Definition failing_store (name : string) : attempt string :=
  Failed (Rejected "UNAVAILABLE").

(** The secrets of [sample_store]. *)
Definition sample_secrets : Secrets.t :=
  {| Secrets.accessKey := "key"; Secrets.secretKey := "secret";
     Secrets.baseUrl := "https://api.gong.io/v2" |}.

(** The cache after the secrets were read at the time [refreshed]. *)
Definition filled_cache (refreshed : Z) : SecretCache.t :=
  {| SecretCache.secretsCache := Some sample_secrets;
     SecretCache.lastSecretRefresh := refreshed |}.

(** The three reads of a refresh. *)
Definition refresh_reads : list effect :=
  [ReadSecret "gong-access-key"; ReadSecret "gong-secret-key";
   ReadSecret "gong-api-base-url"].

(** The enhanced transcript holds what the three pipeline functions
    return for the transcript of the call. *)
Definition enhanced_from (t : CallTranscript.t) (e : EnhancedTranscript.t) : Prop :=
  EnhancedTranscript.callId e = CallTranscript.callId t
  ∧ processTranscriptEntries (CallTranscript.transcript t)
    = Ok (EnhancedTranscript.transcript e)
  ∧ analyzeTranscriptContent (CallTranscript.transcript t)
    = Ok (EnhancedTranscript.analytics e)
  ∧ extractConversationText (CallTranscript.transcript t)
    = Ok (EnhancedTranscript.conversationText e).

(** Every sentence text of the call's transcript is absent, [null] or a
    string. *)
Definition well_formed (t : CallTranscript.t) : Prop :=
  transcript_ok (CallTranscript.transcript t) = true.

(** A vendor that answers with the pricing call and, for a second call,
    with [second]. *)
Definition sample_gong (second : list RawEntry.t) (secrets : Secrets.t)
    (callIds : list jsval) : attempt (option (list CallTranscript.t)) :=
  Done (Some [ {| CallTranscript.callId := VStr "1";
                  CallTranscript.transcript := TArray pricing_call |};
               {| CallTranscript.callId := VStr "2";
                  CallTranscript.transcript := TArray second |} ]).

(** A request for the transcripts of the calls 1 and 2. *)
Definition sample_request : Request.t TranscriptBody.t :=
  {| Request.method := "POST";
     Request.body :=
       Some {| TranscriptBody.callIds := IdsArray [VStr "1"; VStr "2"];
               TranscriptBody.callId := VUndefined |} |}.

(** *** Vocabulary of the AI analysis handlers *)

(** [l] cut into consecutive batches of [size] elements, the last batch
    holding what is left; [fuel] bounds the number of batches. *)
Fixpoint chunks {A} (fuel size : nat) (l : list A) : list (list A) :=
  match fuel with
  | O => []
  | S fuel =>
      match l with
      | [] => []
      | _ => take size l :: chunks fuel size (drop size l)
      end
  end.

(** The entry that reports the failure of the batch of a call. *)
Definition batch_failure {R} (f : failure) (callId : jsval) : AiHandlers.entry R :=
  AiHandlers.AnalysisFailed callId "Batch processing failed" f.

(** A request for the batch analysis of the calls [callIds]. *)
Definition batch_request (callIds : list jsval) (batchSize : option Z)
  : Request.t AiHandlers.BatchBody.t :=
  {| Request.method := "POST";
     Request.body :=
       Some {| AiHandlers.BatchBody.callIds := IdsArray callIds;
               AiHandlers.BatchBody.batchSize := batchSize |} |}.





(** An analysis function that fails on sentiment analyses. *)
Definition sample_ai (call : AiHandlers.ai_call) : attempt string :=
  match call with
  | AiHandlers.SentimentAnalysis _ => Failed (Rejected "timeout")
  | _ => Done "{}"
  end.


(** ** Tactics *)

(** Peels the first [x ← r; k] of a hypothesis [r ≫= k = Ok _]. *)
Ltac inv_bind H :=
  match type of H with
  | mbind _ ?r = Ok _ =>
      let E := fresh "Hbind" in
      destruct r eqn:E; cbn [mbind result_bind] in H; [|discriminate H]
  end.

(** * Properties *)

(** ** Strings *)

Section Strings.

Lemma app_string_cons c s1 s2 : String c s1 +:+ s2 = String c (s1 +:+ s2).
Proof. reflexivity. Qed.

Lemma app_string_nil_l s : "" +:+ s = s.
Proof. reflexivity. Qed.

Lemma app_string_nil_r s : s +:+ "" = s.
Proof. induction s; [done|]. rewrite app_string_cons. congruence. Qed.

Lemma app_string_assoc s1 s2 s3 : (s1 +:+ s2) +:+ s3 = s1 +:+ (s2 +:+ s3).
Proof. induction s1; [done|]. rewrite !app_string_cons. congruence. Qed.

Lemma startsWith_spec s w :
  JsString.startsWith s w = true ↔ ∃ post, s = w +:+ post.
Proof.
  revert s. induction w as [|a w IH]; intros [|b s]; cbn [JsString.startsWith].
  - split; eauto.
  - split; eauto.
  - split; [discriminate | intros [post H]; discriminate].
  - rewrite andb_true_iff, Ascii.eqb_eq, IH. split.
    + intros [-> [post ->]]. eauto.
    + intros [post H]. rewrite app_string_cons in H. injection H as -> ->. eauto.
Qed.

Lemma includes_spec s w : JsString.includes s w = true ↔ occurs w s.
Proof.
  unfold occurs. induction s as [|c s IH].
  - cbn [JsString.includes]. rewrite orb_false_r, startsWith_spec. split.
    + intros [post H]. exists "", post. done.
    + intros ([|c pre] & post & H); [eauto | discriminate].
  - cbn [JsString.includes]. rewrite orb_true_iff, startsWith_spec, IH. split.
    + intros [[post H] | (pre & post & H)].
      * exists "", post. done.
      * exists (String c pre), post. rewrite app_string_cons. by rewrite H.
    + intros ([|c' pre] & post & H).
      * left. eauto.
      * right. rewrite app_string_cons in H. injection H as -> H. eauto.
Qed.

Lemma counts_filter {A} (P : A → Prop) (f : A → bool) l :
  (∀ x, f x = true ↔ P x) → counts P l (length (List.filter f l)).
Proof.
  intros Hf. induction l as [|x l IH]; simpl; [constructor|].
  destruct (f x) eqn:Hx; simpl.
  - apply counts_hit; [by apply Hf | done].
  - apply counts_miss; [|done]. rewrite <- Hf. congruence.
Qed.

Lemma counts_unique {A} (P : A → Prop) l n m :
  counts P l n → counts P l m → n = m.
Proof.
  intros Hn. revert m. induction Hn; intros m Hm; inversion Hm; subst;
    try done; try (f_equal; eauto); eauto.
Qed.

(** The joined text ends with the last element, not with a separator. *)
Lemma join_snoc sep l x :
  l ≠ [] → JsString.join sep (l ++ [x]) = JsString.join sep l +:+ sep +:+ x.
Proof.
  induction l as [|y l IH]; [done|]. intros _.
  destruct l as [|z l]; [done|].
  change (JsString.join sep ((y :: z :: l) ++ [x]))
    with (y +:+ sep +:+ JsString.join sep ((z :: l) ++ [x])).
  rewrite IH by done.
  change (JsString.join sep (y :: z :: l))
    with (y +:+ sep +:+ JsString.join sep (z :: l)).
  by rewrite !app_string_assoc.
Qed.

End Strings.

(** ** Sentence sentiment classifier *)

(** C4. [analyzeSentence] answers positive exactly when more words of the
    positive list than of the negative list occur in the lower-cased text,
    negative exactly when fewer do, and neutral exactly on a tie; an absent
    text is neutral, and the four sample texts classify as documented. *)
Theorem analyzeSentence_counts_keywords :
  (∀ text : string, ∃ p n : nat,
      counts (λ w, occurs w (JsString.toLowerCase text)) positiveWords p ∧
      counts (λ w, occurs w (JsString.toLowerCase text)) negativeWords n ∧
      (analyzeSentence (VStr text) = Ok Positive ↔ (n < p)%nat) ∧
      (analyzeSentence (VStr text) = Ok Negative ↔ (p < n)%nat) ∧
      (analyzeSentence (VStr text) = Ok Neutral ↔ p = n)) ∧
  analyzeSentence VUndefined = Ok Neutral ∧
  analyzeSentence VNull = Ok Neutral ∧
  analyzeSentence (VStr "This is great and wonderful") = Ok Positive ∧
  analyzeSentence (VStr "This is a terrible problem") = Ok Negative ∧
  analyzeSentence (VStr "") = Ok Neutral ∧
  analyzeSentence (VStr "great problem") = Ok Neutral.
Proof.
  split; [|by repeat split].
  intros text.
  set (lowerText := JsString.toLowerCase text).
  exists (length (List.filter (λ w, JsString.includes lowerText w) positiveWords)),
         (length (List.filter (λ w, JsString.includes lowerText w) negativeWords)).
  split; [apply counts_filter; intros; apply includes_spec|].
  split; [apply counts_filter; intros; apply includes_spec|].
  destruct text as [|c text].
  - vm_compute. repeat split; intros; congruence || lia.
  - unfold analyzeSentence. cbn [truthy JsString.truthy negb as_string mbind result_bind].
    fold lowerText.
    set (p := length (List.filter _ positiveWords)).
    set (n := length (List.filter _ negativeWords)).
    destruct (Nat.ltb_spec n p), (Nat.ltb_spec p n);
      repeat split; intros; congruence || lia.
Qed.

(** ** Timestamps *)

Example formatTimestamp_samples :
  formatTimestamp (num 0) = "00:00"
  ∧ formatTimestamp (num 125) = "02:05"
  ∧ formatTimestamp (num 3725) = "62:05".
Proof. by vm_compute. Qed.

(** ** Speaker resolver *)

Section Resolver.

Variable prefix : string.

Lemma distinct_count_snoc_fresh ids id :
  id ∉ ids → distinct_count (ids ++ [id]) = distinct_count ids + 1.
Proof.
  intros Hid. unfold distinct_count.
  rewrite list_to_set_snoc_L, size_union, size_singleton; [done|].
  intros x Hx ->%elem_of_singleton. by apply elem_of_list_to_set in Hx.
Qed.

Lemma first_seen_number_app ids rest id :
  id ∈ ids → first_seen_number (ids ++ rest) id = first_seen_number ids id.
Proof.
  intros Hid. unfold first_seen_number.
  destruct (list_find_elem_of (λ x, x = id) ids id Hid eq_refl) as [[i x] Hfind].
  rewrite (list_find_app_l _ _ _ _ _ Hfind), Hfind.
  apply list_find_Some in Hfind as (Hi%lookup_lt_Some & _).
  by rewrite take_app_le by lia.
Qed.

Lemma first_seen_number_snoc_fresh ids id :
  id ∉ ids → first_seen_number (ids ++ [id]) id = distinct_count ids + 1.
Proof.
  intros Hid. unfold first_seen_number.
  rewrite list_find_app_r.
  - cbn. rewrite decide_True by done. cbn.
    rewrite take_ge by (rewrite length_app; simpl; lia).
    by apply distinct_count_snoc_fresh.
  - apply list_find_None, Forall_forall. by intros x Hx ->.
Qed.

Lemma first_seen_number_first ids i id :
  ids !! i = Some id → id ∉ take i ids →
  first_seen_number ids id = distinct_count (take (S i) ids).
Proof.
  intros Hi Hfresh. unfold first_seen_number.
  assert (list_find (λ x, x = id) ids = Some (i, id)) as ->; [|done].
  apply list_find_Some. split_and!; [done..|].
  intros j y Hj Hlt ->. apply Hfresh.
  apply list_elem_of_lookup. exists j. by rewrite lookup_take_lt.
Qed.

Lemma labelled_empty : labelled prefix [] ∅.
Proof. intros id. rewrite lookup_empty, decide_False; [done|]. apply not_elem_of_nil. Qed.

Lemma labelled_size ids m : labelled prefix ids m → size m = distinct_count ids.
Proof.
  intros Hm. unfold distinct_count.
  rewrite <- (size_dom (D := gset string)). f_equal.
  apply set_eq. intros id.
  rewrite elem_of_dom, elem_of_list_to_set, Hm.
  case_decide; [split; eauto | split; [intros [] |]; done].
Qed.

Lemma assign_label_labelled ids m id :
  labelled prefix ids m →
  (assign_label prefix id m).1
    = prefix +:+ JsString.of_nat (first_seen_number (ids ++ [id]) id)
  ∧ labelled prefix (ids ++ [id]) (assign_label prefix id m).2.
Proof.
  intros Hm. unfold assign_label.
  pose proof (Hm id) as Hid. destruct (decide (id ∈ ids)) as [Hin|Hout].
  - rewrite Hid. cbn. split; [by rewrite first_seen_number_app|].
    intros id'. rewrite Hm.
    destruct (decide (id' ∈ ids)) as [Hin'|Hout'].
    + rewrite decide_True by (apply elem_of_app; by left).
      by rewrite first_seen_number_app.
    + rewrite decide_False; [done|].
      intros [?| ->%list_elem_of_singleton]%elem_of_app; done.
  - rewrite Hid. cbn.
    rewrite (labelled_size _ _ Hm), first_seen_number_snoc_fresh by done.
    split; [done|]. intros id'.
    destruct (decide (id' = id)) as [->|Hne].
    + rewrite lookup_insert_eq, decide_True by (apply elem_of_app; right; by left).
      by rewrite first_seen_number_snoc_fresh.
    + rewrite lookup_insert_ne, Hm by done.
      destruct (decide (id' ∈ ids)) as [Hin'|Hout'].
      * rewrite decide_True by (apply elem_of_app; by left).
        by rewrite first_seen_number_app.
      * rewrite decide_False; [done|].
        intros [?| ?%list_elem_of_singleton]%elem_of_app; done.
Qed.

Lemma assign_label_grows id m : m ⊆ (assign_label prefix id m).2.
Proof.
  unfold assign_label. destruct (m !! id) eqn:Hid; cbn; [done|].
  by apply insert_subseteq.
Qed.

End Resolver.

Lemma getSpeakerName_assign_label id m :
  getSpeakerName id m = assign_label "Speaker " id m.
Proof. reflexivity. Qed.

Lemma resolve_all_labelled pre ids m :
  labelled "Speaker " pre m →
  (resolve_all ids m).1
    = (λ id, "Speaker " +:+ JsString.of_nat (first_seen_number (pre ++ ids) id)) <$> ids
  ∧ labelled "Speaker " (pre ++ ids) (resolve_all ids m).2.
Proof.
  revert pre m. induction ids as [|id ids IH]; intros pre m Hm.
  - cbn. by rewrite app_nil_r.
  - cbn [resolve_all]. rewrite getSpeakerName_assign_label.
    destruct (assign_label_labelled "Speaker " pre m id Hm) as [Hname Hm'].
    destruct (assign_label "Speaker " id m) as [name m'].
    destruct (IH (pre ++ [id]) m' Hm') as [Hnames Hm''].
    destruct (resolve_all ids m') as [names m'']. cbn in *.
    rewrite <- app_assoc in Hnames, Hm''. cbn in *. split; [|done].
    f_equal; [|done]. rewrite Hname.
    rewrite <- (first_seen_number_app (pre ++ [id]) ids id)
      by (apply elem_of_app; right; by left).
    by rewrite <- app_assoc.
Qed.

Lemma resolve_all_app ids1 ids2 m :
  resolve_all (ids1 ++ ids2) m =
    ((resolve_all ids1 m).1 ++ (resolve_all ids2 (resolve_all ids1 m).2).1,
     (resolve_all ids2 (resolve_all ids1 m).2).2).
Proof.
  revert m. induction ids1 as [|id ids1 IH]; intros m; cbn.
  - by destruct (resolve_all ids2 m).
  - destruct (getSpeakerName id m) as [name m'].
    rewrite IH. destruct (resolve_all ids1 m') as [names m'']. cbn.
    by destruct (resolve_all ids2 m'').
Qed.

Lemma resolve_all_grows ids m : m ⊆ (resolve_all ids m).2.
Proof.
  revert m. induction ids as [|id ids IH]; intros m; cbn; [done|].
  pose proof (assign_label_grows "Speaker " id m) as Hstep.
  rewrite <- getSpeakerName_assign_label in Hstep.
  destruct (getSpeakerName id m) as [name m'].
  specialize (IH m'). destruct (resolve_all ids m') as [names m'']. cbn in *.
  by etrans.
Qed.

(** C5. Against a fresh resolver, the first lookup of an id returns
    "Speaker N" with N the number of distinct ids looked up so far, every
    lookup of the same id returns the same label, the map of a longer run
    extends the map of any of its prefixes, and the labels are a function of
    the lookup sequence alone; the empty string is an id like any other. *)
Theorem speaker_resolver_first_seen_order (speakerIds : list string) :
  let labels := (resolve_all speakerIds ∅).1 in
  (∀ i id, speakerIds !! i = Some id → id ∉ take i speakerIds →
     labels !! i
       = Some ("Speaker " +:+ JsString.of_nat (distinct_count (take (S i) speakerIds))))
  ∧ (∀ i j id, speakerIds !! i = Some id → speakerIds !! j = Some id →
       is_Some (labels !! i) ∧ labels !! i = labels !! j)
  ∧ (∀ n, (resolve_all (take n speakerIds) ∅).2 ⊆ (resolve_all speakerIds ∅).2)
  ∧ (∀ id m, m ⊆ (getSpeakerName id m).2)
  ∧ (∀ again, again = speakerIds → (resolve_all again ∅).1 = labels)
  ∧ (resolve_all [""; "A"; ""; "B"] ∅).1
      = ["Speaker 1"; "Speaker 2"; "Speaker 1"; "Speaker 3"].
Proof.
  intros labels.
  destruct (resolve_all_labelled [] speakerIds ∅ (labelled_empty _)) as [Hlabels _].
  cbn in Hlabels. fold labels in Hlabels.
  split_and!.
  - intros i id Hi Hfresh. rewrite Hlabels, list_lookup_fmap, Hi. cbn.
    by rewrite (first_seen_number_first _ i).
  - intros i j id Hi Hj. rewrite Hlabels, !list_lookup_fmap, Hi, Hj. cbn. eauto.
  - intros n. rewrite <- (take_drop n speakerIds) at 2.
    rewrite resolve_all_app. cbn. apply resolve_all_grows.
  - intros id m. rewrite getSpeakerName_assign_label. apply assign_label_grows.
  - by intros again ->.
  - by vm_compute.
Qed.

(** ** Loops *)

Section Loops.

Context {A S : Type}.
Implicit Types (body : S → A → result S) (xs : list A).

(** The invariant rule of [for_of]: an invariant of the visited prefix that
    every iteration re-establishes holds of the whole list at the end, and
    the loop does not throw. *)
Lemma for_of_invariant (I : list A → S → Prop) body xs s0 :
  I [] s0 →
  (∀ pre x post s, xs = pre ++ x :: post → I pre s →
     ∃ s', body s x = Ok s' ∧ I (pre ++ [x]) s') →
  ∃ s', for_of xs body s0 = Ok s' ∧ I xs s'.
Proof.
  intros Hinit Hstep.
  cut (∀ post pre s, xs = pre ++ post → I pre s →
         ∃ s', for_of post body s = Ok s' ∧ I xs s').
  { intros H. by apply (H xs [] s0). }
  induction post as [|x post IH]; intros pre s Hxs Hpre.
  - exists s. rewrite app_nil_r in Hxs. by subst.
  - destruct (Hstep pre x post s Hxs Hpre) as (s1 & Hbody & Hs1).
    cbn. rewrite Hbody. cbn. apply (IH (pre ++ [x])); [|done].
    by rewrite <- app_assoc.
Qed.

(** A component of the state that each iteration updates by [step] is, at
    the end, the left fold of [step]. *)
Lemma for_of_fold {T} (proj : S → T) (step : T → A → T) body xs s s' :
  (∀ s x s1, body s x = Ok s1 → proj s1 = step (proj s) x) →
  for_of xs body s = Ok s' → proj s' = foldl step (proj s) xs.
Proof.
  intros Hstep. revert s. induction xs as [|x xs IH]; intros s; cbn.
  - by intros [= ->].
  - destruct (body s x) as [s1|] eqn:Hbody; cbn; [|done].
    intros Hrest. by rewrite (IH _ Hrest), (Hstep _ _ _ Hbody).
Qed.

End Loops.

(** ** Texts *)

Lemma forallb_Forall {A} (f : A → bool) (l : list A) :
  forallb f l = true ↔ Forall (λ x, f x = true) l.
Proof.
  induction l as [|x l IH]; cbn; [by split|].
  rewrite andb_true_iff, IH, Forall_cons. done.
Qed.

Lemma entry_ok_sentence entry sentences pre sentence post :
  entry_ok entry = true → RawEntry.sentences entry = Some sentences →
  sentences = pre ++ sentence :: post →
  text_ok (RawSentence.text sentence) = true.
Proof.
  unfold entry_ok, sentences_of. intros Hok Hs ->. rewrite Hs in Hok. cbn in Hok.
  apply forallb_Forall, Forall_app in Hok as [_ Hok].
  by apply Forall_cons in Hok as [? _].
Qed.

Lemma entries_ok_entry entries pre entry post :
  forallb entry_ok entries = true → entries = pre ++ entry :: post →
  entry_ok entry = true.
Proof.
  intros Hok ->. apply forallb_Forall, Forall_app in Hok as [_ Hok].
  by apply Forall_cons in Hok as [? _].
Qed.

Lemma analyzeSentence_expected text :
  text_ok text = true → analyzeSentence text = Ok (expected_sentiment text).
Proof.
  unfold expected_sentiment. destruct text as [| | | |s|]; try done.
  destruct s as [|c s]; [done|].
  unfold analyzeSentence. cbn [truthy JsString.truthy negb as_string mbind result_bind].
  by repeat case_match.
Qed.

Lemma normalizer_wordCount text :
  text_ok text = true →
  (if truthy text then split_length text else Ok 0) = Ok (expected_wordCount text).
Proof. destruct text as [| | | |[|c s]|]; done. Qed.

(** ** Entry Normalizer *)

Lemma emitted_speakers_app es1 es2 :
  emitted_speakers (es1 ++ es2) = emitted_speakers es1 ++ emitted_speakers es2.
Proof. apply bind_app. Qed.

Lemma emitted_speakers_cons entry es :
  emitted_speakers (entry :: es)
  = replicate (length (entry_utterances "" entry)) (RawEntry.speakerId entry)
    ++ emitted_speakers es.
Proof. done. Qed.

Lemma speaker_label_prefix es ids id rest :
  emitted_speakers es = (ids ++ [id]) ++ rest →
  speaker_label es id
  = "Speaker " +:+ JsString.of_nat (first_seen_number (ids ++ [id]) id).
Proof.
  unfold speaker_label. intros ->. rewrite first_seen_number_app; [done|].
  apply elem_of_app. right. by left.
Qed.

Lemma val_or_text text :
  text_ok text = true →
  val_or text (VStr "No text available")
  = match text with
    | VStr (String c s) => VStr (String c s)
    | _ => VStr "No text available"
    end.
Proof. destruct text as [| | | |[|c s]|]; done. Qed.

Lemma normalize_sentence_step entry sentence us m ids :
  text_ok (RawSentence.text sentence) = true →
  labelled "Speaker " ids m →
  ∃ m',
    normalize_sentence entry (us, m) sentence
    = Ok (us ++ [sentence_utterance entry
                   ("Speaker " +:+ JsString.of_nat
                      (first_seen_number (ids ++ [RawEntry.speakerId entry])
                         (RawEntry.speakerId entry)))
                   sentence], m')
    ∧ labelled "Speaker " (ids ++ [RawEntry.speakerId entry]) m'.
Proof.
  intros Hok Hm. unfold normalize_sentence.
  rewrite getSpeakerName_assign_label.
  destruct (assign_label_labelled "Speaker " ids m (RawEntry.speakerId entry) Hm)
    as [Hname Hm'].
  destruct (assign_label "Speaker " (RawEntry.speakerId entry) m) as [name m'].
  cbn in Hname, Hm'. subst name.
  rewrite normalizer_wordCount, analyzeSentence_expected by done. cbn.
  exists m'. split; [|done]. unfold sentence_utterance.
  by rewrite val_or_text.
Qed.

Lemma normalize_sentences_spec es pre entry post sentences us m :
  es = pre ++ entry :: post →
  RawEntry.sentences entry = Some sentences →
  entry_ok entry = true →
  labelled "Speaker " (emitted_speakers pre) m →
  ∃ m',
    for_of sentences (normalize_sentence entry) (us, m)
    = Ok (us ++ entry_utterances (speaker_label es (RawEntry.speakerId entry)) entry, m')
    ∧ labelled "Speaker " (emitted_speakers (pre ++ [entry])) m'.
Proof.
  intros Hes Hss Hok Hm.
  set (id := RawEntry.speakerId entry).
  assert (Hemitted : ∀ n, n ≤ length sentences → ∃ rest,
             emitted_speakers es = (emitted_speakers pre ++ replicate n id) ++ rest).
  { intros n Hn. exists (replicate (length sentences - n) id ++ emitted_speakers post).
    rewrite Hes, emitted_speakers_app, emitted_speakers_cons.
    unfold entry_utterances. rewrite Hss, length_fmap. fold id.
    rewrite <- !app_assoc. f_equal. rewrite app_assoc, <- replicate_add.
    do 2 f_equal. lia. }
  destruct (for_of_invariant
    (λ spre st,
       labelled "Speaker " (emitted_speakers pre ++ replicate (length spre) id) st.2
       ∧ st.1 = us ++ (sentence_utterance entry (speaker_label es id) <$> spre))
    (normalize_sentence entry) sentences (us, m)) as ([us' m'] & Hrun & Hm' & Hus').
  - cbn. by rewrite !app_nil_r.
  - intros spre s spost [us1 m1] Hsplit [Hm1 Hus1]. cbn in Hm1, Hus1. subst us1.
    destruct (normalize_sentence_step entry s
                (us ++ (sentence_utterance entry (speaker_label es id) <$> spre))
                m1 _ (entry_ok_sentence _ _ _ _ _ Hok Hss Hsplit) Hm1)
      as (m2 & Hstep & Hm2).
    eexists. split; [exact Hstep|]. cbn. fold id in Hm2 |- *. split.
    + by rewrite length_app, replicate_add, app_assoc.
    + rewrite fmap_app, app_assoc. cbn. do 3 f_equal.
      destruct (Hemitted (S (length spre))) as [rest Hrest].
      { rewrite Hsplit, length_app. cbn. lia. }
      rewrite (speaker_label_prefix es (emitted_speakers pre ++ replicate (length spre) id) id rest);
        [done|].
      rewrite Hrest. f_equal. rewrite <- app_assoc. f_equal.
      by rewrite <- Nat.add_1_r, replicate_add.
  - cbn in Hm', Hus'. subst us'. exists m'. split.
    + rewrite Hrun. unfold entry_utterances. by rewrite Hss.
    + rewrite emitted_speakers_app, emitted_speakers_cons.
      unfold entry_utterances. rewrite Hss, length_fmap. fold id.
      unfold emitted_speakers at 2. cbn. by rewrite app_nil_r.
Qed.

Lemma normalize_entry_spec es pre entry post us m :
  es = pre ++ entry :: post →
  entry_ok entry = true →
  labelled "Speaker " (emitted_speakers pre) m →
  ∃ m',
    normalize_entry (us, m) entry
    = Ok (us ++ entry_utterances (speaker_label es (RawEntry.speakerId entry)) entry, m')
    ∧ labelled "Speaker " (emitted_speakers (pre ++ [entry])) m'.
Proof.
  intros Hes Hok Hm. unfold normalize_entry.
  destruct (RawEntry.sentences entry) as [sentences|] eqn:Hss.
  - by eapply normalize_sentences_spec.
  - rewrite getSpeakerName_assign_label.
    destruct (assign_label_labelled "Speaker " _ m (RawEntry.speakerId entry) Hm)
      as [Hname Hm'].
    destruct (assign_label "Speaker " (RawEntry.speakerId entry) m) as [name m'].
    cbn in Hname, Hm'. subst name. exists m'.
    assert (Hone : emitted_speakers [entry] = [RawEntry.speakerId entry]).
    { unfold emitted_speakers, entry_utterances. cbn. by rewrite Hss. }
    split.
    + unfold entry_utterances. rewrite Hss.
      rewrite (speaker_label_prefix es (emitted_speakers pre)
                 (RawEntry.speakerId entry) (emitted_speakers post)); [done|].
      rewrite Hes, emitted_speakers_app.
      change (entry :: post) with ([entry] ++ post).
      by rewrite emitted_speakers_app, Hone, app_assoc.
    + by rewrite emitted_speakers_app, Hone.
Qed.

(** On a transcript whose sentence texts are absent, [null] or strings the
    normalizer returns the normalized transcript. *)
Lemma processTranscriptEntries_spec es :
  forallb entry_ok es = true →
  processTranscriptEntries (TArray es) = Ok (normalized es).
Proof.
  intros Hok. unfold processTranscriptEntries.
  destruct (for_of_invariant
    (λ pre st,
       labelled "Speaker " (emitted_speakers pre) st.2
       ∧ st.1 = pre ≫= λ entry,
           entry_utterances (speaker_label es (RawEntry.speakerId entry)) entry)
    normalize_entry es ([], ∅)) as ([us m] & Hrun & _ & Hus).
  - split; [apply labelled_empty | done].
  - intros pre entry post [us m] Hes [Hm Hus]. cbn in Hm, Hus. subst us.
    destruct (normalize_entry_spec es pre entry post
                (pre ≫= λ entry,
                   entry_utterances (speaker_label es (RawEntry.speakerId entry)) entry)
                m Hes (entries_ok_entry _ _ _ _ Hok Hes) Hm)
      as (m' & Hstep & Hm').
    eexists. split; [exact Hstep|]. cbn. split; [done|].
    rewrite bind_app. cbn. by rewrite app_nil_r.
  - rewrite Hrun. cbn in Hus |- *. by rewrite Hus.
Qed.




(** ** Conversation Text Extractor *)

Lemma for_of_ext {A S} (body1 body2 : S → A → result S) xs s :
  (∀ s x, body1 s x = body2 s x) → for_of xs body1 s = for_of xs body2 s.
Proof.
  intros Hext. revert s. induction xs as [|x xs IH]; intros s; cbn; [done|].
  rewrite Hext. destruct (body2 s x); cbn; [apply IH | done].
Qed.

Lemma extract_sentence_step speakerName conversation sentence :
  text_ok (RawSentence.text sentence) = true →
  extract_sentence speakerName conversation sentence
  = Ok (conversation ++ sentence_line speakerName sentence).
Proof.
  unfold extract_sentence, sentence_line.
  destruct (RawSentence.text sentence) as [| | | |text|]; try done; cbn.
  - by rewrite app_nil_r.
  - by rewrite app_nil_r.
  - destruct (JsString.truthy (JsString.trim text)); [done|]. by rewrite app_nil_r.
Qed.

Lemma extract_sentences_spec speakerName sentences conversation :
  Forall (λ sentence, text_ok (RawSentence.text sentence) = true) sentences →
  for_of sentences (extract_sentence speakerName) conversation
  = Ok (conversation ++ (sentences ≫= sentence_line speakerName)).
Proof.
  intros Hok. revert conversation.
  induction Hok as [|s sentences Hs _ IH]; intros conversation; cbn [for_of].
  - cbn. by rewrite app_nil_r.
  - rewrite extract_sentence_step by done. cbn. by rewrite IH, <- app_assoc.
Qed.

Lemma extractor_speakers_snoc pre entry :
  extractor_speakers (pre ++ [entry])
  = extractor_speakers pre
    ++ match RawEntry.sentences entry with
       | Some _ => [RawEntry.speakerId entry]
       | None => []
       end.
Proof.
  unfold extractor_speakers. rewrite filter_app, fmap_app. f_equal.
  destruct (RawEntry.sentences entry) eqn:Hss.
  - rewrite filter_cons_True by (rewrite Hss; eauto). done.
  - rewrite filter_cons_False by (rewrite Hss; by intros []). done.
Qed.

Lemma extractor_label_prefix es pre entry post :
  es = pre ++ entry :: post → is_Some (RawEntry.sentences entry) →
  extractor_label es (RawEntry.speakerId entry)
  = "Speaker" +:+ JsString.of_nat
      (first_seen_number (extractor_speakers pre ++ [RawEntry.speakerId entry])
         (RawEntry.speakerId entry)).
Proof.
  intros -> [ss Hss]. unfold extractor_label.
  change (entry :: post) with ([entry] ++ post).
  rewrite app_assoc. unfold extractor_speakers at 1.
  rewrite filter_app, fmap_app. fold (extractor_speakers (pre ++ [entry])).
  rewrite extractor_speakers_snoc, Hss.
  rewrite first_seen_number_app; [done|]. apply elem_of_app. right. by left.
Qed.

Lemma extract_entry_spec es pre entry post conversation m :
  es = pre ++ entry :: post →
  entry_ok entry = true →
  labelled "Speaker" (extractor_speakers pre) m →
  ∃ m',
    extract_entry (conversation, m) entry
    = Ok (conversation
          ++ (sentences_of entry
                ≫= sentence_line (extractor_label es (RawEntry.speakerId entry))),
          m')
    ∧ labelled "Speaker" (extractor_speakers (pre ++ [entry])) m'.
Proof.
  intros Hes Hok Hm. unfold extract_entry, sentences_of.
  rewrite extractor_speakers_snoc.
  unfold entry_ok, sentences_of in Hok. apply forallb_Forall in Hok.
  destruct (RawEntry.sentences entry) as [sentences|] eqn:Hss; cbn.
  - change (match m !! RawEntry.speakerId entry with
            | Some name => (name, m)
            | None => _
            end) with (assign_label "Speaker" (RawEntry.speakerId entry) m).
    destruct (assign_label_labelled "Speaker" _ m (RawEntry.speakerId entry) Hm)
      as [Hname Hm'].
    destruct (assign_label "Speaker" (RawEntry.speakerId entry) m) as [name m'].
    cbn in Hname, Hm'. subst name.
    rewrite extract_sentences_spec by done. cbn. exists m'. split; [|done].
    by rewrite (extractor_label_prefix es pre entry post) by (rewrite ?Hss; eauto).
  - exists m. by rewrite !app_nil_r.
Qed.

(** On a transcript whose sentence texts are absent, [null] or strings the
    extractor returns the conversation lines joined by line feeds. *)
Lemma extractConversationText_spec es :
  forallb entry_ok es = true →
  extractConversationText (TArray es)
  = Ok (JsString.join (String "010" EmptyString) (conversation_lines es)).
Proof.
  intros Hok. unfold extractConversationText.
  destruct (for_of_invariant
    (λ pre st,
       labelled "Speaker" (extractor_speakers pre) st.2
       ∧ st.1 = pre ≫= λ entry,
           sentences_of entry
             ≫= sentence_line (extractor_label es (RawEntry.speakerId entry)))
    extract_entry es ([], ∅)) as ([conversation m] & Hrun & _ & Hconv).
  - split; [apply labelled_empty | done].
  - intros pre entry post [conversation m] Hes [Hm Hconv]. cbn in Hm, Hconv.
    destruct (extract_entry_spec es pre entry post conversation m Hes
                (entries_ok_entry _ _ _ _ Hok Hes) Hm) as (m' & Hstep & Hm').
    eexists. split; [exact Hstep|]. cbn. split; [done|].
    rewrite bind_app, Hconv. cbn. by rewrite app_nil_r.
  - rewrite Hrun. cbn in Hconv |- *. by rewrite Hconv.
Qed.

(** The two copies of the extractor compute the same function. *)
Lemma extractConversationText_copies_agree transcriptArray :
  AiAnalysis.extractConversationText transcriptArray
  = extractConversationText transcriptArray.
Proof.
  destruct transcriptArray as [es|v]; [|done].
  unfold AiAnalysis.extractConversationText, extractConversationText.
  rewrite (for_of_ext AiAnalysis.extract_entry extract_entry); [done|].
  intros [conversation m] entry. unfold AiAnalysis.extract_entry, extract_entry.
  destruct (RawEntry.sentences entry); [|done].
  by destruct (m !! RawEntry.speakerId entry).
Qed.




(** ** Content Analyzer: the loops return *)

Lemma val_or_empty text :
  text_ok text = true → val_or text (VStr "") = VStr (text_string text).
Proof. destruct text as [| | | |[|c s]|]; done. Qed.

Lemma update_stat_present duration words speakerId stats :
  stat_present speakerId stats →
  ∃ stats', update_stat duration words speakerId stats = Ok stats'
            ∧ stat_present speakerId stats'.
Proof.
  intros Hpresent. unfold update_stat.
  destruct (stats !! speakerId) as [st|] eqn:Hst.
  - eexists. split; [done|]. left. rewrite lookup_insert_eq. eauto.
  - destruct Hpresent as [[? ?]|Hinh]; [congruence|]. rewrite Hinh.
    eexists. split; [done|]. by right.
Qed.

Lemma analyze_sentence_total entry analysis sentence :
  text_ok (RawSentence.text sentence) = true →
  stat_present (RawEntry.speakerId entry) (Analysis.speakerStats analysis) →
  ∃ analysis',
    analyze_sentence entry analysis sentence = Ok analysis'
    ∧ stat_present (RawEntry.speakerId entry) (Analysis.speakerStats analysis').
Proof.
  intros Hok Hpresent. unfold analyze_sentence.
  rewrite val_or_empty by done. cbn [split_length text_includes as_string mbind result_bind].
  destruct (update_stat_present (sentence_duration sentence)
              (length (JsString.split " " (text_string (RawSentence.text sentence))))
              _ _ Hpresent) as (stats' & -> & Hpresent').
  cbn [mbind result_bind].
  rewrite analyzeSentence_expected by done. cbn [mbind result_bind].
  eexists. split; [done|]. done.
Qed.

Lemma analyze_entry_total st entry :
  entry_ok entry = true → ∃ st', analyze_entry st entry = Ok st'.
Proof.
  intros Hok. destruct st as [analysis lastSpeaker]. unfold analyze_entry.
  destruct (RawEntry.sentences entry) as [sentences|] eqn:Hss; [|eauto].
  match goal with
  | |- ∃ _, mbind _ (for_of _ _ ?a0) = _ =>
      destruct (for_of_invariant
        (λ _ a, stat_present (RawEntry.speakerId entry) (Analysis.speakerStats a))
        (analyze_sentence entry) sentences a0) as (analysis' & Hrun & _)
  end.
  - cbn. unfold stat_missing, stat_present.
    destruct (Analysis.speakerStats analysis !! RawEntry.speakerId entry) eqn:Hst.
    + left. rewrite Hst. eauto.
    + destruct (JsObject.inherited (RawEntry.speakerId entry)); cbn.
      * by right.
      * left. rewrite lookup_insert_eq. eauto.
  - intros pre s post a Hsplit Hpresent.
    apply analyze_sentence_total; [|done].
    by eapply entry_ok_sentence.
  - rewrite Hrun. cbn. eauto.
Qed.

Lemma analyze_entries_total es st :
  forallb entry_ok es = true → ∃ st', for_of es analyze_entry st = Ok st'.
Proof.
  intros Hok.
  destruct (for_of_invariant (λ _ _, True) analyze_entry es st) as (st' & Hrun & _);
    [done| |eauto].
  intros pre entry post st1 Hes _.
  destruct (analyze_entry_total st1 entry) as [st2 Hst2]; [|eauto].
  by eapply entries_ok_entry.
Qed.

(** On a transcript whose sentence texts are absent, [null] or strings the
    analyzer returns a populated analysis. *)
Lemma analyzeTranscriptContent_total es :
  forallb entry_ok es = true →
  ∃ st analysis,
    for_of es analyze_entry (new_analysis, None) = Ok st
    ∧ analyzeTranscriptContent (TArray es) = Ok (Analytics analysis)
    ∧ Analysis.totalDuration analysis = Analysis.totalDuration st.1
    ∧ Analysis.totalWords analysis = Analysis.totalWords st.1
    ∧ Analysis.sentimentDistribution analysis = Analysis.sentimentDistribution st.1
    ∧ Analysis.topicFlow analysis = Analysis.topicFlow st.1
    ∧ Analysis.interactionMetrics analysis = Analysis.interactionMetrics st.1
    ∧ Analysis.speakerStats analysis
      = finish_stat (Analysis.totalDuration st.1) <$> Analysis.speakerStats st.1.
Proof.
  intros Hok. destruct (analyze_entries_total es (new_analysis, None) Hok) as [st Hst].
  exists st. eexists. split; [done|]. unfold analyzeTranscriptContent.
  rewrite Hst. cbn. split; [reflexivity|]. by cbn.
Qed.

(** ** Content Analyzer: topic flow *)

Lemma elem_of_first_occurrences x l : x ∈ first_occurrences l ↔ x ∈ l.
Proof.
  induction l as [|y l IH]; cbn; [done|].
  rewrite !elem_of_cons, list_elem_of_filter, IH.
  destruct (decide (x = y)); intuition congruence.
Qed.

Lemma NoDup_first_occurrences l : NoDup (first_occurrences l).
Proof.
  induction l as [|y l IH]; cbn; [constructor|].
  apply NoDup_cons. split; [|by apply NoDup_filter].
  rewrite list_elem_of_filter. tauto.
Qed.

Lemma first_occurrences_snoc l x :
  first_occurrences (l ++ [x])
  = if decide (x ∈ l) then first_occurrences l else first_occurrences l ++ [x].
Proof.
  induction l as [|y l IH]; cbn.
  - rewrite decide_False by apply not_elem_of_nil. done.
  - rewrite IH. destruct (decide (x ∈ l)) as [Hin|Hout].
    + rewrite decide_True by (by right). done.
    + rewrite filter_app. destruct (decide (x = y)) as [->|Hne].
      * rewrite decide_True by (by left).
        rewrite (filter_cons_False _ y) by tauto.
        by rewrite filter_nil, app_nil_r.
      * rewrite decide_False by (rewrite elem_of_cons; tauto).
        by rewrite (filter_cons_True _ x) by done.
Qed.

Lemma sentences_under_snoc topic rows row :
  sentences_under topic (rows ++ [row])
  = sentences_under topic rows ++ (if decide (row.1 = topic) then [row.2] else []).
Proof.
  unfold sentences_under. rewrite filter_app, fmap_app. f_equal.
  destruct (decide (row.1 = topic)).
  - by rewrite filter_cons_True.
  - by rewrite filter_cons_False.
Qed.

Lemma sentences_under_seen topic rows :
  topic ∈ rows.*1 → sentences_under topic rows ≠ [].
Proof.
  intros ([t s] & -> & Hrow)%list_elem_of_fmap. unfold sentences_under.
  intros Hnil%fmap_nil_inv.
  by apply (filter_nil_not_elem_of _ _ (t, s)) in Hnil.
Qed.

Lemma sentences_under_unseen topic rows :
  topic ∉ rows.*1 → sentences_under topic rows = [].
Proof.
  intros Hout. unfold sentences_under.
  destruct (filter (λ row, row.1 = topic) rows) as [|[t s] l] eqn:Hf; [done|].
  assert ((t, s) ∈ filter (λ row, row.1 = topic) rows) as [Ht Hin]%list_elem_of_filter
    by (rewrite Hf; by left).
  destruct Hout. apply list_elem_of_fmap. by exists (t, s).
Qed.

Lemma total_duration_snoc sentences sentence :
  total_duration (sentences ++ [sentence])
  = (total_duration sentences + sentence_duration sentence)%Qc.
Proof.
  unfold total_duration. induction sentences as [|s sentences IH]; cbn.
  - by rewrite Qcplus_0_r, Qcplus_0_l.
  - by rewrite IH, Qcplus_assoc.
Qed.

Lemma topic_record_other rows row topic :
  row.1 ≠ topic → topic_record (rows ++ [row]) topic = topic_record rows topic.
Proof.
  intros Hne. unfold topic_record.
  by rewrite sentences_under_snoc, decide_False, app_nil_r.
Qed.

Lemma topic_flow_topics rows :
  TopicRecord.topic <$> topic_flow rows = first_occurrences rows.*1.
Proof.
  unfold topic_flow. rewrite <- list_fmap_compose.
  rewrite <- (list_fmap_id (first_occurrences rows.*1)) at 2.
  by apply list_fmap_ext.
Qed.

(** Tracking one more sentence keeps the topic flow in step with the
    scanned rows. *)
Lemma track_row_topic_flow rows row :
  track_row (topic_flow rows) row = topic_flow (rows ++ [row]).
Proof.
  destruct row as [topic sentence]. unfold track_row, track_topic, topic_flow.
  cbn [fst snd]. rewrite fmap_app. change ([(topic, sentence)].*1) with [topic].
  rewrite first_occurrences_snoc, list_find_fmap.
  destruct (decide (topic ∈ rows.*1)) as [Hin|Hout].
  - apply elem_of_first_occurrences in Hin as Hfo.
    destruct (list_find_elem_of (λ x, x = topic) _ topic Hfo eq_refl) as [[i x] Hfind].
    erewrite (list_find_ext _ (λ x, x = topic)), Hfind by done. cbn.
    apply list_find_Some in Hfind as (Hi & -> & _).
    apply list_eq. intros j. destruct (decide (i = j)) as [<-|Hij].
    + rewrite list_lookup_insert_eq
        by (rewrite length_fmap; by eapply lookup_lt_Some).
      rewrite list_lookup_fmap, Hi. cbn. f_equal. unfold topic_record. cbn.
      rewrite sentences_under_snoc, decide_True by done. cbn. f_equal.
      * pose proof (sentences_under_seen _ _ Hin).
        by destruct (sentences_under topic rows).
      * by rewrite total_duration_snoc.
      * rewrite length_app. cbn. lia.
    + rewrite list_lookup_insert_ne by done. rewrite !list_lookup_fmap.
      destruct (first_occurrences rows.*1 !! j) as [y|] eqn:Hj; [|done]. cbn.
      f_equal. symmetry. apply (topic_record_other rows (topic, sentence)).
      cbn. intros <-. apply Hij.
      by apply (NoDup_lookup _ i j topic (NoDup_first_occurrences rows.*1)).
  - erewrite (list_find_ext _ (λ x, x = topic)) by done.
    assert (list_find (λ x, x = topic) (first_occurrences rows.*1) = None) as ->.
    { apply list_find_None, Forall_forall. intros x Hx ->. by apply (proj1 (elem_of_first_occurrences _ _)) in Hx. }
    cbn. rewrite fmap_app. cbn. f_equal.
    + apply list_fmap_ext. intros j y Hy. symmetry.
      apply (topic_record_other rows (topic, sentence)). cbn. intros <-.
      apply Hout, elem_of_first_occurrences. by eapply list_elem_of_lookup_2.
    + unfold topic_record. rewrite sentences_under_snoc, decide_True by done.
      rewrite sentences_under_unseen by done. cbn.
      by rewrite Qcplus_0_r.
Qed.

Lemma track_rows_topic_flow rows : foldl track_row [] rows = topic_flow rows.
Proof.
  induction rows as [|row rows IH] using rev_ind; [done|].
  by rewrite foldl_snoc, IH, track_row_topic_flow.
Qed.

Lemma topic_steps_rows entries topicFlow :
  foldl (λ topicFlow entry, foldl (topic_step entry) topicFlow (sentences_of entry))
    topicFlow entries
  = foldl track_row topicFlow (topic_rows entries).
Proof.
  revert topicFlow. induction entries as [|entry entries IH]; intros topicFlow; [done|].
  cbn [foldl]. rewrite IH. unfold topic_rows. cbn. rewrite foldl_app. f_equal.
  unfold topic_step.
  destruct (RawEntry.topic entry) as [topic|].
  - destruct (JsString.truthy topic).
    + generalize (sentences_of entry). intros sentences. revert topicFlow.
      induction sentences as [|s sentences IHs]; intros topicFlow; [done|]. cbn.
      by rewrite IHs.
    + generalize (sentences_of entry). intros sentences.
      by induction sentences.
  - generalize (sentences_of entry). intros sentences.
    by induction sentences.
Qed.

Lemma analyze_sentence_topicFlow entry analysis sentence analysis' :
  analyze_sentence entry analysis sentence = Ok analysis' →
  Analysis.topicFlow analysis'
  = topic_step entry (Analysis.topicFlow analysis) sentence.
Proof.
  intros H. unfold analyze_sentence in H. repeat inv_bind H.
  by injection H as <-.
Qed.

Lemma analyze_entry_topicFlow st entry st' :
  analyze_entry st entry = Ok st' →
  Analysis.topicFlow st'.1
  = foldl (topic_step entry) (Analysis.topicFlow st.1) (sentences_of entry).
Proof.
  destruct st as [analysis lastSpeaker]. unfold analyze_entry, sentences_of.
  destruct (RawEntry.sentences entry) as [sentences|]; [|by intros [= <-]].
  intros H. inv_bind H. injection H as <-. cbn.
  by rewrite (for_of_fold Analysis.topicFlow (topic_step entry) _ _ _ _
                (analyze_sentence_topicFlow entry) Hbind).
Qed.

(** The topic flow of the analyzer is the topic flow of the scanned rows. *)
Lemma analyze_entries_topicFlow es st :
  for_of es analyze_entry (new_analysis, None) = Ok st →
  Analysis.topicFlow st.1 = topic_flow (topic_rows es).
Proof.
  intros Hrun.
  rewrite (for_of_fold (λ st, Analysis.topicFlow st.1)
             (λ topicFlow entry, foldl (topic_step entry) topicFlow (sentences_of entry))
             _ _ _ _ analyze_entry_topicFlow Hrun).
  cbn. by rewrite topic_steps_rows, track_rows_topic_flow.
Qed.

(** C7. On a transcript whose sentence texts are absent, [null] or strings
    the analyzer's topic flow holds one record per distinct truthy topic of
    the scanned sentences, ordered by first occurrence; a record keeps the
    start of the topic's first sentence and accumulates the durations and
    the count of all sentences under the topic, adjacent or not. On the
    pricing sample the one pricing record has 2 mentions, 12 seconds, and
    the start of the first pricing sentence. *)
Theorem topic_flow_one_record_per_topic (entries : list RawEntry.t) :
  forallb entry_ok entries = true →
  (∃ analysis,
     analyzeTranscriptContent (TArray entries) = Ok (Analytics analysis)
     ∧ Analysis.topicFlow analysis = topic_flow (topic_rows entries)
     ∧ TopicRecord.topic <$> Analysis.topicFlow analysis
       = first_occurrences (topic_rows entries).*1
     ∧ NoDup (TopicRecord.topic <$> Analysis.topicFlow analysis))
  ∧ (∃ analysis pricing other,
       analyzeTranscriptContent (TArray pricing_call) = Ok (Analytics analysis)
       ∧ Analysis.topicFlow analysis = [pricing; other]
       ∧ TopicRecord.topic pricing = "pricing"
       ∧ TopicRecord.mentions pricing = 2
       ∧ TopicRecord.duration pricing = num 12
       ∧ TopicRecord.startTime pricing = num 1
       ∧ TopicRecord.topic other = "onboarding").
Proof.
  intros Hok. split.
  - destruct (analyzeTranscriptContent_total entries Hok)
      as (st & analysis & Hrun & Hresult & _ & _ & _ & Hflow & _).
    exists analysis. split; [done|].
    rewrite Hflow, (analyze_entries_topicFlow _ _ Hrun), topic_flow_topics.
    split_and!; [done..|]. apply NoDup_first_occurrences.
  - do 3 eexists. split; [vm_compute; reflexivity|].
    split_and!; try reflexivity; by apply Qc_is_canon.
Qed.

Lemma topic_flow_one_record_per_topic_witness :
  ∃ analysis,
    analyzeTranscriptContent (TArray pricing_call) = Ok (Analytics analysis)
    ∧ Analysis.topicFlow analysis = topic_flow (topic_rows pricing_call)
    ∧ TopicRecord.topic <$> Analysis.topicFlow analysis
      = first_occurrences (topic_rows pricing_call).*1
    ∧ NoDup (TopicRecord.topic <$> Analysis.topicFlow analysis).
Proof.
  apply (topic_flow_one_record_per_topic pricing_call). reflexivity.
Defined.

(** ** Arguments that are not arrays *)

(** C9, as stated, fails for the analyzer: on an argument that is not an
    array it returns the object without properties, not zeroed counters. *)
Lemma analyzer_non_array_counterexample :
  ¬ ∃ analysis, analyzeTranscriptContent (TOther VUndefined) = Ok (Analytics analysis).
Proof. by intros [analysis [=]]. Qed.

(** C9, amended. For every argument that is not an array the normalizer
    returns the empty sequence and the analyzer returns the empty object,
    neither raising an error. *)
Theorem non_array_argument_defaults (v : jsval) :
  processTranscriptEntries (TOther v) = Ok []
  ∧ analyzeTranscriptContent (TOther v) = Ok EmptyObject.
Proof. split; reflexivity. Qed.

(** ** Totality *)

(** A sentence whose text is truthy and not a string makes each of the
    three functions throw. *)
Lemma truthy_non_string_text_throws speakerId text :
  text_ok text = false → truthy text = true →
  processTranscriptEntries
    (TArray [spoken_entry speakerId None [bare_sentence text]]) = Throw TypeError
  ∧ analyzeTranscriptContent
      (TArray [spoken_entry speakerId None [bare_sentence text]]) = Throw TypeError
  ∧ extractConversationText
      (TArray [spoken_entry speakerId None [bare_sentence text]]) = Throw TypeError.
Proof.
  intros Hok Ht.
  assert (Hstring : as_string text = Throw TypeError) by (by destruct text).
  assert (Htrim : optional_trim text = Throw TypeError) by (by destruct text).
  split_and!.
  - unfold processTranscriptEntries. cbn [for_of spoken_entry bare_sentence normalize_entry
      RawEntry.sentences]. unfold normalize_sentence.
    destruct (getSpeakerName _ _) as [name m].
    change (RawSentence.text (bare_sentence text)) with text.
    by rewrite Ht; unfold split_length; rewrite Hstring.
  - unfold analyzeTranscriptContent. cbn [for_of analyze_entry spoken_entry bare_sentence
      RawEntry.sentences]. unfold analyze_sentence, val_or.
    change (RawSentence.text (bare_sentence text)) with text.
    by rewrite Ht; unfold split_length; rewrite Hstring.
  - unfold extractConversationText. cbn [for_of extract_entry spoken_entry bare_sentence
      RawEntry.sentences RawEntry.speakerId]. rewrite lookup_empty.
    cbn [for_of]. unfold extract_sentence.
    change (RawSentence.text (bare_sentence text)) with text.
    by rewrite Htrim.
Qed.

(** C10, as stated, fails: a sentence whose text is a number makes each of
    the three functions throw, and the extractor also throws on the falsy
    text [false], which the other two tolerate. *)
Lemma non_string_text_counterexample :
  processTranscriptEntries
    (TArray [spoken_entry "A" None [bare_sentence (VNum (num 5))]]) = Throw TypeError
  ∧ analyzeTranscriptContent
      (TArray [spoken_entry "A" None [bare_sentence (VNum (num 5))]]) = Throw TypeError
  ∧ extractConversationText
      (TArray [spoken_entry "A" None [bare_sentence (VNum (num 5))]]) = Throw TypeError
  ∧ extractConversationText
      (TArray [spoken_entry "A" None [bare_sentence (VBool false)]]) = Throw TypeError.
Proof. split_and!; reflexivity. Qed.

(** C10, amended. On every argument that is not an array, and on every
    array of entries whose sentence texts are absent, [null] or strings,
    the three pipeline functions and the second copy of the extractor
    return a result; none throws. *)
Theorem pipeline_total_on_string_texts (transcriptArray : transcript) :
  transcript_ok transcriptArray = true →
  (∃ utterances, processTranscriptEntries transcriptArray = Ok utterances)
  ∧ (∃ analytics, analyzeTranscriptContent transcriptArray = Ok analytics)
  ∧ (∃ text, extractConversationText transcriptArray = Ok text)
  ∧ (∃ text, AiAnalysis.extractConversationText transcriptArray = Ok text).
Proof.
  destruct transcriptArray as [entries|v]; cbn [transcript_ok]; intros Hok.
  - split_and!.
    + eexists. by apply processTranscriptEntries_spec.
    + destruct (analyzeTranscriptContent_total entries Hok)
        as (st & analysis & _ & Hresult & _). eauto.
    + eexists. by apply extractConversationText_spec.
    + eexists. rewrite extractConversationText_copies_agree.
      by apply extractConversationText_spec.
  - split_and!; eexists; reflexivity.
Qed.

Lemma pipeline_total_on_string_texts_witness :
  (∃ utterances,
     processTranscriptEntries
       (TArray [spoken_entry "A" None [bare_sentence VUndefined; bare_sentence (VStr "")]])
     = Ok utterances)
  ∧ (∃ analytics,
       analyzeTranscriptContent
         (TArray [spoken_entry "A" None [bare_sentence VUndefined; bare_sentence (VStr "")]])
       = Ok analytics)
  ∧ (∃ text,
       extractConversationText
         (TArray [spoken_entry "A" None [bare_sentence VUndefined; bare_sentence (VStr "")]])
       = Ok text)
  ∧ (∃ text,
       AiAnalysis.extractConversationText
         (TArray [spoken_entry "A" None [bare_sentence VUndefined; bare_sentence (VStr "")]])
       = Ok text).
Proof.
  apply (pipeline_total_on_string_texts
           (TArray [spoken_entry "A" None
                      [bare_sentence VUndefined; bare_sentence (VStr "")]])).
  reflexivity.
Defined.

(** ** Content Analyzer: speaker switches *)

Lemma for_of_preserves {A S} (P : S → Prop) (body : S → A → result S) xs s s' :
  (∀ s x s1, x ∈ xs → P s → body s x = Ok s1 → P s1) →
  P s → for_of xs body s = Ok s' → P s'.
Proof.
  revert s. induction xs as [|x xs IH]; intros s Hstep Hs; cbn.
  - by intros [= <-].
  - destruct (body s x) as [s1|] eqn:Hbody; cbn; [|done].
    apply IH.
    + intros s2 y s3 Hy. apply Hstep. by right.
    + eapply Hstep; [by left|done..].
Qed.

Lemma analyze_sentence_metrics entry analysis sentence analysis' :
  analyze_sentence entry analysis sentence = Ok analysis' →
  InteractionMetrics.speakerSwitches (Analysis.interactionMetrics analysis')
  = InteractionMetrics.speakerSwitches (Analysis.interactionMetrics analysis).
Proof.
  intros H. unfold analyze_sentence in H. repeat inv_bind H.
  by injection H as <-.
Qed.

Lemma analyze_entry_switches st entry st' :
  analyze_entry st entry = Ok st' →
  (InteractionMetrics.speakerSwitches (Analysis.interactionMetrics st'.1), st'.2)
  = switch_step
      (InteractionMetrics.speakerSwitches (Analysis.interactionMetrics st.1), st.2)
      entry.
Proof.
  destruct st as [analysis lastSpeaker]. unfold analyze_entry, switch_step.
  destruct (RawEntry.sentences entry) as [sentences|]; [|by intros [= <-]].
  intros H. inv_bind H. injection H as <-. cbn. f_equal.
  apply (for_of_preserves
           (λ a, InteractionMetrics.speakerSwitches (Analysis.interactionMetrics a)
                 = InteractionMetrics.speakerSwitches (Analysis.interactionMetrics analysis)
                   + (if is_switch lastSpeaker (RawEntry.speakerId entry) then 1 else 0))
           _ _ _ _) in Hbind; [done| |done].
  intros a0 s a1 _ Ha Hstep. by rewrite (analyze_sentence_metrics _ _ _ _ Hstep).
Qed.

Lemma switch_steps_specified entries n previous :
  Forall (λ entry, is_Some (RawEntry.sentences entry) →
                   RawEntry.speakerId entry ≠ "") entries →
  previous ≠ Some "" →
  (foldl switch_step (n, previous) entries).1 = n + switches_after previous entries.
Proof.
  intros Hids. revert n previous.
  induction Hids as [|entry entries Hid _ IH]; intros n previous Hprevious; cbn.
  - lia.
  - unfold switch_step at 2. cbn.
    destruct (RawEntry.sentences entry) as [sentences|]; [|by apply IH].
    rewrite IH by (intros [= Heq]; by apply Hid).
    assert (is_switch previous (RawEntry.speakerId entry)
            = match previous with
              | Some last =>
                  if decide (last = RawEntry.speakerId entry) then false else true
              | None => false
              end) as ->.
    { destruct previous as [last|]; [|done]. cbn.
      destruct last as [|c last]; [done|]. cbn [JsString.truthy andb].
      destruct (decide (String c last = RawEntry.speakerId entry)) as [<-|Hne].
      - by rewrite String.eqb_refl.
      - by apply String.eqb_neq in Hne as ->. }
    destruct previous as [last|]; [|lia]. case_decide; lia.
Qed.

(** X9. Where no entry with a sentences array has the empty string as its
    speaker, the analyzer counts the switches as specified: one for every
    entry with a sentences array whose speaker differs from the speaker of
    the entry with a sentences array before it. *)
Lemma speaker_switches_specified entries :
  forallb entry_ok entries = true →
  Forall (λ entry, is_Some (RawEntry.sentences entry) →
                   RawEntry.speakerId entry ≠ "") entries →
  ∃ analysis,
    analyzeTranscriptContent (TArray entries) = Ok (Analytics analysis)
    ∧ InteractionMetrics.speakerSwitches (Analysis.interactionMetrics analysis)
      = specified_switches entries.
Proof.
  intros Hok Hids.
  destruct (analyzeTranscriptContent_total entries Hok)
    as (st & analysis & Hrun & Hresult & _ & _ & _ & _ & Hmetrics & _).
  exists analysis. split; [done|]. rewrite Hmetrics.
  pose proof (for_of_fold
    (λ st, (InteractionMetrics.speakerSwitches (Analysis.interactionMetrics st.1), st.2))
    switch_step _ _ _ _ analyze_entry_switches Hrun) as Hfold.
  cbn in Hfold. apply (f_equal fst) in Hfold. cbn in Hfold. rewrite Hfold.
  by rewrite switch_steps_specified.
Qed.

(** C6 fails on the code. After an entry whose speakerId is the empty
    string the analyzer counts no switch to the next speaker, although the
    speakers differ: [lastSpeaker && ...] takes the empty string for the
    initial [null]. *)
Theorem speaker_switch_missed_after_empty_id :
  ∃ analysis,
    analyzeTranscriptContent (TArray anonymous_call) = Ok (Analytics analysis)
    ∧ InteractionMetrics.speakerSwitches (Analysis.interactionMetrics analysis) = 0
    ∧ specified_switches anonymous_call = 1.
Proof. eexists. split_and!; [vm_compute; reflexivity | reflexivity..]. Qed.

(** ** Content Analyzer: talk time *)







(** X11. The talk-time percentage of every speaker is its share of the
    total duration, and 0 when the total duration is 0. *)
Lemma talk_time_percentage entries :
  forallb entry_ok entries = true →
  ∃ analysis,
    analyzeTranscriptContent (TArray entries) = Ok (Analytics analysis)
    ∧ ∀ id stats, Analysis.speakerStats analysis !! id = Some stats →
        ((0 < Analysis.totalDuration analysis)%Qc →
         SpeakerStat.talkTimePercentage stats
         = Some (SpeakerStat.totalTime stats / Analysis.totalDuration analysis
                 * num 100)%Qc)
        ∧ (Analysis.totalDuration analysis = 0%Qc →
           SpeakerStat.talkTimePercentage stats = Some 0%Qc).
Proof.
  intros Hok.
  destruct (analyzeTranscriptContent_total entries Hok)
    as (st & analysis & Hrun & Hresult & Hduration & _ & _ & _ & _ & Hstats).
  exists analysis. split; [done|]. intros id stats. rewrite Hstats, Hduration.
  rewrite lookup_fmap. intros (stats0 & _ & ->)%fmap_Some. cbn.
  unfold JsNumber.gt. split.
  - intros Hpos. destruct (Qle_bool _ _) eqn:Hle; [|done].
    apply Qle_bool_iff in Hle. by apply Qclt_not_le in Hpos.
  - by intros ->.
Qed.

(** C2 fails on the code. A speaker whose id names a property that the
    object literal inherits from [Object.prototype] never gets an entry in
    [speakerStats]: its sentences count towards [totalDuration], its talk
    time is written on the inherited object, and the sum over the speakers
    falls short of the total duration. *)
Theorem talk_time_lost_on_inherited_name :
  ∃ analysis,
    analyzeTranscriptContent
      (TArray [spoken_entry "constructor" None [timed_sentence "Hi there" 1000 3000]])
    = Ok (Analytics analysis)
    ∧ Analysis.totalDuration analysis = num 2
    ∧ Analysis.speakerStats analysis = ∅
    ∧ total_talk_time (Analysis.speakerStats analysis) = 0%Qc
    ∧ total_talk_time (Analysis.speakerStats analysis) ≠ Analysis.totalDuration analysis.
Proof.
  eexists. split; [vm_compute; reflexivity|]. cbn [Analysis.totalDuration Analysis.speakerStats].
  split_and!.
  - by apply Qc_is_canon.
  - reflexivity.
  - reflexivity.
  - intros H. apply (f_equal this) in H. vm_compute in H. discriminate.
Qed.

(** ** Normalizer and analyzer, sentence by sentence *)

Lemma analyzeSentence_falsy text :
  truthy text = false → analyzeSentence text = Ok Neutral.
Proof. intros Ht. unfold analyzeSentence. by rewrite Ht. Qed.

(** For one sentence the analyzer adds to its totals the duration and the
    sentiment that the normalizer records in the utterance, and the
    utterance's word count when the text is truthy; for a falsy text the
    utterance's word count is 0 and the analyzer adds 1. *)
Lemma sentence_metrics_agree entry us m sentence st analysis analysis' :
  normalize_sentence entry (us, m) sentence = Ok st →
  analyze_sentence entry analysis sentence = Ok analysis' →
  ∃ u,
    st.1 = us ++ [u]
    ∧ Analysis.totalDuration analysis'
      = (Analysis.totalDuration analysis + Utterance.duration u)%Qc
    ∧ Analysis.sentimentDistribution analysis'
      = count_sentiment (Utterance.sentiment u) (Analysis.sentimentDistribution analysis)
    ∧ Analysis.totalWords analysis'
      = Analysis.totalWords analysis
        + (if truthy (RawSentence.text sentence) then Utterance.wordCount u else 1)
    ∧ (truthy (RawSentence.text sentence) = false → Utterance.wordCount u = 0).
Proof.
  intros Hn Ha. unfold normalize_sentence in Hn.
  destruct (getSpeakerName (RawEntry.speakerId entry) m) as [name m'].
  unfold analyze_sentence, val_or in Ha.
  destruct (truthy (RawSentence.text sentence)) eqn:Ht.
  - inv_bind Hn. inv_bind Hn. injection Hn as <-.
    repeat inv_bind Ha. injection Ha as <-.
    eexists. split; [reflexivity|]. cbn.
    split_and!; [done|congruence|congruence|done].
  - rewrite (analyzeSentence_falsy _ Ht) in Hn. cbn in Hn. injection Hn as <-.
    cbn in Ha. inv_bind Ha. injection Ha as <-.
    eexists. split; [reflexivity|]. cbn. by split_and!.
Qed.

(** C1 fails on the code. For a sentence without text, and likewise for an
    empty text, the normalizer records 0 words while the analyzer adds 1
    word to its totals: [''.split(' ')] has one element. Duration and
    sentiment agree. *)
Theorem word_count_disagrees_on_missing_text :
  (∃ u analysis,
     processTranscriptEntries
       (TArray [spoken_entry "A" None
                  [{| RawSentence.text := VUndefined;
                      RawSentence.start := Some (num 1000);
                      RawSentence.end_ := Some (num 3000) |}]])
     = Ok [u]
     ∧ analyzeTranscriptContent
         (TArray [spoken_entry "A" None
                    [{| RawSentence.text := VUndefined;
                        RawSentence.start := Some (num 1000);
                        RawSentence.end_ := Some (num 3000) |}]])
       = Ok (Analytics analysis)
     ∧ Utterance.wordCount u = 0
     ∧ Analysis.totalWords analysis = 1
     ∧ Utterance.duration u = Analysis.totalDuration analysis
     ∧ Utterance.sentiment u = Neutral
     ∧ SentimentDistribution.neutral (Analysis.sentimentDistribution analysis) = 1)
  ∧ (∃ u analysis,
       processTranscriptEntries (TArray [spoken_entry "A" None [bare_sentence (VStr "")]])
       = Ok [u]
       ∧ analyzeTranscriptContent (TArray [spoken_entry "A" None [bare_sentence (VStr "")]])
         = Ok (Analytics analysis)
       ∧ Utterance.wordCount u = 0
       ∧ Analysis.totalWords analysis = 1).
Proof.
  split.
  - do 2 eexists. split; [vm_compute; reflexivity|].
    split; [vm_compute; reflexivity|].
    split_and!; try reflexivity. by apply Qc_is_canon.
  - do 2 eexists. split_and!; reflexivity.
Qed.

(** * Further properties of the pipeline *)

(** ** Letter case *)

Lemma lower_ascii_idempotent c :
  JsString.lower_ascii (JsString.lower_ascii c) = JsString.lower_ascii c.
Proof. by destruct c as [[] [] [] [] [] [] [] []]. Qed.

Lemma toLowerCase_idempotent s :
  JsString.toLowerCase (JsString.toLowerCase s) = JsString.toLowerCase s.
Proof. induction s as [|c s IH]; cbn; [done|]. by rewrite lower_ascii_idempotent, IH. Qed.

Lemma toLowerCase_truthy s :
  JsString.truthy (JsString.toLowerCase s) = JsString.truthy s.
Proof. by destruct s. Qed.

(** X1. The classifier ignores letter case: two texts with the same
    lower-case form get the same verdict. *)
Theorem analyzeSentence_ignores_case (text1 text2 : string) :
  JsString.toLowerCase text1 = JsString.toLowerCase text2 →
  analyzeSentence (VStr text1) = analyzeSentence (VStr text2).
Proof.
  intros Hlower. destruct text1 as [|c1 text1], text2 as [|c2 text2]; try done.
  unfold analyzeSentence. cbn [truthy JsString.truthy negb as_string mbind result_bind].
  by rewrite Hlower.
Qed.

Lemma analyzeSentence_ignores_case_witness :
  analyzeSentence (VStr "This is GREAT") = analyzeSentence (VStr "this is Great").
Proof. apply (analyzeSentence_ignores_case "This is GREAT" "this is Great"). reflexivity. Defined.

(** ** Malformed texts *)

Lemma for_of_throws {A S} (body : S → A → result S) xs x s :
  x ∈ xs → (∀ s, body s x = Throw TypeError) →
  for_of xs body s = Throw TypeError.
Proof.
  intros Hx Hbody. revert s.
  induction Hx as [x xs|x y xs Hx IH]; intros s; cbn [for_of].
  - by rewrite Hbody.
  - destruct (body s y) as [s'|[]]; cbn [mbind result_bind]; [by apply IH | done].
Qed.

Lemma normalize_sentence_throws entry st sentence :
  text_ok (RawSentence.text sentence) = false →
  truthy (RawSentence.text sentence) = true →
  normalize_sentence entry st sentence = Throw TypeError.
Proof.
  intros Hok Ht. destruct st as [us m]. unfold normalize_sentence.
  destruct (getSpeakerName _ _) as [name m']. rewrite Ht.
  by destruct (RawSentence.text sentence).
Qed.

Lemma analyze_sentence_throws entry analysis sentence :
  text_ok (RawSentence.text sentence) = false →
  truthy (RawSentence.text sentence) = true →
  analyze_sentence entry analysis sentence = Throw TypeError.
Proof.
  intros Hok Ht. unfold analyze_sentence, val_or. rewrite Ht.
  by destruct (RawSentence.text sentence).
Qed.

Lemma extract_sentence_throws speakerName conversation sentence :
  text_ok (RawSentence.text sentence) = false →
  extract_sentence speakerName conversation sentence = Throw TypeError.
Proof.
  intros Hok. unfold extract_sentence.
  by destruct (RawSentence.text sentence).
Qed.

(** X2. One sentence whose text is truthy and not a string, anywhere in
    the transcript, makes the normalizer, the analyzer and the extractor
    throw: none of them returns a partial result. *)
Theorem one_malformed_text_fails_the_transcript
    (entries : list RawEntry.t) (entry : RawEntry.t)
    (sentences : list RawSentence.t) (sentence : RawSentence.t) :
  entry ∈ entries →
  RawEntry.sentences entry = Some sentences →
  sentence ∈ sentences →
  text_ok (RawSentence.text sentence) = false →
  truthy (RawSentence.text sentence) = true →
  processTranscriptEntries (TArray entries) = Throw TypeError
  ∧ analyzeTranscriptContent (TArray entries) = Throw TypeError
  ∧ extractConversationText (TArray entries) = Throw TypeError.
Proof.
  intros Hentry Hss Hsentence Hok Ht. split_and!.
  - unfold processTranscriptEntries.
    rewrite (for_of_throws normalize_entry entries entry); [done..|].
    intros st. unfold normalize_entry. rewrite Hss.
    apply (for_of_throws _ _ sentence); [done|].
    intros st'. by apply normalize_sentence_throws.
  - unfold analyzeTranscriptContent.
    rewrite (for_of_throws analyze_entry entries entry); [done..|].
    intros [analysis lastSpeaker]. unfold analyze_entry. rewrite Hss.
    rewrite (for_of_throws _ _ sentence); [done..|].
    intros analysis'. by apply analyze_sentence_throws.
  - unfold extractConversationText.
    rewrite (for_of_throws extract_entry entries entry); [done..|].
    intros [conversation m]. unfold extract_entry. rewrite Hss.
    destruct (m !! RawEntry.speakerId entry);
      by rewrite (for_of_throws _ _ sentence) by
        (done || intros; by apply extract_sentence_throws).
Qed.

Lemma one_malformed_text_fails_the_transcript_witness :
  processTranscriptEntries
    (TArray [spoken_entry "A" None [bare_sentence (VStr "Hello")];
             spoken_entry "B" None [bare_sentence (VStr "Hi"); bare_sentence VObject]])
  = Throw TypeError
  ∧ analyzeTranscriptContent
      (TArray [spoken_entry "A" None [bare_sentence (VStr "Hello")];
               spoken_entry "B" None [bare_sentence (VStr "Hi"); bare_sentence VObject]])
    = Throw TypeError
  ∧ extractConversationText
      (TArray [spoken_entry "A" None [bare_sentence (VStr "Hello")];
               spoken_entry "B" None [bare_sentence (VStr "Hi"); bare_sentence VObject]])
    = Throw TypeError.
Proof.
  apply (one_malformed_text_fails_the_transcript
           [spoken_entry "A" None [bare_sentence (VStr "Hello")];
            spoken_entry "B" None [bare_sentence (VStr "Hi"); bare_sentence VObject]]
           (spoken_entry "B" None [bare_sentence (VStr "Hi"); bare_sentence VObject])
           [bare_sentence (VStr "Hi"); bare_sentence VObject]
           (bare_sentence VObject)).
  - right. left.
  - reflexivity.
  - right. left.
  - reflexivity.
  - reflexivity.
Defined.

(** ** Speaker labels *)

Lemma of_Z_inj z1 z2 : JsString.of_Z z1 = JsString.of_Z z2 → z1 = z2.
Proof.
  unfold JsString.of_Z. intros Heq.
  assert (Hnonnil : ∀ z, Z.to_int z ≠ Decimal.Pos Decimal.Nil
                         ∧ Z.to_int z ≠ Decimal.Neg Decimal.Nil).
  { intros [|p|p]; cbn; split; try done; intros [= Hp];
      by apply DecimalPos.Unsigned.to_uint_nonnil in Hp. }
  apply DecimalZ.to_int_inj.
  destruct (Hnonnil z1) as [Hp1 Hn1], (Hnonnil z2) as [Hp2 Hn2].
  pose proof (NilZero.isi _ Hp1 Hn1) as H1.
  pose proof (NilZero.isi _ Hp2 Hn2) as H2.
  rewrite Heq, H2 in H1. by injection H1.
Qed.

Lemma of_nat_inj n1 n2 : JsString.of_nat n1 = JsString.of_nat n2 → n1 = n2.
Proof. unfold JsString.of_nat. intros Heq%of_Z_inj. lia. Qed.

Lemma first_seen_number_unseen ids id : id ∉ ids → first_seen_number ids id = 0.
Proof.
  intros Hid. unfold first_seen_number.
  assert (list_find (λ x, x = id) ids = None) as ->; [|done].
  apply list_find_None, Forall_forall. by intros x Hx ->.
Qed.

Lemma first_seen_number_seen ids id : id ∈ ids → 0 < first_seen_number ids id.
Proof.
  intros Hid. unfold first_seen_number.
  destruct (list_find_elem_of (λ x, x = id) ids id Hid eq_refl) as [[i x] Hfind].
  rewrite Hfind. apply list_find_Some in Hfind as (Hi & -> & _).
  rewrite (take_S_r _ _ _ Hi). unfold distinct_count.
  rewrite list_to_set_snoc_L.
  assert (0 < size ({[id]} : gset string)) by (rewrite size_singleton; lia).
  assert (({[id]} : gset string) ⊆ list_to_set (take i ids) ∪ {[id]}) as Hsub%subseteq_size
    by set_solver.
  lia.
Qed.

(** An id first seen later has a larger number. *)
Lemma first_seen_number_lt ids i j a b :
  list_find (λ x, x = a) ids = Some (i, a) →
  list_find (λ x, x = b) ids = Some (j, b) →
  i < j → first_seen_number ids a < first_seen_number ids b.
Proof.
  intros Ha Hb Hij. unfold first_seen_number. rewrite Ha, Hb.
  apply list_find_Some in Hb as (Hj & _ & Hfirst).
  rewrite (take_S_r _ j b Hj), distinct_count_snoc_fresh.
  - assert (distinct_count (take (S i) ids) ≤ distinct_count (take j ids)); [|lia].
    unfold distinct_count. apply subseteq_size.
    intros x. rewrite !elem_of_list_to_set, !elem_of_take.
    intros (k & Hk & Hlt). exists k. split; [done|lia].
  - intros (k & Hk & Hlt)%elem_of_take. by eapply Hfirst.
Qed.

Lemma first_seen_number_inj ids a b :
  a ∈ ids → b ∈ ids → first_seen_number ids a = first_seen_number ids b → a = b.
Proof.
  intros Ha Hb Heq.
  destruct (list_find_elem_of (λ x, x = a) ids a Ha eq_refl) as [[i x] Hfa].
  destruct (list_find_elem_of (λ x, x = b) ids b Hb eq_refl) as [[j y] Hfb].
  assert (x = a) as -> by (by apply list_find_Some in Hfa as (_ & -> & _)).
  assert (y = b) as -> by (by apply list_find_Some in Hfb as (_ & -> & _)).
  destruct (Nat.lt_trichotomy i j) as [Hlt|[->|Hlt]].
  - pose proof (first_seen_number_lt _ _ _ _ _ Hfa Hfb Hlt). lia.
  - apply list_find_Some in Hfa as (Hia & _). apply list_find_Some in Hfb as (Hib & _).
    congruence.
  - pose proof (first_seen_number_lt _ _ _ _ _ Hfb Hfa Hlt). lia.
Qed.

Lemma elem_of_normalized entries u :
  u ∈ normalized entries →
  Utterance.speakerName u = speaker_label entries (Utterance.speakerId u)
  ∧ Utterance.speakerId u ∈ emitted_speakers entries.
Proof.
  unfold normalized, emitted_speakers.
  generalize (speaker_label entries). intros label.
  intros (entry & Hu & Hentry)%list_elem_of_bind.
  assert (Utterance.speakerName u = label (RawEntry.speakerId entry)
          ∧ Utterance.speakerId u = RawEntry.speakerId entry
          ∧ entry_utterances "" entry ≠ []) as (Hname & Hid & Hsome).
  { unfold entry_utterances in *.
    destruct (RawEntry.sentences entry) as [sentences|].
    - apply list_elem_of_fmap in Hu as (s & -> & Hs). split_and!; [done..|].
      destruct sentences; [by apply not_elem_of_nil in Hs | done].
    - apply list_elem_of_singleton in Hu as ->. by split_and!. }
  rewrite Hid. split; [done|].
  apply list_elem_of_bind. exists entry. split; [|done].
  apply elem_of_replicate. split; [done|].
  by destruct (entry_utterances "" entry).
Qed.

(** X3. In the normalized transcript two utterances carry the same speaker
    label exactly when they have the same speaker id: speakers never share
    a label, and no speaker has two. *)
Theorem speaker_labels_identify_speakers (entries : list RawEntry.t) :
  forallb entry_ok entries = true →
  ∃ utterances,
    processTranscriptEntries (TArray entries) = Ok utterances
    ∧ ∀ u1 u2, u1 ∈ utterances → u2 ∈ utterances →
        (Utterance.speakerName u1 = Utterance.speakerName u2
         ↔ Utterance.speakerId u1 = Utterance.speakerId u2).
Proof.
  intros Hok. exists (normalized entries).
  split; [by apply processTranscriptEntries_spec|].
  intros u1 u2 [Hname1 Hin1]%elem_of_normalized [Hname2 Hin2]%elem_of_normalized.
  rewrite Hname1, Hname2. unfold speaker_label. split.
  - intros Heq%(inj (String.app "Speaker "))%of_nat_inj.
    by apply (first_seen_number_inj (emitted_speakers entries)).
  - by intros ->.
Qed.

Lemma speaker_labels_identify_speakers_witness :
  ∃ utterances,
    processTranscriptEntries
      (TArray [spoken_entry "A" None [bare_sentence (VStr "Hello")];
               legacy_entry "B" (Some "Hi") None;
               spoken_entry "A" None [bare_sentence (VStr "Bye")]])
    = Ok utterances
    ∧ ∀ u1 u2, u1 ∈ utterances → u2 ∈ utterances →
        (Utterance.speakerName u1 = Utterance.speakerName u2
         ↔ Utterance.speakerId u1 = Utterance.speakerId u2).
Proof.
  apply (speaker_labels_identify_speakers
           [spoken_entry "A" None [bare_sentence (VStr "Hello")];
            legacy_entry "B" (Some "Hi") None;
            spoken_entry "A" None [bare_sentence (VStr "Bye")]]).
  reflexivity.
Defined.

(** Lists with the same ids and the same numbering keep both when a
    speaker is appended once to the one and several times to the other. *)
Lemma first_seen_number_repeat ids1 ids2 x n id :
  (∀ y, y ∈ ids1 ↔ y ∈ ids2) →
  (∀ y, first_seen_number ids1 y = first_seen_number ids2 y) →
  first_seen_number (ids1 ++ replicate (S n) x) id
  = first_seen_number (ids2 ++ [x]) id.
Proof.
  intros Hsame Hnumber.
  destruct (decide (id ∈ ids1)) as [Hin|Hout].
  - rewrite !first_seen_number_app by (done || by apply Hsame). apply Hnumber.
  - destruct (decide (id = x)) as [->|Hne].
    + rewrite replicate_S, cons_middle, app_assoc, first_seen_number_app
        by (apply elem_of_app; right; by left).
      rewrite !first_seen_number_snoc_fresh by (done || by rewrite <- Hsame).
      f_equal. unfold distinct_count. f_equal. apply set_eq. intros y.
      by rewrite !elem_of_list_to_set.
    + rewrite !first_seen_number_unseen; [done|..].
      * rewrite elem_of_app, <- Hsame, list_elem_of_singleton. tauto.
      * rewrite elem_of_app, elem_of_replicate. tauto.
Qed.

Lemma speakers_numbered_alike entries :
  Forall (λ entry, ∃ s ss, RawEntry.sentences entry = Some (s :: ss)) entries →
  (∀ y, y ∈ emitted_speakers entries ↔ y ∈ extractor_speakers entries)
  ∧ ∀ y, first_seen_number (emitted_speakers entries) y
         = first_seen_number (extractor_speakers entries) y.
Proof.
  induction entries as [|entry entries IH] using rev_ind; [done|].
  intros [Hentries Hentry]%Forall_app.
  apply Forall_cons in Hentry as [(s & ss & Hss) _].
  destruct (IH Hentries) as [Hsame Hnumber].
  rewrite emitted_speakers_app, extractor_speakers_snoc, Hss.
  assert (emitted_speakers [entry]
          = replicate (S (length ss)) (RawEntry.speakerId entry)) as ->.
  { unfold emitted_speakers, entry_utterances. cbn. rewrite Hss. cbn.
    by rewrite length_fmap, app_nil_r. }
  split.
  - intros y. rewrite !elem_of_app, Hsame, elem_of_replicate, list_elem_of_singleton.
    intuition lia.
  - intros y. by apply first_seen_number_repeat.
Qed.

(** X4. When every entry has a non-empty sentences array, the normalizer
    and the extractor number the speakers alike: the utterances of a
    speaker are labelled "Speaker N" and its lines "SpeakerN" with the same
    N. *)
Theorem normalizer_and_extractor_number_alike (entries : list RawEntry.t) :
  forallb entry_ok entries = true →
  Forall (λ entry, ∃ s ss, RawEntry.sentences entry = Some (s :: ss)) entries →
  processTranscriptEntries (TArray entries) = Ok (normalized entries)
  ∧ extractConversationText (TArray entries)
    = Ok (JsString.join (String "010" EmptyString) (conversation_lines entries))
  ∧ ∀ speakerId, ∃ n,
      speaker_label entries speakerId = "Speaker " +:+ JsString.of_nat n
      ∧ extractor_label entries speakerId = "Speaker" +:+ JsString.of_nat n.
Proof.
  intros Hok Hsentences. split_and!.
  - by apply processTranscriptEntries_spec.
  - by apply extractConversationText_spec.
  - intros speakerId. destruct (speakers_numbered_alike entries Hsentences) as [_ Hnumber].
    exists (first_seen_number (emitted_speakers entries) speakerId).
    split; [done|]. unfold extractor_label. by rewrite Hnumber.
Qed.

Lemma normalizer_and_extractor_number_alike_witness :
  ∃ n,
    speaker_label pricing_call "B" = "Speaker " +:+ JsString.of_nat n
    ∧ extractor_label pricing_call "B" = "Speaker" +:+ JsString.of_nat n.
Proof.
  assert (Hsentences :
            Forall (λ entry, ∃ s ss, RawEntry.sentences entry = Some (s :: ss))
              pricing_call) by (repeat constructor; eauto).
  destruct (normalizer_and_extractor_number_alike pricing_call eq_refl Hsentences)
    as (_ & _ & Hlabels).
  exact (Hlabels "B").
Defined.

(** ** Content Analyzer: totals *)

Lemma foldl_bind {A B C} (f : A → C → A) (g : B → list C) (a : A) (l : list B) :
  foldl f a (l ≫= g) = foldl (λ a x, foldl f a (g x)) a l.
Proof.
  revert a. induction l as [|x l IH]; intros a; [done|].
  cbn. by rewrite foldl_app, IH.
Qed.

Lemma analyze_sentence_tally entry analysis sentence analysis' :
  analyze_sentence entry analysis sentence = Ok analysis' →
  tally_of analysis' = tally_step (tally_of analysis) sentence.
Proof.
  intros H. unfold analyze_sentence in H. unfold tally_step, analyzed_text.
  destruct (val_or (RawSentence.text sentence) (VStr "")) as [| | | |text|];
    try discriminate H.
  cbn [split_length text_includes as_string mbind result_bind] in H.
  inv_bind H. inv_bind H. injection H as <-.
  unfold tally_of, expected_sentiment. cbn. by rewrite Hbind0.
Qed.

Lemma analyze_entry_tally st entry st' :
  analyze_entry st entry = Ok st' →
  tally_of st'.1 = foldl tally_step (tally_of st.1) (sentences_of entry).
Proof.
  destruct st as [analysis lastSpeaker]. unfold analyze_entry, sentences_of.
  destruct (RawEntry.sentences entry) as [sentences|]; [|by intros [= <-]].
  intros H. inv_bind H. injection H as <-. cbn.
  by rewrite (for_of_fold tally_of tally_step _ _ _ _ (analyze_sentence_tally entry) Hbind).
Qed.

Lemma analyze_entries_tally entries st :
  for_of entries analyze_entry (new_analysis, None) = Ok st →
  tally_of st.1 = foldl tally_step (tally_of new_analysis) (scanned_sentences entries).
Proof.
  intros Hrun. unfold scanned_sentences. rewrite foldl_bind.
  exact (for_of_fold (λ st, tally_of st.1)
           (λ t entry, foldl tally_step t (sentences_of entry))
           _ _ _ _ analyze_entry_tally Hrun).
Qed.

Lemma tally_steps_duration t sentences :
  tally_duration (foldl tally_step t sentences)
  = (tally_duration t + total_duration sentences)%Qc.
Proof.
  revert t. induction sentences as [|s sentences IH]; intros t; cbn.
  - by rewrite Qcplus_0_r.
  - rewrite IH. cbn. by rewrite Qcplus_assoc.
Qed.

Lemma tally_steps_words t sentences :
  tally_words (foldl tally_step t sentences)
  = tally_words t
    + foldr (λ s acc, length (JsString.split " " (analyzed_text s)) + acc) 0 sentences.
Proof.
  revert t. induction sentences as [|s sentences IH]; intros t; cbn; [lia|].
  rewrite IH. cbn. lia.
Qed.

Lemma bucket_count_sentiment sentiment counted d :
  bucket sentiment (count_sentiment counted d)
  = bucket sentiment d + (if decide (counted = sentiment) then 1 else 0).
Proof.
  destruct d, sentiment, counted; case_decide; try done;
    unfold count_sentiment; cbn; lia.
Qed.

Lemma tally_steps_sentiments sentiment t sentences :
  bucket sentiment (tally_sentiments (foldl tally_step t sentences))
  = bucket sentiment (tally_sentiments t)
    + length (filter (λ s, expected_sentiment (VStr (analyzed_text s)) = sentiment)
                sentences).
Proof.
  revert t. induction sentences as [|s sentences IH]; intros t; [cbn; lia|].
  cbn [foldl]. rewrite IH. cbn [tally_step tally_sentiments].
  rewrite bucket_count_sentiment, filter_cons.
  repeat case_decide; try done; cbn [length]; lia.
Qed.

Lemma tally_steps_marks t sentences :
  tally_questions (foldl tally_step t sentences)
  = tally_questions t
    + length (filter (λ s, JsString.includes (analyzed_text s) "?" = true) sentences)
  ∧ tally_exclamations (foldl tally_step t sentences)
    = tally_exclamations t
      + length (filter (λ s, JsString.includes (analyzed_text s) "!" = true) sentences).
Proof.
  revert t. induction sentences as [|s sentences IH]; intros t; [cbn; lia|].
  cbn [foldl]. destruct (IH (tally_step t s)) as [-> ->].
  cbn [tally_step tally_questions tally_exclamations].
  rewrite !filter_cons.
  destruct (JsString.includes (analyzed_text s) "?"),
           (JsString.includes (analyzed_text s) "!");
    repeat case_decide; try done; cbn [length]; lia.
Qed.

(** ** Utterances and totals *)

Lemma utterance_time_app us1 us2 :
  utterance_time (us1 ++ us2) = (utterance_time us1 + utterance_time us2)%Qc.
Proof.
  unfold utterance_time. induction us1 as [|u us1 IH]; cbn.
  - by rewrite Qcplus_0_l.
  - by rewrite IH, Qcplus_assoc.
Qed.

Lemma total_duration_app ss1 ss2 :
  total_duration (ss1 ++ ss2) = (total_duration ss1 + total_duration ss2)%Qc.
Proof.
  unfold total_duration. induction ss1 as [|s ss1 IH]; cbn.
  - by rewrite Qcplus_0_l.
  - by rewrite IH, Qcplus_assoc.
Qed.

Lemma entry_utterances_time speakerName entry :
  utterance_time (entry_utterances speakerName entry)
  = total_duration (sentences_of entry).
Proof.
  unfold entry_utterances, sentences_of.
  destruct (RawEntry.sentences entry) as [sentences|]; cbn.
  - unfold utterance_time, total_duration.
    induction sentences as [|s sentences IH]; cbn; [done|]. by rewrite IH.
  - by rewrite Qcplus_0_l.
Qed.

Lemma normalized_time entries :
  utterance_time (normalized entries) = total_duration (scanned_sentences entries).
Proof.
  unfold normalized, scanned_sentences. generalize (speaker_label entries). intros label.
  induction entries as [|entry entries IH]; cbn; [done|].
  by rewrite utterance_time_app, total_duration_app, IH, entry_utterances_time.
Qed.

Lemma analyzed_sentiment sentence :
  text_ok (RawSentence.text sentence) = true →
  expected_sentiment (VStr (analyzed_text sentence))
  = expected_sentiment (RawSentence.text sentence).
Proof.
  unfold analyzed_text.
  by destruct (RawSentence.text sentence) as [| | | |[|c s]|].
Qed.

Lemma entry_utterances_with sentiment speakerName entry :
  entry_ok entry = true →
  utterances_with sentiment (entry_utterances speakerName entry)
  = length (filter (λ s, expected_sentiment (VStr (analyzed_text s)) = sentiment)
              (sentences_of entry))
    + match RawEntry.sentences entry with
      | Some _ => 0
      | None => if decide (Neutral = sentiment) then 1 else 0
      end.
Proof.
  unfold entry_ok, entry_utterances, sentences_of, utterances_with.
  destruct (RawEntry.sentences entry) as [sentences|];
    cbn [default from_option id].
  - rewrite Nat.add_0_r.
    induction sentences as [|s rest IH]; [done|].
    cbn [forallb]. intros [Hs Hrest]%andb_prop. specialize (IH Hrest).
    rewrite fmap_cons, !filter_cons. rewrite (analyzed_sentiment s Hs).
    change (Utterance.sentiment (sentence_utterance entry speakerName s))
      with (expected_sentiment (RawSentence.text s)).
    case_decide; cbn [length]; by rewrite IH.
  - intros _. rewrite filter_cons, filter_nil. cbn. by repeat case_decide.
Qed.

Lemma normalized_with sentiment entries :
  forallb entry_ok entries = true →
  utterances_with sentiment (normalized entries)
  = length (filter (λ s, expected_sentiment (VStr (analyzed_text s)) = sentiment)
              (scanned_sentences entries))
    + (if decide (Neutral = sentiment) then length (fallback_entries entries) else 0).
Proof.
  unfold normalized, scanned_sentences, fallback_entries.
  generalize (speaker_label entries). intros label.
  intros Hok%forallb_Forall. induction Hok as [|entry entries Hentry _ IH].
  { cbn. by case_decide. }
  rewrite !bind_cons. unfold utterances_with in *.
  rewrite !filter_app, !length_app, IH.
  pose proof (entry_utterances_with sentiment (label (RawEntry.speakerId entry))
                entry Hentry) as Hone.
  unfold utterances_with in Hone. rewrite Hone. rewrite filter_cons.
  destruct (RawEntry.sentences entry); repeat case_decide; try done; cbn; lia.
Qed.

(** X5. The analyzer's total duration and its sentiment distribution can
    be recomputed from the normalized transcript: the total duration is the
    sum of the utterance durations, the positive and negative counters are
    the numbers of positive and negative utterances, and the neutral
    counter is the number of neutral utterances less one per entry without
    a sentences array, whose fallback utterance the analyzer does not see. *)
Theorem analytics_agree_with_utterances (entries : list RawEntry.t) :
  forallb entry_ok entries = true →
  ∃ utterances analysis,
    processTranscriptEntries (TArray entries) = Ok utterances
    ∧ analyzeTranscriptContent (TArray entries) = Ok (Analytics analysis)
    ∧ Analysis.totalDuration analysis = utterance_time utterances
    ∧ SentimentDistribution.positive (Analysis.sentimentDistribution analysis)
      = utterances_with Positive utterances
    ∧ SentimentDistribution.negative (Analysis.sentimentDistribution analysis)
      = utterances_with Negative utterances
    ∧ SentimentDistribution.neutral (Analysis.sentimentDistribution analysis)
      + length (fallback_entries entries)
      = utterances_with Neutral utterances.
Proof.
  intros Hok.
  destruct (analyzeTranscriptContent_total entries Hok)
    as (st & analysis & Hrun & Hresult & Hduration & _ & Hsentiments & _).
  exists (normalized entries), analysis.
  split; [by apply processTranscriptEntries_spec|]. split; [done|].
  pose proof (analyze_entries_tally _ _ Hrun) as Htally.
  rewrite Hduration, Hsentiments, normalized_time, !normalized_with by done.
  change (Analysis.totalDuration st.1) with (tally_duration (tally_of st.1)).
  change (Analysis.sentimentDistribution st.1) with (tally_sentiments (tally_of st.1)).
  rewrite Htally, tally_steps_duration.
  pose proof (tally_steps_sentiments Positive (tally_of new_analysis)
                (scanned_sentences entries)) as Hpos.
  pose proof (tally_steps_sentiments Negative (tally_of new_analysis)
                (scanned_sentences entries)) as Hneg.
  pose proof (tally_steps_sentiments Neutral (tally_of new_analysis)
                (scanned_sentences entries)) as Hneu.
  cbn [bucket] in Hpos, Hneg, Hneu. rewrite Hpos, Hneg, Hneu. cbn.
  split_and!; [by rewrite Qcplus_0_l | repeat case_decide; try done; lia..].
Qed.

Lemma analytics_agree_with_utterances_witness :
  ∃ utterances analysis,
    processTranscriptEntries (TArray patchy_call) = Ok utterances
    ∧ analyzeTranscriptContent (TArray patchy_call) = Ok (Analytics analysis)
    ∧ Analysis.totalDuration analysis = utterance_time utterances
    ∧ SentimentDistribution.positive (Analysis.sentimentDistribution analysis)
      = utterances_with Positive utterances
    ∧ SentimentDistribution.negative (Analysis.sentimentDistribution analysis)
      = utterances_with Negative utterances
    ∧ SentimentDistribution.neutral (Analysis.sentimentDistribution analysis)
      + length (fallback_entries patchy_call)
      = utterances_with Neutral utterances.
Proof. apply (analytics_agree_with_utterances patchy_call). reflexivity. Defined.

Lemma utterance_words_app us1 us2 :
  utterance_words (us1 ++ us2) = utterance_words us1 + utterance_words us2.
Proof.
  unfold utterance_words. induction us1 as [|u us1 IH]; cbn; [done|].
  rewrite IH. lia.
Qed.

Lemma analyzed_words sentence :
  text_ok (RawSentence.text sentence) = true →
  length (JsString.split " " (analyzed_text sentence))
  = expected_wordCount (RawSentence.text sentence)
    + (if truthy (RawSentence.text sentence) then 0 else 1).
Proof.
  unfold analyzed_text.
  by destruct (RawSentence.text sentence) as [| | | |[|c s]|].
Qed.

Lemma entry_utterances_words speakerName entry :
  entry_ok entry = true →
  foldr (λ s acc, length (JsString.split " " (analyzed_text s)) + acc) 0
    (sentences_of entry)
  = utterance_words (entry_utterances speakerName entry)
    + length (filter (λ s, truthy (RawSentence.text s) = false) (sentences_of entry)).
Proof.
  unfold entry_ok, entry_utterances, sentences_of, utterance_words.
  destruct (RawEntry.sentences entry) as [sentences|];
    cbn [default from_option id]; [|done].
  induction sentences as [|s rest IH]; [done|].
  cbn [forallb]. intros [Hs Hrest]%andb_prop. specialize (IH Hrest).
  rewrite fmap_cons, filter_cons. cbn [foldr]. rewrite IH, (analyzed_words s Hs).
  change (Utterance.wordCount (sentence_utterance entry speakerName s))
    with (expected_wordCount (RawSentence.text s)).
  destruct (truthy (RawSentence.text s)); case_decide; try done; cbn [length]; lia.
Qed.

Lemma normalized_words entries :
  forallb entry_ok entries = true →
  foldr (λ s acc, length (JsString.split " " (analyzed_text s)) + acc) 0
    (scanned_sentences entries)
  = utterance_words (normalized entries) + length (silent_sentences entries).
Proof.
  unfold normalized, silent_sentences, scanned_sentences.
  generalize (speaker_label entries). intros label.
  intros Hok%forallb_Forall. induction Hok as [|entry entries Hentry _ IH]; [done|].
  rewrite !bind_cons, foldr_app, filter_app, length_app, utterance_words_app.
  rewrite IH.
  pose proof (entry_utterances_words (label (RawEntry.speakerId entry)) entry Hentry)
    as Hone.
  set (words := λ (s : RawSentence.t) (acc : nat),
         length (JsString.split " " (analyzed_text s)) + acc) in *.
  assert (Hshift : ∀ (l : list RawSentence.t) (n : nat),
             foldr words n l = foldr words 0 l + n).
  { intros l n. induction l as [|s l IHl]; cbn; [done|]. rewrite IHl.
    unfold words. lia. }
  rewrite Hshift, Hone. lia.
Qed.

(** X6. The analyzer's total word count is the sum of the word counts of
    the normalized utterances plus one for every sentence whose text is
    absent or empty: the analyzer splits the empty string into one token
    where the normalizer records zero words. *)
Theorem total_words_exceed_utterance_words (entries : list RawEntry.t) :
  forallb entry_ok entries = true →
  ∃ utterances analysis,
    processTranscriptEntries (TArray entries) = Ok utterances
    ∧ analyzeTranscriptContent (TArray entries) = Ok (Analytics analysis)
    ∧ Analysis.totalWords analysis
      = utterance_words utterances + length (silent_sentences entries).
Proof.
  intros Hok.
  destruct (analyzeTranscriptContent_total entries Hok)
    as (st & analysis & Hrun & Hresult & _ & Hwords & _).
  exists (normalized entries), analysis.
  split; [by apply processTranscriptEntries_spec|]. split; [done|].
  pose proof (analyze_entries_tally _ _ Hrun) as Htally.
  rewrite Hwords.
  change (Analysis.totalWords st.1) with (tally_words (tally_of st.1)).
  by rewrite Htally, tally_steps_words, normalized_words.
Qed.

Lemma total_words_exceed_utterance_words_witness :
  ∃ utterances analysis,
    processTranscriptEntries (TArray patchy_call) = Ok utterances
    ∧ analyzeTranscriptContent (TArray patchy_call) = Ok (Analytics analysis)
    ∧ Analysis.totalWords analysis
      = utterance_words utterances + length (silent_sentences patchy_call).
Proof. apply (total_words_exceed_utterance_words patchy_call). reflexivity. Defined.

Lemma filter_partition_length {A} (P Q R : A → Prop)
    `{∀ x, Decision (P x)} `{∀ x, Decision (Q x)} `{∀ x, Decision (R x)} (l : list A) :
  (∀ x, (P x ∧ ¬ Q x ∧ ¬ R x) ∨ (¬ P x ∧ Q x ∧ ¬ R x) ∨ (¬ P x ∧ ¬ Q x ∧ R x)) →
  length (filter P l) + length (filter Q l) + length (filter R l) = length l.
Proof.
  intros Hcases. induction l as [|x l IH]; [done|].
  rewrite !filter_cons. specialize (Hcases x).
  repeat case_decide; cbn [length]; try lia; tauto.
Qed.

(** X7. On a transcript whose texts are strings or absent, the three
    sentiment counters of the analysis add up to the number of sentences
    of the entries that have a sentences array, and the question and
    exclamation counters are the numbers of those sentences whose text
    contains a question mark and an exclamation mark: a sentence counts at
    most once, however many marks it has. *)
Theorem sentence_counters_count_sentences (entries : list RawEntry.t) :
  forallb entry_ok entries = true →
  ∃ analysis,
    analyzeTranscriptContent (TArray entries) = Ok (Analytics analysis)
    ∧ SentimentDistribution.positive (Analysis.sentimentDistribution analysis)
      + SentimentDistribution.neutral (Analysis.sentimentDistribution analysis)
      + SentimentDistribution.negative (Analysis.sentimentDistribution analysis)
      = length (scanned_sentences entries)
    ∧ InteractionMetrics.questionCount (Analysis.interactionMetrics analysis)
      = length (sentences_with "?" entries)
    ∧ InteractionMetrics.exclamationCount (Analysis.interactionMetrics analysis)
      = length (sentences_with "!" entries)
    ∧ InteractionMetrics.questionCount (Analysis.interactionMetrics analysis)
      ≤ length (scanned_sentences entries)
    ∧ InteractionMetrics.exclamationCount (Analysis.interactionMetrics analysis)
      ≤ length (scanned_sentences entries).
Proof.
  intros Hok.
  destruct (analyzeTranscriptContent_total entries Hok)
    as (st & analysis & Hrun & Hresult & _ & _ & Hsentiments & _ & Hmetrics & _).
  exists analysis. split; [done|].
  pose proof (analyze_entries_tally _ _ Hrun) as Htally.
  rewrite Hsentiments, Hmetrics.
  change (Analysis.sentimentDistribution st.1) with (tally_sentiments (tally_of st.1)).
  change (InteractionMetrics.questionCount (Analysis.interactionMetrics st.1))
    with (tally_questions (tally_of st.1)).
  change (InteractionMetrics.exclamationCount (Analysis.interactionMetrics st.1))
    with (tally_exclamations (tally_of st.1)).
  rewrite Htally.
  pose proof (tally_steps_sentiments Positive (tally_of new_analysis)
                (scanned_sentences entries)) as Hpos.
  pose proof (tally_steps_sentiments Negative (tally_of new_analysis)
                (scanned_sentences entries)) as Hneg.
  pose proof (tally_steps_sentiments Neutral (tally_of new_analysis)
                (scanned_sentences entries)) as Hneu.
  destruct (tally_steps_marks (tally_of new_analysis) (scanned_sentences entries))
    as [Hq He].
  cbn [bucket] in Hpos, Hneg, Hneu. rewrite Hpos, Hneg, Hneu, Hq, He.
  unfold sentences_with. cbn [tally_of new_analysis tally_sentiments tally_questions
    tally_exclamations Analysis.sentimentDistribution Analysis.interactionMetrics
    SentimentDistribution.positive SentimentDistribution.neutral
    SentimentDistribution.negative InteractionMetrics.questionCount
    InteractionMetrics.exclamationCount].
  pose proof (filter_partition_length
    (λ s, expected_sentiment (VStr (analyzed_text s)) = Positive)
    (λ s, expected_sentiment (VStr (analyzed_text s)) = Neutral)
    (λ s, expected_sentiment (VStr (analyzed_text s)) = Negative)
    (scanned_sentences entries)) as Hsum.
  pose proof (length_filter (λ s, JsString.includes (analyzed_text s) "?" = true)
                (scanned_sentences entries)) as Hqle.
  pose proof (length_filter (λ s, JsString.includes (analyzed_text s) "!" = true)
                (scanned_sentences entries)) as Hele.
  split_and!; try lia.
  rewrite <- Hsum; [lia|].
  intros s. destruct (expected_sentiment (VStr (analyzed_text s))); naive_solver.
Qed.

Lemma sentence_counters_count_sentences_witness :
  ∃ analysis,
    analyzeTranscriptContent (TArray patchy_call) = Ok (Analytics analysis)
    ∧ SentimentDistribution.positive (Analysis.sentimentDistribution analysis)
      + SentimentDistribution.neutral (Analysis.sentimentDistribution analysis)
      + SentimentDistribution.negative (Analysis.sentimentDistribution analysis)
      = length (scanned_sentences patchy_call)
    ∧ InteractionMetrics.questionCount (Analysis.interactionMetrics analysis)
      = length (sentences_with "?" patchy_call)
    ∧ InteractionMetrics.exclamationCount (Analysis.interactionMetrics analysis)
      = length (sentences_with "!" patchy_call)
    ∧ InteractionMetrics.questionCount (Analysis.interactionMetrics analysis)
      ≤ length (scanned_sentences patchy_call)
    ∧ InteractionMetrics.exclamationCount (Analysis.interactionMetrics analysis)
      ≤ length (scanned_sentences patchy_call).
Proof. apply (sentence_counters_count_sentences patchy_call). reflexivity. Defined.

(** ** Content Analyzer: the statistics of one speaker *)

Lemma analyze_sentence_stat speakerId entry analysis sentence analysis' :
  analyze_sentence entry analysis sentence = Ok analysis' →
  Analysis.speakerStats analysis' !! speakerId
  = if decide (speakerId = RawEntry.speakerId entry)
    then (λ st, bump_stat st sentence) <$> Analysis.speakerStats analysis !! speakerId
    else Analysis.speakerStats analysis !! speakerId.
Proof.
  intros H. unfold analyze_sentence in H. unfold bump_stat, analyzed_text.
  destruct (val_or (RawSentence.text sentence) (VStr "")) as [| | | |text|];
    try discriminate H.
  cbn [split_length text_includes as_string mbind result_bind] in H.
  inv_bind H. inv_bind H. injection H as <-. cbn [Analysis.speakerStats].
  unfold update_stat in Hbind.
  destruct (Analysis.speakerStats analysis !! RawEntry.speakerId entry)
    as [st|] eqn:Hst.
  - injection Hbind as <-. case_decide as Hid.
    + subst speakerId. by rewrite lookup_insert_eq, Hst.
    + by rewrite lookup_insert_ne.
  - destruct (JsObject.inherited (RawEntry.speakerId entry)); [|done].
    injection Hbind as <-. case_decide as Hid; [|done].
    subst speakerId. by rewrite Hst.
Qed.

Lemma foldl_keep {A B} (l : list B) (a : A) : foldl (λ a _, a) a l = a.
Proof. induction l as [|x l IH]; [done|]. apply IH. Qed.

Lemma analyze_entry_stat speakerId st entry st' :
  analyze_entry st entry = Ok st' →
  Analysis.speakerStats st'.1 !! speakerId
  = stat_entry_step speakerId (Analysis.speakerStats st.1 !! speakerId) entry.
Proof.
  destruct st as [analysis lastSpeaker]. unfold analyze_entry, stat_entry_step.
  destruct (RawEntry.sentences entry) as [sentences|]; [|by intros [= <-]].
  intros H. inv_bind H. injection H as <-. cbn [fst].
  rewrite (for_of_fold (λ a, Analysis.speakerStats a !! speakerId)
             (λ o sentence,
                if decide (speakerId = RawEntry.speakerId entry)
                then (λ st, bump_stat st sentence) <$> o else o)
             _ _ _ _
             (λ a s a1, analyze_sentence_stat speakerId entry a s a1) Hbind).
  cbn [Analysis.speakerStats]. unfold stat_missing.
  case_decide as Hid.
  - subst speakerId. f_equal.
    destruct (Analysis.speakerStats analysis !! RawEntry.speakerId entry) eqn:Hst;
      [done|].
    destruct (JsObject.inherited (RawEntry.speakerId entry)); cbn [negb]; [done|].
    by rewrite lookup_insert_eq.
  - rewrite foldl_keep.
    destruct (Analysis.speakerStats analysis !! RawEntry.speakerId entry);
      [done|].
    destruct (JsObject.inherited (RawEntry.speakerId entry)); cbn [negb]; [done|].
    by rewrite lookup_insert_ne.
Qed.

Lemma bump_stats_fields stats sentences :
  let stats' := foldl bump_stat stats sentences in
  SpeakerStat.totalTime stats'
  = (SpeakerStat.totalTime stats + total_duration sentences)%Qc
  ∧ SpeakerStat.wordCount stats'
    = SpeakerStat.wordCount stats + spoken_words sentences
  ∧ SpeakerStat.sentenceCount stats'
    = SpeakerStat.sentenceCount stats + length sentences.
Proof.
  revert stats. induction sentences as [|s rest IH]; intros stats.
  - cbn. rewrite Qcplus_0_r. split_and!; [done|lia..].
  - cbn [foldl]. destruct (IH (bump_stat stats s)) as (Htime & Hwords & Hcount).
    cbn zeta. rewrite Htime, Hwords, Hcount. cbn.
    rewrite Qcplus_assoc. unfold spoken_words, total_duration.
    split_and!; [done|lia..].
Qed.

Lemma bump_stats_some stats sentences :
  foldl (λ o sentence, (λ st, bump_stat st sentence) <$> o) (Some stats) sentences
  = Some (foldl bump_stat stats sentences).
Proof.
  revert stats. induction sentences as [|s rest IH]; intros stats; [done|].
  cbn. apply IH.
Qed.

Lemma bump_stats_none sentences :
  foldl (λ o sentence, (λ st, bump_stat st sentence) <$> o) None sentences
  = (None : option SpeakerStat.t).
Proof. induction sentences as [|s rest IH]; [done|]. cbn. apply IH. Qed.

Lemma spoken_by_cons speakerId entry entries :
  spoken_by speakerId (entry :: entries)
  = (if decide (RawEntry.speakerId entry = speakerId)
     then sentences_of entry else [])
    ++ spoken_by speakerId entries.
Proof.
  unfold spoken_by. rewrite filter_cons. by case_decide.
Qed.

Lemma stat_entry_steps_some speakerId stats entries :
  foldl (stat_entry_step speakerId) (Some stats) entries
  = Some (foldl bump_stat stats (spoken_by speakerId entries)).
Proof.
  revert stats. induction entries as [|entry entries IH]; intros stats; [done|].
  cbn [foldl]. rewrite spoken_by_cons, foldl_app. unfold stat_entry_step at 2.
  unfold sentences_of.
  destruct (RawEntry.sentences entry) as [sentences|]; cbn [default from_option id].
  - case_decide as Hid.
    + subst speakerId. rewrite decide_True by done.
      by rewrite bump_stats_some, IH.
    + rewrite decide_False by done. by rewrite IH.
  - rewrite IH. by case_decide.
Qed.

Lemma stat_entry_steps_none speakerId entries :
  foldl (stat_entry_step speakerId) None entries
  = if decide (speakerId ∈ extractor_speakers entries
               ∧ JsObject.inherited speakerId = false)
    then Some (foldl bump_stat new_stat (spoken_by speakerId entries))
    else None.
Proof.
  induction entries as [|entry entries IH].
  { cbn. rewrite decide_False; [done|]. intros [Hin _].
    by apply elem_of_nil in Hin. }
  cbn [foldl]. unfold stat_entry_step at 2. unfold extractor_speakers in *.
  rewrite filter_cons, spoken_by_cons. unfold sentences_of.
  destruct (RawEntry.sentences entry) as [sentences|] eqn:Hss;
    cbn [default from_option id].
  - destruct (decide (is_Some (Some sentences))) as [_|Hno]; [|by destruct Hno].
    rewrite fmap_cons.
    destruct (decide (speakerId = RawEntry.speakerId entry)) as [->|Hid].
    + destruct (decide (RawEntry.speakerId entry = RawEntry.speakerId entry))
        as [_|?]; [|done].
      destruct (JsObject.inherited (RawEntry.speakerId entry)) eqn:Hinh.
      * rewrite bump_stats_none, IH. clear IH.
        repeat case_decide; try done; intuition congruence.
      * rewrite bump_stats_some, stat_entry_steps_some, foldl_app. clear IH.
        case_decide as Hno; [done|].
        destruct Hno. split; [by left|done].
    + destruct (decide (RawEntry.speakerId entry = speakerId)) as [?|_]; [done|].
      rewrite IH. clear IH. cbn [app].
      repeat case_decide; try done.
      * exfalso. rewrite elem_of_cons in *. intuition.
      * exfalso. rewrite elem_of_cons in *. intuition.
  - destruct (decide (is_Some None)) as [[? ?]|_]; [done|].
    rewrite IH.
    destruct (decide (RawEntry.speakerId entry = speakerId)); by cbn [app].
Qed.

(** X8. [speakerStats] has one entry per speaker of an entry with a
    sentences array, unless the speaker id names a property of
    [Object.prototype]. The entry counts the sentences of the speaker's
    entries, sums their durations and their words, and holds the average
    number of words per sentence, which is 0 for a speaker whose sentences
    arrays are all empty. *)
Theorem speaker_stats_per_speaker (entries : list RawEntry.t) :
  forallb entry_ok entries = true →
  ∃ analysis,
    analyzeTranscriptContent (TArray entries) = Ok (Analytics analysis)
    ∧ (∀ speakerId,
         is_Some (Analysis.speakerStats analysis !! speakerId)
         ↔ speakerId ∈ extractor_speakers entries
           ∧ JsObject.inherited speakerId = false)
    ∧ ∀ speakerId stats,
        Analysis.speakerStats analysis !! speakerId = Some stats →
        SpeakerStat.sentenceCount stats = length (spoken_by speakerId entries)
        ∧ SpeakerStat.wordCount stats = spoken_words (spoken_by speakerId entries)
        ∧ SpeakerStat.totalTime stats = total_duration (spoken_by speakerId entries)
        ∧ SpeakerStat.avgWordsPerSentence stats
          = match spoken_by speakerId entries with
            | [] => 0%Qc
            | _ => (num (Z.of_nat (SpeakerStat.wordCount stats))
                    / num (Z.of_nat (SpeakerStat.sentenceCount stats)))%Qc
            end.
Proof.
  intros Hok.
  destruct (analyzeTranscriptContent_total entries Hok)
    as (st & analysis & Hrun & Hresult & _ & _ & _ & _ & _ & Hstats).
  exists analysis. split; [done|].
  assert (Hlookup : ∀ speakerId,
    Analysis.speakerStats st.1 !! speakerId
    = if decide (speakerId ∈ extractor_speakers entries
                 ∧ JsObject.inherited speakerId = false)
      then Some (foldl bump_stat new_stat (spoken_by speakerId entries))
      else None).
  { intros speakerId. rewrite <- stat_entry_steps_none.
    apply (for_of_fold (λ st, Analysis.speakerStats st.1 !! speakerId)
             (stat_entry_step speakerId) _ _ _ _
             (λ s x s1, analyze_entry_stat speakerId s x s1) Hrun). }
  split.
  - intros speakerId. rewrite Hstats, lookup_fmap, Hlookup.
    case_decide as Hid; cbn; [by split|].
    split; [by intros [? ?]|done].
  - intros speakerId stats. rewrite Hstats, lookup_fmap, Hlookup.
    case_decide as Hid; cbn; [|done]. intros [= <-].
    destruct (bump_stats_fields new_stat (spoken_by speakerId entries))
      as (Htime & Hwords & Hcount).
    cbn [finish_stat SpeakerStat.sentenceCount SpeakerStat.wordCount
         SpeakerStat.totalTime SpeakerStat.avgWordsPerSentence].
    rewrite Htime, Hwords, Hcount. cbn [new_stat SpeakerStat.sentenceCount
      SpeakerStat.wordCount SpeakerStat.totalTime].
    rewrite Qcplus_0_l. split_and!; [done..|].
    by destruct (spoken_by speakerId entries).
Qed.

Lemma speaker_stats_per_speaker_witness :
  ∃ analysis,
    analyzeTranscriptContent (TArray patchy_call) = Ok (Analytics analysis)
    ∧ (∀ speakerId,
         is_Some (Analysis.speakerStats analysis !! speakerId)
         ↔ speakerId ∈ extractor_speakers patchy_call
           ∧ JsObject.inherited speakerId = false)
    ∧ ∀ speakerId stats,
        Analysis.speakerStats analysis !! speakerId = Some stats →
        SpeakerStat.sentenceCount stats = length (spoken_by speakerId patchy_call)
        ∧ SpeakerStat.wordCount stats
          = spoken_words (spoken_by speakerId patchy_call)
        ∧ SpeakerStat.totalTime stats
          = total_duration (spoken_by speakerId patchy_call)
        ∧ SpeakerStat.avgWordsPerSentence stats
          = match spoken_by speakerId patchy_call with
            | [] => 0%Qc
            | _ => (num (Z.of_nat (SpeakerStat.wordCount stats))
                    / num (Z.of_nat (SpeakerStat.sentenceCount stats)))%Qc
            end.
Proof. apply (speaker_stats_per_speaker patchy_call). reflexivity. Defined.

(** ** Content Analyzer: witnesses for the speaker metrics *)

Lemma speaker_switches_specified_witness :
  ∃ analysis,
    analyzeTranscriptContent (TArray pricing_call) = Ok (Analytics analysis)
    ∧ InteractionMetrics.speakerSwitches (Analysis.interactionMetrics analysis)
      = specified_switches pricing_call.
Proof.
  apply (speaker_switches_specified pricing_call); [reflexivity|].
  unfold pricing_call, patchy_call.
  repeat (apply Forall_cons_2; [intros _; discriminate|]). apply Forall_nil_2.
Defined.


Lemma talk_time_percentage_witness :
  ∃ analysis,
    analyzeTranscriptContent (TArray patchy_call) = Ok (Analytics analysis)
    ∧ ∀ id stats, Analysis.speakerStats analysis !! id = Some stats →
        ((0 < Analysis.totalDuration analysis)%Qc →
         SpeakerStat.talkTimePercentage stats
         = Some (SpeakerStat.totalTime stats / Analysis.totalDuration analysis
                 * num 100)%Qc)
        ∧ (Analysis.totalDuration analysis = 0%Qc →
           SpeakerStat.talkTimePercentage stats = Some 0%Qc).
Proof. apply (talk_time_percentage patchy_call). reflexivity. Defined.

(** ** Timestamps: minutes and seconds *)

Lemma Qfloor_unique (x : Q) (n : Z) :
  (inject_Z n <= x)%Q → (x < inject_Z (n + 1))%Q → Qfloor x = n.
Proof.
  intros Hle Hlt. apply Z.le_antisymm.
  - apply Z.lt_succ_r. rewrite Zlt_Qlt.
    eapply Qle_lt_trans; [apply Qfloor_le|]. exact Hlt.
  - rewrite <- (Qfloor_Z n). by apply Qfloor_resp_le.
Qed.

Lemma Qfloor_div_60 (x : Q) : Qfloor (x / inject_Z 60) = (Qfloor x / 60)%Z.
Proof.
  pose proof (Qfloor_le x) as Hlo. pose proof (Qlt_floor x) as Hhi.
  pose proof (Z.mul_div_le (Qfloor x) 60 eq_refl) as Hdiv.
  pose proof (Z.mul_succ_div_gt (Qfloor x) 60 eq_refl) as Hdiv'.
  apply Qfloor_unique.
  - apply Qle_shift_div_l; [done|]. rewrite <- inject_Z_mult.
    eapply Qle_trans; [|exact Hlo]. rewrite <- Zle_Qle. lia.
  - apply Qlt_shift_div_r; [done|]. rewrite <- inject_Z_mult.
    eapply Qlt_le_trans; [exact Hhi|]. rewrite <- Zle_Qle. lia.
Qed.

Lemma Qfloor_minus_Z (x : Q) (n : Z) :
  Qfloor (x - inject_Z n) = (Qfloor x - n)%Z.
Proof.
  pose proof (Qfloor_le x) as Hlo. pose proof (Qlt_floor x) as Hhi.
  apply Qfloor_unique.
  - unfold Z.sub. rewrite inject_Z_plus, inject_Z_opp. unfold Qminus.
    by apply Qplus_le_l.
  - replace (Qfloor x - n + 1)%Z with ((Qfloor x + 1) + - n)%Z by lia.
    rewrite inject_Z_plus, inject_Z_opp. unfold Qminus.
    by apply Qplus_lt_l.
Qed.

Lemma floor_div_60 (seconds : Qc) :
  JsNumber.floor (seconds / num 60) = (JsNumber.floor seconds / 60)%Z.
Proof.
  unfold JsNumber.floor. rewrite <- Qfloor_div_60.
  apply Qfloor_comp. unfold Qcdiv, Qcmult, Qcinv, num. cbn [this Q2Qc Qc_of_Z].
  by rewrite !Qred_correct.
Qed.

Lemma floor_rem_60 (seconds : Qc) :
  (0 <= seconds)%Qc →
  JsNumber.floor (JsNumber.rem seconds (num 60)) = (JsNumber.floor seconds mod 60)%Z.
Proof.
  intros Hpos. unfold JsNumber.rem, JsNumber.trunc.
  assert (Hquot : Qle_bool 0 (seconds / num 60)%Qc = true).
  { apply Qle_bool_iff. unfold Qcdiv, Qcmult, Qcinv, num. cbn [this Q2Qc Qc_of_Z].
    rewrite !Qred_correct. apply Qle_shift_div_l; [done|].
    by rewrite Qmult_0_l. }
  rewrite Hquot. fold (JsNumber.floor (seconds / num 60)). rewrite floor_div_60.
  unfold JsNumber.floor.
  rewrite (Z.mod_eq (Qfloor seconds) 60) by done.
  rewrite <- Qfloor_minus_Z. apply Qfloor_comp.
  unfold Qcminus, Qcplus, Qcopp, Qcmult, num. cbn [this Q2Qc Qc_of_Z].
  rewrite !Qred_correct. by rewrite inject_Z_mult.
Qed.

(** X12. For a non-negative number of seconds the timestamp shows the
    whole seconds as minutes and seconds, each padded to two digits: the
    fraction is dropped, the seconds stay below 60 and the minutes are
    not carried over into hours. *)
Theorem formatTimestamp_minutes_seconds (seconds : Qc) :
  (0 <= seconds)%Qc →
  formatTimestamp seconds
  = JsString.padStart 2 "0" (JsString.of_Z (JsNumber.floor seconds / 60))
    +:+ ":" +:+
    JsString.padStart 2 "0" (JsString.of_Z (JsNumber.floor seconds mod 60)).
Proof.
  intros Hpos. unfold formatTimestamp, JsNumber.truthy.
  rewrite floor_div_60, floor_rem_60 by done.
  by destruct (Qeq_bool seconds 0).
Qed.

Lemma formatTimestamp_minutes_seconds_witness :
  formatTimestamp (num 7325 / num 2)
  = JsString.padStart 2 "0"
      (JsString.of_Z (JsNumber.floor (num 7325 / num 2) / 60))
    +:+ ":" +:+
    JsString.padStart 2 "0"
      (JsString.of_Z (JsNumber.floor (num 7325 / num 2) mod 60)).
Proof. apply (formatTimestamp_minutes_seconds (num 7325 / num 2)). by vm_compute. Defined.

(** * Properties of the daily summary *)

(** ** Sets *)

Section Distinct.

Context {A : Type} `{EqDecision A}.
Implicit Types (l s : list A) (x : A).

Lemma elem_of_distinct x l : x ∈ distinct l ↔ x ∈ l.
Proof.
  induction l as [|y l IH]; cbn; [done|].
  rewrite !elem_of_cons, list_elem_of_filter, IH.
  destruct (decide (x = y)); intuition congruence.
Qed.

Lemma NoDup_distinct l : NoDup (distinct l).
Proof.
  induction l as [|y l IH]; cbn; [constructor|].
  apply NoDup_cons. split; [|by apply NoDup_filter].
  rewrite list_elem_of_filter. tauto.
Qed.

Lemma distinct_snoc l x :
  distinct (l ++ [x]) = if decide (x ∈ l) then distinct l else distinct l ++ [x].
Proof.
  induction l as [|y l IH]; cbn.
  - rewrite decide_False by apply not_elem_of_nil. done.
  - rewrite IH. destruct (decide (x ∈ l)) as [Hin|Hout].
    + rewrite decide_True by (by right). done.
    + rewrite filter_app. destruct (decide (x = y)) as [->|Hne].
      * rewrite decide_True by (by left).
        rewrite (filter_cons_False _ y) by tauto.
        by rewrite filter_nil, app_nil_r.
      * rewrite decide_False by (rewrite elem_of_cons; tauto).
        by rewrite (filter_cons_True _ x) by done.
Qed.

Lemma JsSet_adds s l :
  foldl (λ s x, JsSet.add x s) (distinct s) l = distinct (s ++ l).
Proof.
  revert s. induction l as [|x l IH]; intros s; cbn [foldl].
  - by rewrite app_nil_r.
  - replace (JsSet.add x (distinct s)) with (distinct (s ++ [x])).
    + rewrite IH. by rewrite <- app_assoc.
    + rewrite distinct_snoc. unfold JsSet.add.
      destruct (decide (x ∈ s)) as [Hin|Hout].
      * rewrite decide_True; [done|]. by apply elem_of_distinct.
      * rewrite decide_False; [done|]. by rewrite elem_of_distinct.
Qed.

Lemma JsSet_of_array l : JsSet.of_array l = distinct l.
Proof. apply (JsSet_adds []). Qed.

End Distinct.

Section DailySummaryProperties.
Import DailySummary.

(** ** Participants *)

Lemma extractUniqueParticipants_distinct (calls : list Call.t) :
  extractUniqueParticipants calls = distinct (participant_keys calls).
Proof.
  transitivity (foldl (λ s x, JsSet.add x s) [] (participant_keys calls));
    [|exact (JsSet_adds [] _)].
  unfold extractUniqueParticipants, participant_keys. rewrite foldl_bind.
  generalize (@nil (option string)). induction calls as [|call calls IH];
    intros s; [done|].
  cbn [foldl]. rewrite <- IH. f_equal.
  destruct (Call.participants call) as [ps|]; [|done].
  cbn [default from_option id]. by rewrite foldl_fmap.
Qed.


End DailySummaryProperties.

Section DailySummaryLabels.
Import DailySummary.

(** ** Topics of a title *)

Lemma includes_occurs s w : JsString.includes s w = false → ¬ occurs w s.
Proof. intros Hno Hocc. apply includes_spec in Hocc. congruence. Qed.

(** X14. The topics of a call title are never empty and come in the order
    of the keyword tests, each at most once. A topic with a keyword is
    listed exactly when the title contains the keyword, in any case of
    letters; the general topic is listed exactly when the title contains
    none of the keywords, and then alone. *)
Theorem title_topics_follow_keywords (title : string) :
  ∃ topics,
    extractTopicsFromTitle (VStr title) = Ok topics
    ∧ topics ≠ []
    ∧ StronglySorted (λ a b, topic_rank a < topic_rank b) topics
    ∧ (GeneralDiscussion ∈ topics → topics = [GeneralDiscussion])
    ∧ ∀ topic, topic ∈ topics ↔
        match keyword topic with
        | Some k => occurs k (JsString.toLowerCase title)
        | None =>
            ∀ other k, keyword other = Some k →
                       ¬ occurs k (JsString.toLowerCase title)
        end.
Proof.
  unfold extractTopicsFromTitle. cbn [as_string mbind result_bind].
  set (lower := JsString.toLowerCase title).
  destruct (JsString.includes lower "demo") eqn:Hdemo;
  destruct (JsString.includes lower "pricing") eqn:Hpricing;
  destruct (JsString.includes lower "discovery") eqn:Hdiscovery;
  destruct (JsString.includes lower "follow") eqn:Hfollow;
  destruct (JsString.includes lower "onboard") eqn:Honboard;
  first [apply includes_spec in Hdemo | apply includes_occurs in Hdemo];
  first [apply includes_spec in Hpricing | apply includes_occurs in Hpricing];
  first [apply includes_spec in Hdiscovery | apply includes_occurs in Hdiscovery];
  first [apply includes_spec in Hfollow | apply includes_occurs in Hfollow];
  first [apply includes_spec in Honboard | apply includes_occurs in Honboard];
  (eexists; split; [reflexivity|]; cbn [app length Nat.ltb Nat.leb];
   split; [done|];
   split; [by apply (bool_decide_unpack _)|];
   split; [by apply (bool_decide_unpack _)|];
   intros topic; destruct topic; cbn [keyword];
   (split;
    [ intros Hin;
      first
        [ assumption
        | exfalso; revert Hin; by apply (bool_decide_unpack _)
        | intros other k Hk; destruct other; cbn in Hk; simplify_eq; assumption ]
    | intros Hocc;
      first
        [ by apply (bool_decide_unpack _)
        | contradiction
        | exfalso; eapply (Hocc ProductDemo); [reflexivity|eassumption]
        | exfalso; eapply (Hocc PricingDiscussion); [reflexivity|eassumption]
        | exfalso; eapply (Hocc DiscoveryCall); [reflexivity|eassumption]
        | exfalso; eapply (Hocc FollowUp); [reflexivity|eassumption]
        | exfalso; eapply (Hocc Onboarding); [reflexivity|eassumption] ] ])).
Qed.

End DailySummaryLabels.

Section DailySummaryVerdicts.
Import DailySummary.

(** ** Action items *)

Lemma action_items_collected insights actionItems :
  foldl (λ actionItems insight,
           match insight with
           | Some i =>
               if Insight.hasActionItems i
               then actionItems ++ JsArray.slice_to 2 possibleActions
               else actionItems
           | None => actionItems
           end)
        actionItems insights
  = actionItems
    ++ mjoin (replicate (length (filter (λ i, needs_action i = true) insights))
                (JsArray.slice_to 2 possibleActions)).
Proof.
  revert actionItems. induction insights as [|insight insights IH];
    intros actionItems; cbn [foldl].
  - cbn. by rewrite app_nil_r.
  - rewrite IH, filter_cons. destruct insight as [i|]; cbn [needs_action].
    + destruct (Insight.hasActionItems i).
      * rewrite decide_True by done. cbn [length replicate mjoin list_join].
        by rewrite <- app_assoc.
      * by rewrite decide_False by done.
    + by rewrite decide_False by done.
Qed.

Lemma distinct_copies (n : nat) (a b : string) :
  a ≠ b →
  distinct (mjoin (replicate n [a; b])) = match n with 0 => [] | S _ => [a; b] end.
Proof.
  intros Hab. induction n as [|n IH]; [done|].
  change (distinct (mjoin (replicate (S n) [a; b])))
    with (a :: filter (λ y, y ≠ a)
                 (b :: filter (λ y, y ≠ b) (distinct (mjoin (replicate n [a; b]))))).
  rewrite IH.
  destruct n as [|n];
    repeat (rewrite ?filter_cons, ?filter_nil; try case_decide; try done).
Qed.

(** X15. The action items of a day are the first two of the four possible
    actions, when an insight of the day has action items, and none
    otherwise: the number of such insights makes no difference, and the
    last two possible actions are never listed. *)
Theorem action_items_all_or_none (insights : list (option Insight.t)) :
  extractActionItems insights
  = if existsb needs_action insights
    then ["Send follow-up email"; "Schedule technical demo"]
    else [].
Proof.
  unfold extractActionItems. rewrite JsSet_of_array, action_items_collected.
  cbn [app]. change (JsArray.slice_to 2 possibleActions)
    with ["Send follow-up email"; "Schedule technical demo"].
  rewrite distinct_copies by done.
  induction insights as [|insight insights IH]; [done|].
  rewrite filter_cons. cbn [existsb].
  destruct (needs_action insight).
  - by rewrite decide_True by done.
  - by rewrite decide_False by done.
Qed.

(** ** Average sentiment *)

Lemma num_add (a b : Z) : num (a + b) = (num a + num b)%Qc.
Proof.
  unfold num, Qc_of_Z. apply Qc_is_canon. unfold Qcplus. cbn [this Q2Qc].
  by rewrite !Qred_correct, inject_Z_plus.
Qed.

Lemma sentiment_scores_sum (valid : list Insight.t) (acc : Z) :
  foldl (λ sum insight, (sum + sentimentScores (Insight.sentiment insight))%Qc)
        (num acc) valid
  = num (acc
         + Z.of_nat (length (filter (λ i, Insight.sentiment i = Positive) valid))
         - Z.of_nat (length (filter (λ i, Insight.sentiment i = Negative) valid))).
Proof.
  assert (Hone : 1%Qc = num 1) by (by apply Qc_is_canon).
  assert (Hzero : 0%Qc = num 0) by (by apply Qc_is_canon).
  assert (Hminus : (-1)%Qc = num (-1)) by (by apply Qc_is_canon).
  revert acc. induction valid as [|i valid IH]; intros acc; cbn [foldl].
  - cbn. f_equal. lia.
  - rewrite !filter_cons.
    destruct (Insight.sentiment i) eqn:Hs; cbn [sentimentScores].
    + rewrite Hone, <- num_add, IH.
      rewrite decide_True, decide_False by done. cbn [length]. f_equal. lia.
    + rewrite Hzero, <- num_add, IH.
      rewrite !decide_False by done. f_equal. lia.
    + rewrite Hminus, <- num_add, IH.
      rewrite decide_False, decide_True by done. cbn [length]. f_equal. lia.
Qed.

Lemma quotient_this (a v : Z) :
  (0 < v)%Z → (this (num a / num v)%Qc == a # Z.to_pos v)%Q.
Proof.
  intros Hv. unfold Qcdiv, Qcmult, Qcinv, num, Qc_of_Z. cbn [this Q2Qc].
  rewrite !Qred_correct. destruct v as [|p|p]; [lia| |lia].
  unfold Qeq, Qmult, Qinv, inject_Z. cbn. lia.
Qed.

Lemma quotient_above_threshold (a v : Z) :
  (0 < v)%Z →
  JsNumber.gt (num a / num v) threshold = (3 * v <? 10 * a)%Z.
Proof.
  intros Hv. unfold JsNumber.gt.
  destruct (Qle_bool _ _) eqn:Hle; cbn [negb]; symmetry.
  - apply Z.ltb_ge. apply Qle_bool_iff in Hle.
    rewrite (quotient_this a v Hv) in Hle.
    change (this threshold) with (3 # 10)%Q in Hle.
    unfold Qle in Hle. cbn in Hle. rewrite Z2Pos.id in Hle by done. lia.
  - apply Z.ltb_lt. apply not_true_iff_false in Hle.
    rewrite Qle_bool_iff, (quotient_this a v Hv) in Hle.
    change (this threshold) with (3 # 10)%Q in Hle.
    unfold Qle in Hle. cbn in Hle. rewrite Z2Pos.id in Hle by done. lia.
Qed.

Lemma quotient_below_threshold (a v : Z) :
  (0 < v)%Z →
  JsNumber.gt (- threshold) (num a / num v) = (10 * a <? - (3 * v))%Z.
Proof.
  intros Hv. unfold JsNumber.gt.
  destruct (Qle_bool _ _) eqn:Hle; cbn [negb]; symmetry.
  - apply Z.ltb_ge. apply Qle_bool_iff in Hle.
    rewrite (quotient_this a v Hv) in Hle.
    change (this (- threshold)%Qc) with (-3 # 10)%Q in Hle.
    unfold Qle in Hle. cbn in Hle. rewrite Z2Pos.id in Hle by done. lia.
  - apply Z.ltb_lt. apply not_true_iff_false in Hle.
    rewrite Qle_bool_iff, (quotient_this a v Hv) in Hle.
    change (this (- threshold)%Qc) with (-3 # 10)%Q in Hle.
    unfold Qle in Hle. cbn in Hle. rewrite Z2Pos.id in Hle by done. lia.
Qed.

(** X16. The sentiment of a day is positive exactly when the positive
    insights outnumber the negative ones by more than three tenths of the
    number of insights, negative in the mirrored case and neutral
    otherwise; insights that are [null] do not count, and a day without
    insights is neutral. *)
Theorem average_sentiment_by_margin (insights : list (option Insight.t)) :
  let positive := with_sentiment Positive insights in
  let negative := with_sentiment Negative insights in
  let valid := length (omap id insights) in
  calculateAverageSentiment insights
  = if (10 * negative + 3 * valid <? 10 * positive)%nat then Positive
    else if (10 * positive + 3 * valid <? 10 * negative)%nat then Negative
    else Neutral.
Proof.
  cbn zeta. unfold calculateAverageSentiment, with_sentiment.
  set (valid := omap id insights).
  pose proof (length_filter (λ i, Insight.sentiment i = Positive) valid) as Hp.
  pose proof (length_filter (λ i, Insight.sentiment i = Negative) valid) as Hn.
  destruct (length valid =? 0)%nat eqn:Hempty.
  - apply Nat.eqb_eq in Hempty.
    rewrite (proj2 (Nat.ltb_ge _ _)) by lia.
    by rewrite (proj2 (Nat.ltb_ge _ _)) by lia.
  - apply Nat.eqb_neq in Hempty.
    replace 0%Qc with (num 0) by (by apply Qc_is_canon).
    rewrite sentiment_scores_sum.
    rewrite quotient_above_threshold, quotient_below_threshold by lia.
    set (P := length (filter (λ i, Insight.sentiment i = Positive) valid)) in *.
    set (N := length (filter (λ i, Insight.sentiment i = Negative) valid)) in *.
    destruct (10 * N + 3 * length valid <? 10 * P)%nat eqn:Hpos.
    + apply Nat.ltb_lt in Hpos. rewrite (proj2 (Z.ltb_lt _ _)) by lia. done.
    + apply Nat.ltb_ge in Hpos. rewrite (proj2 (Z.ltb_ge _ _)) by lia.
      destruct (10 * P + 3 * length valid <? 10 * N)%nat eqn:Hneg.
      * apply Nat.ltb_lt in Hneg. rewrite (proj2 (Z.ltb_lt _ _)) by lia. done.
      * apply Nat.ltb_ge in Hneg. rewrite (proj2 (Z.ltb_ge _ _)) by lia. done.
Qed.

End DailySummaryVerdicts.

(** ** Dictionaries of counts *)

Section Counting.

Context {A : Type} `{EqDecision A}.
Implicit Types (l : list A) (x : A) (counts : list (A * nat)).

Lemma count_key_nil x : DailySummary.count_key [] x = [(x, 1)].
Proof. done. Qed.

Lemma count_key_cons_eq kv counts x :
  kv.1 = x → DailySummary.count_key (kv :: counts) x = (x, kv.2 + 1) :: counts.
Proof.
  intros Hx. unfold DailySummary.count_key. cbn [list_find].
  by rewrite decide_True by done.
Qed.

Lemma count_key_cons_ne kv counts x :
  kv.1 ≠ x →
  DailySummary.count_key (kv :: counts) x = kv :: DailySummary.count_key counts x.
Proof.
  intros Hx. unfold DailySummary.count_key. cbn [list_find].
  rewrite decide_False by done.
  by destruct (list_find (λ kv, kv.1 = x) counts) as [[i kv']|].
Qed.

Lemma occurrences_snoc y l x :
  occurrences y (l ++ [x]) = occurrences y l + (if decide (y = x) then 1 else 0).
Proof.
  unfold occurrences. rewrite filter_app, length_app, filter_cons, filter_nil.
  destruct (decide (y = x)) as [->|Hne].
  - by rewrite decide_True by done.
  - by rewrite decide_False by congruence.
Qed.

Lemma occurrences_absent x l : x ∉ l → occurrences x l = 0.
Proof.
  intros Hx. unfold occurrences. induction l as [|y l IH]; [done|].
  rewrite filter_cons. apply not_elem_of_cons in Hx as [Hne Hx].
  rewrite decide_False by congruence. by apply IH.
Qed.

Lemma occurrences_present x l : x ∈ l → 0 < occurrences x l.
Proof.
  unfold occurrences. induction 1 as [x l|x y l _ IH].
  - rewrite filter_cons, decide_True by done. cbn. lia.
  - rewrite filter_cons. case_decide; cbn; lia.
Qed.

Lemma count_key_counted (count : A → nat) (d : list A) x :
  NoDup d →
  DailySummary.count_key ((λ y, (y, count y)) <$> d) x
  = if decide (x ∈ d)
    then (λ y, (y, count y + (if decide (y = x) then 1 else 0))) <$> d
    else ((λ y, (y, count y)) <$> d) ++ [(x, 1)].
Proof.
  induction 1 as [|y d Hy Hd IH].
  - cbn [fmap list_fmap]. by rewrite decide_False by apply not_elem_of_nil.
  - rewrite !fmap_cons. destruct (decide (y = x)) as [->|Hne].
    + rewrite count_key_cons_eq by done.
      destruct (decide (x ∈ x :: d)) as [_|Hout]; [|by destruct Hout; left].
      destruct (decide (x = x)) as [_|?]; [|done]. cbn [snd]. f_equal.
      apply list_fmap_ext. intros i z Hz.
      destruct (decide (z = x)) as [->|_]; [|by rewrite Nat.add_0_r].
      destruct Hy. by eapply list_elem_of_lookup_2.
    + rewrite count_key_cons_ne by done. rewrite IH.
      destruct (decide (y = x)) as [?|_]; [done|]. rewrite Nat.add_0_r.
      destruct (decide (x ∈ d)) as [Hin|Hout].
      * by rewrite decide_True by (by right).
      * rewrite decide_False; [done|].
        rewrite elem_of_cons. intros [?|?]; [congruence|done].
Qed.

Lemma count_key_tally l x :
  DailySummary.count_key (tally_list l) x = tally_list (l ++ [x]).
Proof.
  unfold tally_list. rewrite count_key_counted by apply NoDup_distinct.
  rewrite distinct_snoc.
  destruct (decide (x ∈ l)) as [Hin|Hout].
  - rewrite decide_True by (by apply elem_of_distinct).
    apply list_fmap_ext. intros i y Hy. by rewrite occurrences_snoc.
  - rewrite decide_False by (by rewrite elem_of_distinct).
    rewrite fmap_app. f_equal.
    + apply list_fmap_ext. intros i y Hy. rewrite occurrences_snoc.
      destruct (decide (y = x)) as [->|_]; [|by rewrite Nat.add_0_r].
      destruct Hout. apply elem_of_distinct. by eapply list_elem_of_lookup_2.
    + cbn. rewrite occurrences_snoc, occurrences_absent by done.
      by rewrite decide_True by done.
Qed.

Lemma count_keys_tally l : foldl DailySummary.count_key [] l = tally_list l.
Proof.
  induction l as [|x l IH] using rev_ind; [done|].
  by rewrite foldl_app, IH; cbn [foldl]; rewrite count_key_tally.
Qed.

Lemma elem_of_tally_list x n l :
  (x, n) ∈ tally_list l ↔ x ∈ l ∧ n = occurrences x l.
Proof.
  unfold tally_list. rewrite list_elem_of_fmap. split.
  - intros (y & Heq & Hy). injection Heq as -> ->.
    split; [|done]. by apply (proj1 (elem_of_distinct _ _)).
  - intros [Hx ->]. exists x. split; [done|]. by apply elem_of_distinct.
Qed.

Lemma tally_list_keys l : (tally_list l).*1 = distinct l.
Proof.
  unfold tally_list. rewrite <- list_fmap_compose.
  rewrite <- (list_fmap_id (distinct l)) at 2. by apply list_fmap_ext.
Qed.

Lemma tally_list_total l : sum_list (tally_list l).*2 = length l.
Proof.
  induction l as [|x l IH] using rev_ind; [done|].
  rewrite <- count_key_tally, length_app. cbn [length]. rewrite <- IH.
  generalize (tally_list l). intros counts.
  induction counts as [|kv counts IHc]; [done|].
  destruct (decide (kv.1 = x)) as [Hx|Hx].
  - rewrite count_key_cons_eq by done. cbn. lia.
  - rewrite count_key_cons_ne by done. rewrite !fmap_cons. cbn [sum_list sum_list_with].
    rewrite IHc. lia.
Qed.

(** ** Sorting by count *)

Lemma insert_by_count_perm (kv : A * nat) counts :
  JsArray.insert_by_count kv counts ≡ₚ kv :: counts.
Proof.
  induction counts as [|y counts IH]; [done|]. cbn [JsArray.insert_by_count].
  destruct (y.2 <? kv.2); [reflexivity|]. rewrite IH. apply Permutation_swap.
Qed.

Lemma sort_by_count_snoc counts (kv : A * nat) :
  JsArray.sort_by_count (counts ++ [kv])
  = JsArray.insert_by_count kv (JsArray.sort_by_count counts).
Proof. unfold JsArray.sort_by_count. by rewrite foldl_app. Qed.

Lemma sort_by_count_perm counts : JsArray.sort_by_count counts ≡ₚ counts.
Proof.
  induction counts as [|kv counts IH] using rev_ind; [done|].
  rewrite sort_by_count_snoc, insert_by_count_perm, IH.
  by rewrite Permutation_cons_append.
Qed.

Lemma insert_by_count_descending (kv : A * nat) counts :
  descending counts → descending (JsArray.insert_by_count kv counts).
Proof.
  unfold descending. induction 1 as [|y counts Hsorted IH Hy];
    cbn [JsArray.insert_by_count].
  - by repeat constructor.
  - destruct (y.2 <? kv.2) eqn:Hlt.
    + apply Nat.ltb_lt in Hlt. constructor; [by constructor|].
      constructor; [lia|]. eapply Forall_impl; [exact Hy|]. cbn. lia.
    + apply Nat.ltb_ge in Hlt. constructor; [done|].
      rewrite insert_by_count_perm. by constructor.
Qed.

Lemma sort_by_count_descending counts : descending (JsArray.sort_by_count counts).
Proof.
  induction counts as [|kv counts IH] using rev_ind; [constructor|].
  rewrite sort_by_count_snoc. by apply insert_by_count_descending.
Qed.

Lemma counted_below n m counts :
  Forall (λ kv : A * nat, kv.2 ≤ m) counts → m < n → counted n counts = [].
Proof.
  unfold counted. induction 1 as [|kv counts Hkv _ IH]; intros Hm; [done|].
  rewrite filter_cons, decide_False by lia. by apply IH.
Qed.

Lemma insert_by_count_counted n (kv : A * nat) counts :
  descending counts →
  counted n (JsArray.insert_by_count kv counts) = counted n (counts ++ [kv]).
Proof.
  unfold descending. induction 1 as [|y counts Hsorted IH Hy]; [done|].
  cbn [JsArray.insert_by_count]. destruct (y.2 <? kv.2) eqn:Hlt.
  - apply Nat.ltb_lt in Hlt.
    assert (Hnone : n = kv.2 → counted n (y :: counts) = []).
    { intros ->. apply (counted_below _ y.2); [|lia]. by constructor. }
    unfold counted in *. rewrite filter_app. rewrite (filter_cons _ kv).
    rewrite (filter_cons _ kv), filter_nil.
    destruct (decide (kv.2 = n)) as [Hn|Hn]; [|by rewrite app_nil_r].
    by rewrite Hnone.
  - unfold counted in *. cbn [app]. rewrite !(filter_cons _ y), IH.
    by destruct (decide (y.2 = n)).
Qed.

Lemma sort_by_count_counted n counts :
  counted n (JsArray.sort_by_count counts) = counted n counts.
Proof.
  induction counts as [|kv counts IH] using rev_ind; [done|].
  rewrite sort_by_count_snoc, insert_by_count_counted
    by apply sort_by_count_descending.
  unfold counted in *. by rewrite !filter_app, IH.
Qed.

End Counting.

Section DailySummaryTopics.
Import DailySummary.

(** ** Topics of a day *)

Lemma topics_collected insights topics :
  foldl (λ topics insight,
           match insight with
           | Some i => topics ++ Insight.topics i
           | None => topics
           end)
        topics insights
  = topics ++ discussed insights.
Proof.
  unfold discussed. revert topics.
  induction insights as [|insight insights IH]; intros topics; cbn [foldl].
  - cbn. by rewrite app_nil_r.
  - rewrite IH. destruct insight as [i|]; cbn [omap list_omap id]; [|done].
    rewrite bind_cons. by rewrite app_assoc.
Qed.

Lemma topics_at_most_six (topics : list Topic) : NoDup topics → length topics ≤ 6.
Proof.
  intros Hnodup.
  apply (submseteq_length topics
           [ProductDemo; PricingDiscussion; DiscoveryCall; FollowUp; Onboarding;
            GeneralDiscussion]).
  apply NoDup_submseteq; [done|]. intros topic _.
  destruct topic; by apply (bool_decide_unpack _).
Qed.

Lemma extractTopics_sorted insights :
  extractTopics insights = JsArray.sort_by_count (tally_list (discussed insights)).
Proof.
  unfold extractTopics. rewrite (topics_collected insights []). cbn [app].
  rewrite count_keys_tally. unfold JsArray.slice_to. apply take_ge.
  rewrite sort_by_count_perm. unfold tally_list. rewrite length_fmap.
  pose proof (topics_at_most_six _ (NoDup_distinct (discussed insights))). lia.
Qed.

Lemma counted_tally_list {A} `{EqDecision A} n (l : list A) :
  (counted n (tally_list l)).*1 = filter (λ x, occurrences x l = n) (distinct l).
Proof.
  unfold counted, tally_list. generalize (distinct l). intros d.
  induction d as [|x d IH]; [done|].
  rewrite fmap_cons, !filter_cons. cbn [snd].
  destruct (decide (occurrences x l = n)); [|done].
  rewrite fmap_cons. cbn [fst]. by rewrite IH.
Qed.

(** X17. The topics of a day are listed one entry per topic of the
    insights, each with the number of its mentions in the insights, by
    decreasing number; topics with equal numbers come in the order of
    their first mention. No topic is left out: there are six topic labels,
    fewer than the ten entries that the list is cut to. *)
Theorem topics_discussed_by_count (insights : list (option Insight.t)) :
  let topics := discussed insights in
  let listed := extractTopics insights in
  NoDup listed.*1
  ∧ (∀ topic n, (topic, n) ∈ listed ↔ topic ∈ topics ∧ n = occurrences topic topics)
  ∧ descending listed
  ∧ (∀ n, (counted n listed).*1
          = filter (λ topic, occurrences topic topics = n) (distinct topics))
  ∧ sum_list listed.*2 = length topics.
Proof.
  cbn zeta. rewrite extractTopics_sorted.
  pose proof (sort_by_count_perm (tally_list (discussed insights))) as Hperm.
  split_and!.
  - rewrite Hperm, tally_list_keys. apply NoDup_distinct.
  - intros topic n. rewrite Hperm. apply elem_of_tally_list.
  - apply sort_by_count_descending.
  - intros n. rewrite sort_by_count_counted. apply counted_tally_list.
  - rewrite Hperm. apply tally_list_total.
Qed.

End DailySummaryTopics.

Section DailySummaryCompetitors.
Import DailySummary.

(** ** Competitor mentions *)

Lemma drawn_S random next k :
  drawn random next (S k) = random next :: drawn random (S next) k.
Proof.
  unfold drawn. cbn [seq fmap list_fmap]. rewrite Nat.add_0_r. f_equal.
  rewrite <- fmap_S_seq, <- list_fmap_compose. apply list_fmap_ext.
  intros i j _. cbn. f_equal. lia.
Qed.

Lemma competitors_collected random insights competitors next :
  foldl (λ '(competitors, next) insight,
           match insight with
           | Some i =>
               if Insight.competitorMentioned i
               then (competitors ++ [pick_competitor (random next)], S next)
               else (competitors, next)
           | None => (competitors, next)
           end)
        (competitors, next) insights
  = let k := length (filter (λ i, mentions_competitor i = true) insights) in
    (competitors ++ (pick_competitor <$> drawn random next k), next + k).
Proof.
  revert competitors next.
  induction insights as [|insight insights IH]; intros competitors next;
    cbn [foldl].
  - cbn. by rewrite app_nil_r, Nat.add_0_r.
  - rewrite filter_cons. destruct insight as [i|]; cbn [mentions_competitor].
    + destruct (Insight.competitorMentioned i).
      * rewrite decide_True by done. rewrite IH. cbn zeta. cbn [length].
        rewrite drawn_S, fmap_cons, <- app_assoc. cbn [app]. f_equal. lia.
      * rewrite decide_False by done. apply IH.
    + rewrite decide_False by done. apply IH.
Qed.

Lemma extractCompetitorMentions_sorted (random : nat → Qc)
    (insights : list (option Insight.t)) (next : nat) :
  let k := length (filter (λ i, mentions_competitor i = true) insights) in
  extractCompetitorMentions random insights next
  = (JsArray.sort_by_count (tally_list (pick_competitor <$> drawn random next k)),
     next + k).
Proof.
  cbn zeta. unfold extractCompetitorMentions.
  rewrite competitors_collected. cbn zeta. cbn [app].
  by rewrite count_keys_tally.
Qed.

(** X18. The competitor mentions of a day draw one random number per
    insight that mentions a competitor and none else. The list has one
    entry per competitor picked, with the number of times it was picked,
    by decreasing number, competitors picked equally often in the order
    of their first pick; the numbers add up to the number of insights that
    mention a competitor. *)
Theorem competitor_mentions_counted (random : nat → Qc)
    (insights : list (option Insight.t)) (next : nat) :
  let k := length (filter (λ i, mentions_competitor i = true) insights) in
  let picked := pick_competitor <$> drawn random next k in
  let listed := (extractCompetitorMentions random insights next).1 in
  (extractCompetitorMentions random insights next).2 = next + k
  ∧ NoDup listed.*1
  ∧ (∀ competitor n,
       (competitor, n) ∈ listed
       ↔ competitor ∈ picked ∧ n = occurrences competitor picked)
  ∧ descending listed
  ∧ (∀ n, (counted n listed).*1
          = filter (λ competitor, occurrences competitor picked = n)
              (distinct picked))
  ∧ sum_list listed.*2 = k.
Proof.
  cbn zeta. rewrite extractCompetitorMentions_sorted. cbn zeta. cbn [fst snd].
  set (picked := pick_competitor <$> _).
  pose proof (sort_by_count_perm (tally_list picked)) as Hperm.
  split_and!.
  - done.
  - rewrite Hperm, tally_list_keys. apply NoDup_distinct.
  - intros competitor n. rewrite Hperm. apply elem_of_tally_list.
  - apply sort_by_count_descending.
  - intros n. rewrite sort_by_count_counted. apply counted_tally_list.
  - rewrite Hperm, tally_list_total. unfold picked, drawn.
    by rewrite !length_fmap, length_seq.
Qed.

Lemma pick_competitor_named (r : Qc) :
  (0 <= r)%Qc → (r < 1)%Qc → pick_competitor r ∈ possibleCompetitors.
Proof.
  intros Hlo Hhi. unfold pick_competitor, JsNumber.floor.
  assert (Hq : (this (r * num 4)%Qc == this r * inject_Z 4)%Q).
  { unfold Qcmult, num, Qc_of_Z. cbn [this Q2Qc]. by rewrite !Qred_correct. }
  rewrite (Qfloor_comp _ _ Hq).
  assert (H0 : (0 <= Qfloor (this r * inject_Z 4))%Z).
  { rewrite <- (Qfloor_Z 0). apply Qfloor_resp_le.
    apply Qmult_le_0_compat; [exact Hlo|done]. }
  assert (H4 : (Qfloor (this r * inject_Z 4) < 4)%Z).
  { rewrite Zlt_Qlt. eapply Qle_lt_trans; [apply Qfloor_le|].
    change (inject_Z 4) with (1 * inject_Z 4)%Q at 2.
    apply Qmult_lt_compat_r; [done|exact Hhi]. }
  rewrite (proj2 (Z.ltb_ge _ _)) by lia.
  destruct (Qfloor (this r * inject_Z 4)) as [|p|p]; [| |lia].
  - by apply (bool_decide_unpack _).
  - assert (Hp : (p = 1 ∨ p = 2 ∨ p = 3)%positive) by lia.
    destruct Hp as [->|[->| ->]]; by apply (bool_decide_unpack _).
Qed.

(** X19. When every number that [Math.random] returns is at least 0 and
    below 1, every competitor listed is one of the four possible
    competitors, so that the list has at most four entries. *)
Theorem competitor_mentions_named (random : nat → Qc)
    (insights : list (option Insight.t)) (next : nat) :
  (∀ n, (0 <= random n)%Qc ∧ (random n < 1)%Qc) →
  let listed := (extractCompetitorMentions random insights next).1 in
  (∀ competitor, competitor ∈ listed.*1 → competitor ∈ possibleCompetitors)
  ∧ length listed ≤ 4.
Proof.
  intros Hrandom. cbn zeta. rewrite extractCompetitorMentions_sorted.
  cbn zeta. cbn [fst].
  set (picked := pick_competitor <$> _).
  pose proof (sort_by_count_perm (tally_list picked)) as Hperm.
  assert (Hnamed : ∀ competitor,
    competitor ∈ (JsArray.sort_by_count (tally_list picked)).*1 →
    competitor ∈ possibleCompetitors).
  { intros competitor. rewrite Hperm, tally_list_keys, elem_of_distinct.
    unfold picked. intros Hin.
    apply list_elem_of_fmap in Hin as (r & -> & Hr).
    unfold drawn in Hr. apply list_elem_of_fmap in Hr as (j & -> & _).
    apply pick_competitor_named; apply Hrandom. }
  split; [done|].
  rewrite <- (length_fmap fst).
  apply (submseteq_length _ possibleCompetitors).
  apply NoDup_submseteq; [|done].
  rewrite Hperm, tally_list_keys. apply NoDup_distinct.
Qed.

End DailySummaryCompetitors.

Section DailySummaryInsights.
Import DailySummary.

Lemma competitor_mentions_named_witness :
  let listed :=
    (extractCompetitorMentions sample_random
       (analyze_calls sample_random sample_calls 0).1 7).1 in
  (∀ competitor, competitor ∈ listed.*1 → competitor ∈ possibleCompetitors)
  ∧ length listed ≤ 4.
Proof.
  apply (competitor_mentions_named sample_random).
  intros n. unfold sample_random. destruct (Nat.even n); split; by vm_compute.
Defined.

(** ** Insights of a day *)

Lemma title_topics_exist (title : string) :
  ∃ topics, extractTopicsFromTitle (VStr title) = Ok topics.
Proof. unfold extractTopicsFromTitle. cbn [as_string mbind result_bind]. by eexists. Qed.

Lemma analyzeCallBasic_titled random call next title :
  Call.title call = VStr title →
  ∃ insight next',
    analyzeCallBasic random call next = (Some insight, next')
    ∧ insight_of call insight
    ∧ next ≤ next' ≤ next + 4.
Proof.
  intros Htitle. unfold analyzeCallBasic, insight_of. rewrite Htitle.
  destruct (title_topics_exist title) as (topics & ->).
  destruct (JsNumber.gt (random next) literal_0_7);
    [|destruct (JsNumber.gt (random (S next)) literal_0_4)];
    (eexists _, _; split; [reflexivity|]; cbn;
     split_and!; try done; try lia; by destruct (Call.participants call)).
Qed.

Lemma analyzeCallBasic_untitled random call next :
  ¬ titled call →
  ∃ next',
    analyzeCallBasic random call next = (None, next') ∧ next ≤ next' ≤ next + 4.
Proof.
  intros Htitle. unfold analyzeCallBasic.
  assert (Hthrow : extractTopicsFromTitle (Call.title call) = Throw TypeError).
  { unfold titled in Htitle.
    destruct (Call.title call) as [| | | |title|]; try done.
    destruct Htitle. by eexists. }
  rewrite Hthrow.
  destruct (JsNumber.gt (random next) literal_0_7);
    [|destruct (JsNumber.gt (random (S next)) literal_0_4)];
    (eexists; split; [reflexivity|lia]).
Qed.

Lemma analyze_calls_insights random calls insights next :
  ∃ insights' next',
    foldl (λ '(insights, next) call,
             let '(insight, next) := analyzeCallBasic random call next in
             (insights ++ [insight], next))
          (insights, next) calls
    = (insights ++ insights', next')
    ∧ length insights' = length calls
    ∧ Forall2 insight_of (filter titled calls) (omap id insights')
    ∧ next ≤ next' ≤ next + 4 * length calls.
Proof.
  revert insights next.
  induction calls as [|call calls IH]; intros insights next; cbn [foldl].
  - exists [], next. rewrite app_nil_r.
    split; [done|]. split; [done|]. split; [constructor|]. cbn [length]. lia.
  - rewrite filter_cons. destruct (decide (titled call)) as [[title Htitle]|Hno].
    + destruct (analyzeCallBasic_titled random call next title Htitle)
        as (insight & next1 & -> & Hinsight & Hnext1).
      destruct (IH (insights ++ [Some insight]) next1)
        as (insights' & next' & -> & Hlen & Hall & Hnext').
      exists (Some insight :: insights'), next'.
      rewrite <- app_assoc. split_and!; try done.
      * cbn. by rewrite Hlen.
      * cbn. by constructor.
      * cbn [length]. lia.
      * cbn [length]. lia.
    + destruct (analyzeCallBasic_untitled random call next Hno)
        as (next1 & -> & Hnext1).
      destruct (IH (insights ++ [None]) next1)
        as (insights' & next' & -> & Hlen & Hall & Hnext').
      exists (None :: insights'), next'.
      rewrite <- app_assoc. split_and!; try done.
      * cbn. by rewrite Hlen.
      * cbn [length]. lia.
      * cbn [length]. lia.
Qed.

(** X20. For a day with calls the summary counts all the calls and lists
    the participants of all of them, but holds insights for the first ten
    calls only: one insight, in order, for each of them whose title is a
    string, with the call's id, title, duration, number of participants
    and the topics of its title. A call without a string title gets no
    insight. At most 50 random numbers are drawn. *)
Theorem daily_summary_analyses_ten_calls (random : nat → Qc)
    (calls : list Call.t) (start : string) (next : nat) :
  calls ≠ [] →
  ∃ summary next',
    generateDailySummary random (Some calls) start next = (Calls summary, next')
    ∧ Summary.callCount summary = length calls
    ∧ Summary.participants summary = distinct (participant_keys calls)
    ∧ Forall2 insight_of (filter titled (take 10 calls)) (Summary.insights summary)
    ∧ length (Summary.insights summary) ≤ 10
    ∧ next ≤ next' ≤ next + 50.
Proof.
  intros Hcalls. unfold generateDailySummary. cbn [default from_option id].
  destruct (length calls =? 0) eqn:Hlen.
  { apply Nat.eqb_eq in Hlen. by destruct calls. }
  unfold analyze_calls, JsArray.slice_to.
  destruct (analyze_calls_insights random (take 10 calls) [] next)
    as (insights & next1 & -> & Hlength & Hall & Hnext1).
  cbn [app].
  pose proof (extractCompetitorMentions_sorted random insights next1) as Hmentions.
  cbn zeta in Hmentions. rewrite Hmentions.
  set (next' := next1 + length (filter (λ i, mentions_competitor i = true) insights)).
  assert (Hnext' : next' = next1
                           + length (filter (λ i, mentions_competitor i = true) insights))
    by done.
  pose proof (length_filter (λ i, mentions_competitor i = true) insights) as Hk.
  pose proof (firstn_le_length 10 calls) as Hten.
  eexists _, _. split; [reflexivity|].
  cbn [Summary.callCount Summary.participants Summary.insights].
  split_and!; try done.
  - apply extractUniqueParticipants_distinct.
  - transitivity (length insights); [|lia]. clear.
    induction insights as [|[i|] insights IH]; cbn; lia.
  - lia.
  - lia.
Qed.

Lemma daily_summary_analyses_ten_calls_witness :
  ∃ summary next',
    generateDailySummary sample_random (Some sample_calls) "2026-11-01T00:00:00.000Z" 0
    = (Calls summary, next')
    ∧ Summary.callCount summary = length sample_calls
    ∧ Summary.participants summary = distinct (participant_keys sample_calls)
    ∧ Forall2 insight_of (filter titled (take 10 sample_calls))
        (Summary.insights summary)
    ∧ length (Summary.insights summary) ≤ 10
    ∧ 0 ≤ next' ≤ 0 + 50.
Proof.
  apply (daily_summary_analyses_ten_calls sample_random sample_calls). discriminate.
Defined.

End DailySummaryInsights.

(** * Properties of the secrets cache and of the transcript handler *)

(** ** Secrets cache *)

(** X21. After a call of [getSecrets] that read the Secret Manager and
    succeeded at the time [now], every call at a time less than one hour
    after [now] returns the same secrets without reading the Secret
    Manager and leaves the cache as it is, whatever the Secret Manager
    holds by then. *)
Theorem secrets_cached_for_an_hour
    (store store' : string → attempt string) (now now' : Z)
    (cache cache' : SecretCache.t) (secrets : Secrets.t) (reads : list effect) :
  getSecrets store now cache = (Done secrets, cache', reads) →
  reads ≠ [] →
  (now' - now < 3600000)%Z →
  getSecrets store' now' cache' = (Done secrets, cache', []).
Proof.
  intros Hfirst Hreads Hnow. unfold getSecrets in Hfirst.
  assert (Hrefreshed :
    cache' = {| SecretCache.secretsCache := Some secrets;
                SecretCache.lastSecretRefresh := now |}).
  { destruct (now - SecretCache.lastSecretRefresh cache <? CACHE_DURATION)%Z;
      [destruct (SecretCache.secretsCache cache)|];
      [by simplify_eq|..];
      destruct (store "gong-access-key"); try discriminate Hfirst;
      destruct (store "gong-secret-key"); try discriminate Hfirst;
      destruct (store "gong-api-base-url"); try discriminate Hfirst;
      by simplify_eq. }
  subst cache'. unfold getSecrets. cbn [SecretCache.lastSecretRefresh
    SecretCache.secretsCache].
  by rewrite (proj2 (Z.ltb_lt _ _)) by (unfold CACHE_DURATION; lia).
Qed.

Lemma secrets_cached_for_an_hour_witness :
  getSecrets failing_store 3599999 (filled_cache 0)
  = (Done sample_secrets, filled_cache 0, []).
Proof.
  apply (secrets_cached_for_an_hour sample_store failing_store 0 3599999
           SecretCache.initial (filled_cache 0) sample_secrets refresh_reads).
  - reflexivity.
  - discriminate.
  - reflexivity.
Defined.

(** X22. A call of [getSecrets] that fails has read the Secret Manager and
    leaves the cache as it was. It fails although secrets are cached when
    the cache is an hour old or older: the cached secrets are not served
    in place of the ones that could not be read. *)
Theorem secrets_failure_keeps_cache
    (store : string → attempt string) (now : Z)
    (cache cache' : SecretCache.t) (f : failure) (reads : list effect) :
  getSecrets store now cache = (Failed f, cache', reads) →
  cache' = cache
  ∧ reads ≠ []
  ∧ (∃ name, ReadSecret name ∈ reads ∧ store name = Failed f)
  ∧ (SecretCache.secretsCache cache = None
     ∨ (3600000 <= now - SecretCache.lastSecretRefresh cache)%Z).
Proof.
  intros Hcall. unfold getSecrets in Hcall.
  assert (Hstale : SecretCache.secretsCache cache = None
                   ∨ (3600000 <= now - SecretCache.lastSecretRefresh cache)%Z
                   ∨ False).
  { destruct (now - SecretCache.lastSecretRefresh cache <? CACHE_DURATION)%Z eqn:Hfresh.
    - destruct (SecretCache.secretsCache cache); [discriminate Hcall|by left].
    - apply Z.ltb_ge in Hfresh. unfold CACHE_DURATION in Hfresh. right. left. lia. }
  assert (Hrefresh :
    match store "gong-access-key" with
    | Failed f => (Failed f, cache, [ReadSecret "gong-access-key"])
    | Done accessKey =>
        match store "gong-secret-key" with
        | Failed f =>
            (Failed f, cache,
             [ReadSecret "gong-access-key"; ReadSecret "gong-secret-key"])
        | Done secretKey =>
            match store "gong-api-base-url" with
            | Failed f =>
                (Failed f, cache,
                 [ReadSecret "gong-access-key"; ReadSecret "gong-secret-key";
                  ReadSecret "gong-api-base-url"])
            | Done baseUrl =>
                (Done {| Secrets.accessKey := accessKey;
                         Secrets.secretKey := secretKey;
                         Secrets.baseUrl := baseUrl |},
                 {| SecretCache.secretsCache :=
                      Some {| Secrets.accessKey := accessKey;
                              Secrets.secretKey := secretKey;
                              Secrets.baseUrl := baseUrl |};
                    SecretCache.lastSecretRefresh := now |},
                 [ReadSecret "gong-access-key"; ReadSecret "gong-secret-key";
                  ReadSecret "gong-api-base-url"])
            end
        end
    end = (Failed f, cache', reads)).
  { destruct (now - SecretCache.lastSecretRefresh cache <? CACHE_DURATION)%Z;
      [destruct (SecretCache.secretsCache cache); [discriminate Hcall|]|];
      exact Hcall. }
  clear Hcall.
  destruct (store "gong-access-key") as [accessKey|f1] eqn:H1.
  - destruct (store "gong-secret-key") as [secretKey|f2] eqn:H2.
    + destruct (store "gong-api-base-url") as [baseUrl|f3] eqn:H3;
        [discriminate Hrefresh|].
      injection Hrefresh as -> <- <-. split_and!; [done|done| |tauto].
      exists "gong-api-base-url". split; [|done]. repeat constructor.
    + injection Hrefresh as -> <- <-. split_and!; [done|done| |tauto].
      exists "gong-secret-key". split; [|done]. repeat constructor.
  - injection Hrefresh as -> <- <-. split_and!; [done|done| |tauto].
    exists "gong-access-key". split; [|done]. repeat constructor.
Qed.

Lemma secrets_failure_keeps_cache_witness :
  filled_cache 0 = filled_cache 0
  ∧ [ReadSecret "gong-access-key"] ≠ []
  ∧ (∃ name, ReadSecret name ∈ [ReadSecret "gong-access-key"]
             ∧ failing_store name = Failed (Rejected "UNAVAILABLE"))
  ∧ (SecretCache.secretsCache (filled_cache 0) = None
     ∨ (3600000 <= 3600000 - SecretCache.lastSecretRefresh (filled_cache 0))%Z).
Proof.
  apply (secrets_failure_keeps_cache failing_store 3600000 (filled_cache 0)
           (filled_cache 0) (Rejected "UNAVAILABLE") [ReadSecret "gong-access-key"]).
  reflexivity.
Defined.

(** ** Transcript handler *)

Lemma map_result_throws {A B} (f : A → result B) (l : list A) (x : A) :
  x ∈ l → f x = Throw TypeError → map_result f l = Throw TypeError.
Proof.
  intros Hx Hf. induction Hx as [x l|x y l Hx IH]; cbn [map_result].
  - by rewrite Hf.
  - destruct (f y) as [b|[]]; cbn [mbind result_bind]; [|done].
    by rewrite IH.
Qed.

Lemma map_result_Forall2 {A B} (f : A → result B) (R : A → B → Prop) (l : list A) :
  Forall (λ x, ∃ y, f x = Ok y ∧ R x y) l →
  ∃ ys, map_result f l = Ok ys ∧ Forall2 R l ys.
Proof.
  induction 1 as [|x l (y & Hy & HR) _ (ys & Hys & Hall)]; cbn [map_result].
  - exists []. by split; [|constructor].
  - exists (y :: ys). rewrite Hy, Hys. by split; [|constructor].
Qed.

Lemma enhance_well_formed t :
  well_formed t → ∃ e, TranscriptHandler.enhance t = Ok e ∧ enhanced_from t e.
Proof.
  unfold well_formed, TranscriptHandler.enhance, enhanced_from.
  destruct (CallTranscript.transcript t) as [entries|v]; cbn [transcript_ok].
  - intros Hok. cbn [TranscriptHandler.transcript_truthy].
    destruct (analyzeTranscriptContent_total entries Hok)
      as (st & analysis & _ & Hanalysis & _).
    rewrite (processTranscriptEntries_spec entries Hok), Hanalysis,
      (extractConversationText_spec entries Hok).
    cbn [mbind result_bind]. by eexists.
  - intros _. cbn. destruct (truthy v); cbn; by eexists.
Qed.

Lemma extractor_throws_on_malformed entries :
  forallb entry_ok entries = false →
  extractConversationText (TArray entries) = Throw TypeError.
Proof.
  intros Hbad. apply not_true_iff_false in Hbad.
  rewrite forallb_Forall in Hbad. apply not_Forall_Exists in Hbad; [|apply _].
  apply Exists_exists in Hbad as (entry & Hentry & Hbad).
  apply not_true_iff_false in Hbad. unfold entry_ok, sentences_of in Hbad.
  destruct (RawEntry.sentences entry) as [sentences|] eqn:Hss; [|done].
  cbn in Hbad. apply not_true_iff_false in Hbad.
  rewrite forallb_Forall in Hbad. apply not_Forall_Exists in Hbad; [|apply _].
  apply Exists_exists in Hbad as (sentence & Hsentence & Hbad).
  apply not_true_iff_false in Hbad.
  unfold extractConversationText.
  rewrite (for_of_throws extract_entry entries entry); [done..|].
  intros [conversation m]. unfold extract_entry. rewrite Hss.
  destruct (m !! RawEntry.speakerId entry);
    by rewrite (for_of_throws _ _ sentence) by
      (done || intros; by apply extract_sentence_throws).
Qed.

Lemma enhance_malformed t :
  ¬ well_formed t → TranscriptHandler.enhance t = Throw TypeError.
Proof.
  unfold well_formed, TranscriptHandler.enhance.
  destruct (CallTranscript.transcript t) as [entries|v]; cbn [transcript_ok];
    [|done].
  intros Hbad%not_true_is_false. cbn [TranscriptHandler.transcript_truthy].
  rewrite (extractor_throws_on_malformed entries Hbad).
  destruct (processTranscriptEntries (TArray entries)) as [?|[]];
    cbn [mbind result_bind]; [|done].
  by destruct (analyzeTranscriptContent (TArray entries)) as [?|[]].
Qed.

(** X23. When the vendor answers a transcript request, the handler
    answers 200 exactly when every sentence text of every transcript in
    the answer is a string or absent: the response then holds, call by
    call and in the vendor's order, what the normalizer, the analyzer and
    the extractor return for the call, and counts the transcripts
    returned. One sentence with another text in one transcript turns the
    whole response into a 500 that reports an internal server error and
    holds no transcript. *)
Theorem transcript_response_all_or_nothing
    (store : string → attempt string)
    (gong : Secrets.t → list jsval → attempt (option (list CallTranscript.t)))
    (now : Z) (req : Request.t TranscriptBody.t) (body : TranscriptBody.t)
    (cache cache' : SecretCache.t) (secrets : Secrets.t) (reads : list effect)
    (callTranscripts : option (list CallTranscript.t)) :
  Request.method req = "POST" →
  Request.body req = Some body →
  TranscriptHandler.targetCallIds body ≠ [] →
  getSecrets store now cache = (Done secrets, cache', reads) →
  gong secrets (TranscriptHandler.targetCallIds body) = Done callTranscripts →
  let ids := TranscriptHandler.targetCallIds body in
  let transcripts := default [] callTranscripts in
  let answer := TranscriptHandler.transcriptHandler store gong now req cache in
  (Forall well_formed transcripts →
   ∃ enhanced,
     answer
     = ({| TranscriptHandler.status := 200;
           TranscriptHandler.body :=
             TranscriptHandler.Enhanced enhanced (length transcripts) ids |},
        cache', reads ++ [PostTranscripts secrets ids])
     ∧ Forall2 enhanced_from transcripts enhanced)
  ∧ (¬ Forall well_formed transcripts →
     answer
     = ({| TranscriptHandler.status := 500;
           TranscriptHandler.body :=
             TranscriptHandler.ErrorReport "Internal server error"
               (Thrown TypeError) |},
        cache', reads ++ [PostTranscripts secrets ids])).
Proof.
  intros Hmethod Hbody Hids Hsecrets Hgong. cbn zeta.
  unfold TranscriptHandler.transcriptHandler.
  rewrite Hmethod, Hsecrets, Hbody, Hgong. cbn [String.eqb Ascii.eqb Bool.eqb negb].
  destruct (TranscriptHandler.targetCallIds body) as [|id ids] eqn:Htarget; [done|].
  cbn [length Nat.eqb]. split.
  - intros Hall.
    destruct (map_result_Forall2 TranscriptHandler.enhance enhanced_from
                (default [] callTranscripts)) as (enhanced & -> & Hen).
    { eapply Forall_impl; [exact Hall|]. apply enhance_well_formed. }
    by exists enhanced.
  - intros Hbad. apply not_Forall_Exists in Hbad; [|intros t; apply _].
    apply Exists_exists in Hbad as (t & Ht & Hbad).
    by rewrite (map_result_throws _ _ t Ht (enhance_malformed t Hbad)).
Qed.

Lemma transcript_response_all_or_nothing_witness :
  let ids := [VStr "1"; VStr "2"] in
  let transcripts :=
    [ {| CallTranscript.callId := VStr "1";
         CallTranscript.transcript := TArray pricing_call |};
      {| CallTranscript.callId := VStr "2";
         CallTranscript.transcript := TArray patchy_call |} ] in
  let answer :=
    TranscriptHandler.transcriptHandler sample_store (sample_gong patchy_call) 5
      sample_request SecretCache.initial in
  (Forall well_formed transcripts →
   ∃ enhanced,
     answer
     = ({| TranscriptHandler.status := 200;
           TranscriptHandler.body :=
             TranscriptHandler.Enhanced enhanced (length transcripts) ids |},
        filled_cache 5, refresh_reads ++ [PostTranscripts sample_secrets ids])
     ∧ Forall2 enhanced_from transcripts enhanced)
  ∧ (¬ Forall well_formed transcripts →
     answer
     = ({| TranscriptHandler.status := 500;
           TranscriptHandler.body :=
             TranscriptHandler.ErrorReport "Internal server error"
               (Thrown TypeError) |},
        filled_cache 5, refresh_reads ++ [PostTranscripts sample_secrets ids])).
Proof.
  apply (transcript_response_all_or_nothing sample_store (sample_gong patchy_call) 5
           sample_request
           {| TranscriptBody.callIds := IdsArray [VStr "1"; VStr "2"];
              TranscriptBody.callId := VUndefined |}
           SecretCache.initial (filled_cache 5) sample_secrets refresh_reads
           (Some [ {| CallTranscript.callId := VStr "1";
                      CallTranscript.transcript := TArray pricing_call |};
                   {| CallTranscript.callId := VStr "2";
                      CallTranscript.transcript := TArray patchy_call |} ])).
  - reflexivity.
  - reflexivity.
  - discriminate.
  - reflexivity.
  - reflexivity.
Defined.

(** * Properties of the AI analysis handlers *)

(** ** Batches *)

Section Batches.

Context {A : Type}.
Implicit Types (l rest : list A) (batches : list (list A)).

Lemma array_slice_batch l (i b : Z) :
  (0 <= i)%Z → (1 <= b)%Z →
  array_slice i (i + b) l = take (Z.to_nat b) (drop (Z.to_nat i) l).
Proof.
  intros Hi Hb. unfold array_slice.
  rewrite (proj2 (Z.ltb_ge _ _)) by lia. rewrite (proj2 (Z.ltb_ge _ _)) by lia.
  destruct (decide (i <= Z.of_nat (length l))%Z) as [Hin|Hout].
  - rewrite (Z.min_l i) by lia.
    destruct (decide (i + b <= Z.of_nat (length l))%Z) as [Hle|Hgt].
    + rewrite Z.min_l by lia. f_equal. lia.
    + rewrite Z.min_r by lia. rewrite !take_ge; [done|rewrite length_drop; lia..].
  - rewrite !Z.min_r by lia. rewrite drop_ge by lia.
    rewrite drop_ge by lia. by rewrite !take_nil.
Qed.

Lemma chunks_fuel size fuel fuel' l :
  1 ≤ size → length l ≤ fuel → length l ≤ fuel' →
  chunks fuel size l = chunks fuel' size l.
Proof.
  intros Hsize. revert fuel' l.
  induction fuel as [|fuel IH]; intros fuel' l Hfuel Hfuel'.
  - destruct l; [|cbn in Hfuel; lia]. by destruct fuel'.
  - destruct l as [|x l]; [by destruct fuel'|].
    destruct fuel' as [|fuel']; [cbn in Hfuel'; lia|].
    cbn [chunks]. f_equal. cbn [length] in Hfuel, Hfuel'.
    apply IH; rewrite length_drop; cbn [length]; lia.
Qed.

Lemma chunks_cons size x l :
  1 ≤ size →
  chunks (length (x :: l)) size (x :: l)
  = take size (x :: l)
    :: chunks (length (drop size (x :: l))) size (drop size (x :: l)).
Proof.
  intros Hsize. cbn [length chunks]. f_equal.
  apply chunks_fuel; [done|rewrite length_drop; cbn [length]; lia|done].
Qed.

Lemma chunks_spec size l :
  1 ≤ size →
  let batches := chunks (length l) size l in
  mjoin batches = l
  ∧ Forall (λ batch, 1 ≤ length batch ≤ size) batches
  ∧ (∀ k batch, batches !! k = Some batch → S k < length batches →
                length batch = size)
  ∧ length l ≤ size * length batches < length l + size.
Proof.
  intros Hsize. cbn zeta.
  remember (length l) as n eqn:Hn. rewrite Hn. revert l Hn.
  induction n as [n IH] using lt_wf_ind. intros l Hn.
  destruct l as [|x l]; [cbn; split_and!; [done|constructor|done|lia..]|].
  rewrite chunks_cons by done.
  destruct (IH (length (drop size (x :: l)))
              ltac:(rewrite Hn, length_drop; cbn [length]; lia)
              (drop size (x :: l)) eq_refl) as (Hjoin & Hall & Hfull & Hcount).
  set (rest := drop size (x :: l)) in *.
  assert (Hrest : length rest = length (x :: l) - size)
    by (unfold rest; by rewrite length_drop).
  set (batches := chunks (length rest) size rest) in *.
  assert (Htake : length (take size (x :: l)) = size `min` length (x :: l))
    by apply length_take.
  cbn [length] in *. split_and!.
  - change (mjoin (take size (x :: l) :: batches))
      with (take size (x :: l) ++ mjoin batches).
    rewrite Hjoin. apply take_drop.
  - constructor; [|done]. lia.
  - intros [|k] batch Hk Hlast.
    + injection Hk as <-. cbn [length] in Hlast.
      destruct (length batches) as [|k']; [lia|].
      rewrite Nat.mul_succ_r in Hcount. lia.
    + cbn [lookup list_lookup] in Hk. apply (Hfull k); [done|].
      cbn [length] in Hlast. lia.
  - rewrite Nat.mul_succ_r. lia.
  - rewrite Nat.mul_succ_r. destruct (length batches) as [|k]; [lia|].
    rewrite Nat.mul_succ_r in Hcount. lia.
Qed.

Lemma make_batches_chunks (b : Z) l fuel (i : Z) batches :
  (0 <= i)%Z → (1 <= b)%Z →
  length (drop (Z.to_nat i) l) < fuel →
  AiHandlers.make_batches fuel l b i batches
  = Some (batches
          ++ chunks (length (drop (Z.to_nat i) l)) (Z.to_nat b)
               (drop (Z.to_nat i) l)).
Proof.
  intros Hi Hb. revert i batches Hi.
  induction fuel as [|fuel IH]; intros i batches Hi Hfuel; [lia|].
  cbn [AiHandlers.make_batches]. rewrite length_drop in Hfuel.
  destruct (i <? Z.of_nat (length l))%Z eqn:Hlt.
  - apply Z.ltb_lt in Hlt. rewrite IH; [|lia|rewrite length_drop; lia].
    rewrite <- app_assoc. do 2 f_equal. rewrite array_slice_batch by done.
    replace (Z.to_nat (i + b)) with (Z.to_nat i + Z.to_nat b) by lia.
    rewrite <- drop_drop.
    destruct (drop (Z.to_nat i) l) as [|x rest] eqn:Hrest.
    { apply (f_equal length) in Hrest. rewrite length_drop in Hrest.
      cbn in Hrest. lia. }
    rewrite chunks_cons by lia. done.
  - apply Z.ltb_ge in Hlt. rewrite drop_ge by lia. cbn. by rewrite app_nil_r.
Qed.

End Batches.

(** X24. With a batch size of at least 1 the batching loop of
    [batchAnalysis] comes to an end and cuts the call ids into consecutive
    batches: put together the batches give back the call ids in order,
    every batch but the last holds exactly [batchSize] call ids and the
    last holds between 1 and [batchSize], so that there are as many
    batches as the call ids need. *)
Theorem batches_partition_call_ids (callIds : list jsval) (batchSize : Z) :
  (1 <= batchSize)%Z →
  ∃ batches,
    (∀ fuel, length callIds < fuel →
             AiHandlers.make_batches fuel callIds batchSize 0 [] = Some batches)
    ∧ mjoin batches = callIds
    ∧ Forall (λ batch, (1 <= Z.of_nat (length batch) <= batchSize)%Z) batches
    ∧ (∀ k batch, batches !! k = Some batch → S k < length batches →
                  Z.of_nat (length batch) = batchSize)
    ∧ (Z.of_nat (length callIds) <= batchSize * Z.of_nat (length batches)
       < Z.of_nat (length callIds) + batchSize)%Z.
Proof.
  intros Hsize.
  destruct (chunks_spec (Z.to_nat batchSize) callIds)
    as (Hjoin & Hall & Hfull & Hcount); [lia|].
  pose proof (Z2Nat.id batchSize ltac:(lia)) as Hsize'.
  set (size := Z.to_nat batchSize) in *.
  exists (chunks (length callIds) size callIds). split_and!.
  - intros fuel Hfuel. rewrite make_batches_chunks; [done|lia|lia|done].
  - done.
  - eapply Forall_impl; [exact Hall|]. cbn. lia.
  - intros k batch Hk Hlast. rewrite (Hfull k batch Hk Hlast). lia.
  - rewrite <- Hsize', <- Nat2Z.inj_mul. lia.
  - rewrite <- Hsize', <- Nat2Z.inj_mul. lia.
Qed.

Lemma batches_partition_call_ids_witness :
  ∃ batches,
    (∀ fuel, length [VStr "1"; VStr "2"; VStr "3"; VStr "4"; VStr "5"] < fuel →
             AiHandlers.make_batches fuel
               [VStr "1"; VStr "2"; VStr "3"; VStr "4"; VStr "5"] 2 0 []
             = Some batches)
    ∧ mjoin batches = [VStr "1"; VStr "2"; VStr "3"; VStr "4"; VStr "5"]
    ∧ Forall (λ batch, (1 <= Z.of_nat (length batch) <= 2)%Z) batches
    ∧ (∀ k batch, batches !! k = Some batch → S k < length batches →
                  Z.of_nat (length batch) = 2%Z)
    ∧ (Z.of_nat (length [VStr "1"; VStr "2"; VStr "3"; VStr "4"; VStr "5"])
       <= 2 * Z.of_nat (length batches)
       < Z.of_nat (length [VStr "1"; VStr "2"; VStr "3"; VStr "4"; VStr "5"]) + 2)%Z.
Proof.
  apply (batches_partition_call_ids
           [VStr "1"; VStr "2"; VStr "3"; VStr "4"; VStr "5"] 2).
  lia.
Defined.

Lemma make_batches_stuck {A} (l : list A) (b : Z) fuel (i : Z) batches :
  (b <= 0)%Z → (i <= 0)%Z → l ≠ [] →
  AiHandlers.make_batches fuel l b i batches = None.
Proof.
  intros Hb Hi Hl. revert i batches Hi.
  induction fuel as [|fuel IH]; intros i batches Hi; [done|].
  cbn [AiHandlers.make_batches].
  rewrite (proj2 (Z.ltb_lt _ _)) by (destruct l; [done|cbn [length]; lia]).
  apply IH. lia.
Qed.

(** X25. With a batch size of 0 or less and at least one call id the
    batching loop of [batchAnalysis] never comes to an end: its counter
    does not grow, and the request gets no response. *)
Theorem batches_never_end_without_progress {R : Type}
    (ai : AiHandlers.ai_call → attempt R)
    (gong : list jsval → attempt (option (list CallTranscript.t)))
    (callIds : list jsval) (batchSize : Z) (fuel : nat) :
  (batchSize <= 0)%Z →
  callIds ≠ [] →
  AiHandlers.make_batches fuel callIds batchSize 0 [] = None
  ∧ AiHandlers.batchAnalysis ai gong fuel (Done ())
      (batch_request callIds (Some batchSize))
    = None.
Proof.
  intros Hsize Hids.
  assert (Hloop : AiHandlers.make_batches fuel callIds batchSize 0 [] = None)
    by (by apply make_batches_stuck).
  split; [done|]. unfold AiHandlers.batchAnalysis, batch_request.
  cbn [Request.method Request.body AiHandlers.BatchBody.callIds
       AiHandlers.BatchBody.batchSize default from_option id String.eqb Ascii.eqb
       Bool.eqb].
  by rewrite Hloop.
Qed.

Lemma batches_never_end_without_progress_witness :
  AiHandlers.make_batches 1000 [VStr "1"] 0 0 [] = None
  ∧ AiHandlers.batchAnalysis sample_ai (λ _, Done None) 1000 (Done ())
      (batch_request [VStr "1"] (Some 0%Z))
    = None.
Proof.
  apply (batches_never_end_without_progress sample_ai (λ _, Done None)
           [VStr "1"] 0 1000); [lia|discriminate].
Defined.

(** ** Batch analysis *)

Section BatchAnalysis.

Context {R : Type}.
Variable ai : AiHandlers.ai_call → attempt R.
Variable gong : list jsval → attempt (option (list CallTranscript.t)).

Lemma failed_batches_reported (f : failure) batches results calls :
  (∀ ids, gong ids = Failed f) →
  foldl (AiHandlers.run_batch ai gong) (results, calls) batches
  = (results ++ (batch_failure f <$> mjoin batches), calls).
Proof.
  intros Hgong. revert results calls.
  induction batches as [|batch batches IH]; intros results calls; cbn [foldl].
  - cbn. by rewrite app_nil_r.
  - unfold AiHandlers.run_batch at 2, AiHandlers.processBatch.
    rewrite Hgong, IH, app_nil_r, <- app_assoc. do 2 f_equal.
    change (mjoin (batch :: batches)) with (batch ++ mjoin batches).
    by rewrite fmap_app.
Qed.

Lemma failures_counted (f : failure) (callIds : list jsval) :
  List.filter (λ r : AiHandlers.entry R, negb (AiHandlers.has_error r))
    (batch_failure f <$> callIds) = []
  ∧ List.filter AiHandlers.has_error (batch_failure (R:=R) f <$> callIds)
    = batch_failure f <$> callIds.
Proof.
  induction callIds as [|callId callIds [IH1 IH2]]; [done|].
  cbn. by rewrite IH1, IH2.
Qed.

End BatchAnalysis.

(** X26. When the vendor rejects every transcript request, a batch
    analysis with a batch size of at least 1 still answers 200: the
    results hold one failed entry per call id, in the order of the
    request, no analysis is asked for, and the summary counts every call
    as failed. *)
Theorem failed_batches_are_reported {R : Type}
    (ai : AiHandlers.ai_call → attempt R)
    (gong : list jsval → attempt (option (list CallTranscript.t)))
    (f : failure) (callIds : list jsval) (batchSize : Z) (fuel : nat) :
  (1 <= batchSize)%Z →
  (∀ ids, gong ids = Failed f) →
  length callIds < fuel →
  ∃ totalBatches,
    AiHandlers.batchAnalysis ai gong fuel (Done ())
      (batch_request callIds (Some batchSize))
    = Some (AiHandlers.mk_response 200
              (AiHandlers.BatchResults (batch_failure f <$> callIds)
                 (length callIds) totalBatches 0 (length callIds)),
            [])
    ∧ (Z.of_nat (length callIds) <= batchSize * Z.of_nat totalBatches
       < Z.of_nat (length callIds) + batchSize)%Z.
Proof.
  intros Hsize Hgong Hfuel.
  destruct (chunks_spec (Z.to_nat batchSize) callIds)
    as (Hjoin & _ & _ & Hcount); [lia|].
  pose proof (Z2Nat.id batchSize ltac:(lia)) as Hsize'.
  set (size := Z.to_nat batchSize) in *.
  set (batches := chunks (length callIds) size callIds) in *.
  exists (length batches).
  split; [|rewrite <- Hsize', <- Nat2Z.inj_mul; lia].
  unfold AiHandlers.batchAnalysis, batch_request.
  cbn [Request.method Request.body AiHandlers.BatchBody.callIds
       AiHandlers.BatchBody.batchSize default from_option id String.eqb Ascii.eqb
       Bool.eqb].
  rewrite make_batches_chunks; [|lia|lia|done].
  change (drop (Z.to_nat 0) callIds) with callIds. fold size. fold batches.
  cbn [mbind option_bind app].
  rewrite (failed_batches_reported ai gong f) by done. cbn [app]. rewrite Hjoin.
  destruct (failures_counted (R:=R) f callIds) as [-> ->].
  by rewrite length_fmap.
Qed.

Lemma failed_batches_are_reported_witness :
  ∃ totalBatches,
    AiHandlers.batchAnalysis sample_ai (λ _, Failed (HttpError 429 None)) 10 (Done ())
      (batch_request [VStr "1"; VStr "2"; VStr "3"] (Some 2%Z))
    = Some (AiHandlers.mk_response 200
              (AiHandlers.BatchResults
                 (batch_failure (HttpError 429 None) <$> [VStr "1"; VStr "2"; VStr "3"])
                 (length [VStr "1"; VStr "2"; VStr "3"]) totalBatches 0
                 (length [VStr "1"; VStr "2"; VStr "3"])),
            [])
    ∧ (Z.of_nat (length [VStr "1"; VStr "2"; VStr "3"]) <= 2 * Z.of_nat totalBatches
       < Z.of_nat (length [VStr "1"; VStr "2"; VStr "3"]) + 2)%Z.
Proof.
  apply (failed_batches_are_reported sample_ai (λ _, Failed (HttpError 429 None))
           (HttpError 429 None) [VStr "1"; VStr "2"; VStr "3"] 2 10).
  - lia.
  - reflexivity.
  - cbn. lia.
Defined.

(** ** AI analysis *)

Section AiAnalysisResults.

Context {R : Type}.
Variable ai : AiHandlers.ai_call → attempt R.
Variable gong : list jsval → attempt (option (list CallTranscript.t)).




End AiAnalysisResults.



Section AiAnalysisFailure.

Context {R : Type}.
Variable ai : AiHandlers.ai_call → attempt R.



End AiAnalysisFailure.


